(** * The Windows OS layer of the garbage collector (gcenv.windows.cpp)

    A shallow embedding of the processor-group model, the restricted
    physical memory limit, the write-watch query, the cache-size probe and
    the processor count of [src/gc/windows/gcenv.windows.cpp], followed by
    the properties the specification states about them.

    Conventions.
    - An unsigned [w]-bit integer is a [Z] in [[0, 2^w)]; every C operation
      that can leave the range is followed by [wrap w].
    - Answers of the operating system are inputs: each component has a
      record of the answers its calls receive.
    - [assert] is the checked-build assertion: a false condition ends the
      run with [Fault AssertionFailed].  A division by zero ends it with
      [Fault DivideByZero]. *)

From Stdlib Require Import ZArith List Lia Bool Znumtheory.
From Stdlib Require Floats.SpecFloat.
From Equations Require Import Equations.
Import ListNotations.
Local Open Scope Z_scope.

(** ** Machine integers *)

Definition wrap (w x : Z) : Z := x mod 2 ^ w.

Definition WORD_BITS : Z := 16.
Definition DWORD_BITS : Z := 32.

Definition to_WORD (x : Z) : Z := wrap WORD_BITS x.
Definition to_DWORD (x : Z) : Z := wrap DWORD_BITS x.

(** The value of an [int] holding the 32 bits [x]. *)
Definition to_int (x : Z) : Z :=
  let y := wrap DWORD_BITS x in
  if y <? 2 ^ 31 then y else y - 2 ^ 32.

(** ** Faults and results *)

Inductive fault : Type :=
| AssertionFailed
| DivideByZero
| OutOfBounds
| Diverges.

Inductive result (A : Type) : Type :=
| Ok (a : A)
| Fault (f : fault).
Arguments Ok {A} a.
Arguments Fault {A} f.

Definition bind {A B} (m : result A) (k : A -> result B) : result B :=
  match m with
  | Ok a => k a
  | Fault f => Fault f
  end.

Notation "x <- m ;; k" := (bind m (fun x => k))
  (at level 61, m at next level, right associativity).
Notation "m ;;; k" := (bind m (fun _ => k))
  (at level 61, right associativity).

Definition assert (c : bool) : result unit :=
  if c then Ok tt else Fault AssertionFailed.

(** Unsigned division as the hardware does it. *)
Definition udiv (a b : Z) : result Z :=
  if b =? 0 then Fault DivideByZero else Ok (a / b).

(** ** Build configuration *)

Inductive Arch : Type := X86 | AMD64 | ARM | ARM64.

Record Build : Type := mkBuild {
  target : Arch;
  FEATURE_REDHAWK : bool
}.

(** [defined(_TARGET_AMD64_) || defined(_TARGET_ARM64_)], also [BIT64]. *)
Definition TARGET_64 (b : Build) : bool :=
  match target b with
  | AMD64 | ARM64 => true
  | X86 | ARM => false
  end.

Definition BIT64 : Build -> bool := TARGET_64.

Definition PTR_BITS (b : Build) : Z := if BIT64 b then 64 else 32.

Definition UINTPTR_MAX (b : Build) : Z := 2 ^ PTR_BITS b - 1.

Definition to_size_t (b : Build) (x : Z) : Z := wrap (PTR_BITS b) x.

(** ** Processor groups *)

Module Topology.

(** [while (v != 0) { t = v; v = u % v; u = t; } return u;] on DWORDs.
    A DWORD is not negative, so [v != 0] is [0 < v]. *)
Equations? GCD (u v : Z) : Z by wf (Z.to_nat v) lt :=
  GCD u v with Z_lt_dec 0 v => {
    | left _ := GCD v (u mod v);
    | right _ := u }.
Proof.
  pose proof (Z.mod_pos_bound u v ltac:(lia)). lia.
Qed.

(** [return u / GCD(u, v) * v;] *)
Definition LCM (u v : Z) : result Z :=
  q <- udiv u (GCD u v) ;;
  Ok (to_DWORD (q * v)).

Record CPU_Group_Info : Type := mkGroup {
  nr_active : Z;
  begin_ : Z;
  end_ : Z;
  active_mask : Z;
  groupWeight : Z;
  activeThreadWeight : Z
}.

Record PROCESSOR_GROUP_INFO : Type := mkPGI {
  ActiveProcessorCount : Z;
  ActiveProcessorMask : Z
}.

Inductive LOGICAL_PROCESSOR_RELATIONSHIP : Type :=
| RelationProcessorCore
| RelationNumaNode
| RelationCache
| RelationProcessorPackage
| RelationGroup.

Definition is_RelationGroup (r : LOGICAL_PROCESSOR_RELATIONSHIP) : bool :=
  match r with RelationGroup => true | _ => false end.

(** One record of the buffer [GetLogicalProcessorInformationEx] fills:
    [Group.ActiveGroupCount] and the array [Group.GroupInfo]. *)
Record SYSTEM_LOGICAL_PROCESSOR_INFORMATION_EX : Type := mkSLPIEx {
  Relationship : LOGICAL_PROCESSOR_RELATIONSHIP;
  ActiveGroupCount : Z;
  GroupInfo : list PROCESSOR_GROUP_INFO
}.

Definition ERROR_INSUFFICIENT_BUFFER : Z := 122.

(** What the operating system and the configuration answer during
    [GCToOSInterface::Initialize]. *)
Record OS : Type := mkOS {
  (* GetSystemInfo *)
  dwNumberOfProcessors : Z;
  dwPageSize : Z;
  dwAllocationGranularity : Z;
  (* GCConfig::GetGCNumaAware, GetNumaHighestNodeNumber *)
  GetGCNumaAware : bool;
  GetNumaHighestNodeNumber : option Z;
  (* GCConfig::GetGCCpuGroup *)
  GetGCCpuGroup : bool;
  (* the sizing call GetLogicalProcessorInformationEx(RelationGroup, NULL, &cb):
     its return value, GetLastError() after it and the size it stores *)
  sizing_ret : bool;
  sizing_LastError : Z;
  sizing_cbSLPIEx : Z;
  (* new (std::nothrow) BYTE[cbSLPIEx] *)
  alloc_bBuffer : bool;
  (* the filling call: the records of the buffer, or failure *)
  filling : option (list SYSTEM_LOGICAL_PROCESSOR_INFORMATION_EX);
  (* new (std::nothrow) CPU_Group_Info[g_nGroups] *)
  alloc_CPUGroupInfoArray : bool;
  (* GetProcessAffinityMask: process mask and system mask *)
  GetProcessAffinityMask : option (Z * Z)
}.

(** The globals of the file that the topology code reads and writes. *)
Record State : Type := mkState {
  g_SystemInfo : Z * Z * Z;
  g_fEnableGCNumaAware : bool;
  g_fEnableGCCPUGroups : bool;
  g_fHadSingleProcessorAtStartup : bool;
  g_nGroups : Z;
  g_nProcessors : Z;
  g_CPUGroupInfoArray : list CPU_Group_Info
}.

(** Static storage is zero-initialised. *)
Definition initial : State :=
  mkState (0, 0, 0) false false false 0 0 [].

Definition set_SystemInfo (st : State) (v : Z * Z * Z) : State :=
  mkState v (g_fEnableGCNumaAware st) (g_fEnableGCCPUGroups st)
    (g_fHadSingleProcessorAtStartup st) (g_nGroups st) (g_nProcessors st)
    (g_CPUGroupInfoArray st).

Definition set_fEnableGCNumaAware (st : State) (v : bool) : State :=
  mkState (g_SystemInfo st) v (g_fEnableGCCPUGroups st)
    (g_fHadSingleProcessorAtStartup st) (g_nGroups st) (g_nProcessors st)
    (g_CPUGroupInfoArray st).

Definition set_fEnableGCCPUGroups (st : State) (v : bool) : State :=
  mkState (g_SystemInfo st) (g_fEnableGCNumaAware st) v
    (g_fHadSingleProcessorAtStartup st) (g_nGroups st) (g_nProcessors st)
    (g_CPUGroupInfoArray st).

Definition set_fHadSingleProcessorAtStartup (st : State) (v : bool) : State :=
  mkState (g_SystemInfo st) (g_fEnableGCNumaAware st) (g_fEnableGCCPUGroups st)
    v (g_nGroups st) (g_nProcessors st) (g_CPUGroupInfoArray st).

Definition set_nGroups (st : State) (v : Z) : State :=
  mkState (g_SystemInfo st) (g_fEnableGCNumaAware st) (g_fEnableGCCPUGroups st)
    (g_fHadSingleProcessorAtStartup st) v (g_nProcessors st)
    (g_CPUGroupInfoArray st).

Definition set_nProcessors (st : State) (v : Z) : State :=
  mkState (g_SystemInfo st) (g_fEnableGCNumaAware st) (g_fEnableGCCPUGroups st)
    (g_fHadSingleProcessorAtStartup st) (g_nGroups st) v
    (g_CPUGroupInfoArray st).

Definition set_CPUGroupInfoArray (st : State) (v : list CPU_Group_Info) : State :=
  mkState (g_SystemInfo st) (g_fEnableGCNumaAware st) (g_fEnableGCCPUGroups st)
    (g_fHadSingleProcessorAtStartup st) (g_nGroups st) (g_nProcessors st) v.

Definition InitNumaNodeInfo (os : OS) (st : State) : State :=
  let st := set_fEnableGCNumaAware st false in
  if negb (GetGCNumaAware os) then st
  else
    match GetNumaHighestNodeNumber os with
    | None => st
    | Some highest =>
        if highest =? 0 then st else set_fEnableGCNumaAware st true
    end.

(** The elements [a[0] .. a[n-1]] of an array; reading past its end is a
    fault. *)
Definition elements {A} (a : list A) (n : Z) : result (list A) :=
  if Z.of_nat (length a) <? n then Fault OutOfBounds
  else Ok (firstn (Z.to_nat n) a).

(** The loop of lines 140-146 over the groups still to visit: returns the
    array entries written, [g_nProcessors] and [dwWeight].  The fields of a
    fresh [CPU_Group_Info] the loop does not write are taken to be 0. *)
Fixpoint record_groups (infos : list PROCESSOR_GROUP_INFO)
    (nProcessors dwWeight : Z) : result (list CPU_Group_Info * Z * Z) :=
  match infos with
  | [] => Ok ([], nProcessors, dwWeight)
  | gi :: rest =>
      let nr := to_WORD (ActiveProcessorCount gi) in
      let nProcessors := to_DWORD (nProcessors + nr) in
      dwWeight <- LCM dwWeight nr ;;
      r <- record_groups rest nProcessors dwWeight ;;
      let '(arr, n, w) := r in
      Ok (mkGroup nr 0 0 (ActiveProcessorMask gi) 0 0 :: arr, n, w)
  end.

(** The loop of lines 152-156. *)
Fixpoint assign_weights (dwWeight : Z) (arr : list CPU_Group_Info)
  : result (list CPU_Group_Info) :=
  match arr with
  | [] => Ok []
  | g :: rest =>
      w <- udiv dwWeight (nr_active g) ;;
      rest <- assign_weights dwWeight rest ;;
      Ok (mkGroup (nr_active g) (begin_ g) (end_ g) (active_mask g) w 0 :: rest)
  end.

Definition InitCPUGroupInfoArray (b : Build) (os : OS) (st : State)
  : result (bool * State) :=
  if TARGET_64 b then
    if sizing_ret os && negb (sizing_LastError os =? ERROR_INSUFFICIENT_BUFFER)
    then Ok (false, st)
    else
      assert (negb (sizing_cbSLPIEx os =? 0)) ;;;
      if negb (alloc_bBuffer os) then Ok (false, st)
      else
        match filling os with
        | None => Ok (false, st)
        | Some records =>
            (* the first record whose Relationship is RelationGroup *)
            let pRecord := find (fun r => is_RelationGroup (Relationship r)) records in
            let st :=
              match pRecord with
              | Some r => set_nGroups st (ActiveGroupCount r)
              | None => st
              end in
            if negb (alloc_CPUGroupInfoArray os)
            then Ok (false, set_CPUGroupInfoArray st [])
            else
              let infos :=
                match pRecord with
                | Some r => GroupInfo r
                | None => []
                end in
              infos <- elements infos (g_nGroups st) ;;
              r <- record_groups infos (g_nProcessors st) 1 ;;
              let '(arr, nProcessors, dwWeight) := r in
              arr <- assign_weights dwWeight arr ;;
              Ok (true, set_CPUGroupInfoArray (set_nProcessors st nProcessors) arr)
        end
  else Ok (false, st).

(** The loop of lines 171-177 over the entries still to visit. *)
Fixpoint assign_ranges (arr : list CPU_Group_Info) (begin nr_proc : Z)
  : list CPU_Group_Info :=
  match arr with
  | [] => []
  | g :: rest =>
      let nr_proc := to_WORD (nr_proc + nr_active g) in
      mkGroup (nr_active g) begin (to_WORD (nr_proc - 1)) (active_mask g)
        (groupWeight g) (activeThreadWeight g)
      :: assign_ranges rest nr_proc nr_proc
  end.

(** [for (WORD i = 0; i < g_nGroups; i++)]: the 16-bit counter never
    reaches a [g_nGroups] above 65535. *)
Definition InitCPUGroupInfoRange (b : Build) (st : State)
  : result (bool * State) :=
  if TARGET_64 b then
    if 2 ^ WORD_BITS <=? g_nGroups st then Fault Diverges
    else
      arr <- elements (g_CPUGroupInfoArray st) (g_nGroups st) ;;
      Ok (true,
          set_CPUGroupInfoArray st
            (assign_ranges arr 0 0
             ++ skipn (Z.to_nat (g_nGroups st)) (g_CPUGroupInfoArray st)))
  else Ok (false, st).

(** Lines 203-213. *)
Definition detect_single_processor (os : OS) (st : State) : State :=
  match GetProcessAffinityMask os with
  | Some (processAffinityMask, systemAffinityMask) =>
      let processAffinityMask := Z.land processAffinityMask systemAffinityMask in
      if negb (processAffinityMask =? 0)
         && (Z.land processAffinityMask (processAffinityMask - 1) =? 0)
      then set_fHadSingleProcessorAtStartup st true
      else st
  | None => st
  end.

Definition InitCPUGroupInfo (b : Build) (os : OS) (st : State) : result State :=
  let st := set_fEnableGCCPUGroups st false in
  if TARGET_64 b then
    if negb (GetGCCpuGroup os) then Ok st
    else
      r <- InitCPUGroupInfoArray b os st ;;
      let '(ok, st) := r in
      if negb ok then Ok st
      else
        r <- InitCPUGroupInfoRange b st ;;
        let '(ok, st) := r in
        if negb ok then Ok st
        else
          let st := set_fEnableGCCPUGroups st (1 <? g_nGroups st) in
          Ok (detect_single_processor os st)
  else Ok (detect_single_processor os st).

Definition Initialize (b : Build) (os : OS) (st : State) : result (bool * State) :=
  let st :=
    set_SystemInfo st
      (dwNumberOfProcessors os, dwPageSize os, dwAllocationGranularity os) in
  assert (dwPageSize os =? 4096) ;;;
  let st := InitNumaNodeInfo os st in
  st <- InitCPUGroupInfo b os st ;;
  Ok (true, st).

Definition CanEnableGCCPUGroups (st : State) : bool := g_fEnableGCCPUGroups st.

Definition GetTotalProcessorCount (st : State) : Z :=
  if CanEnableGCCPUGroups st then g_nProcessors st
  else let '(n, _, _) := g_SystemInfo st in n.

(** The loop of lines 1114-1124 over the entries still to visit; [None]
    when it ends without writing the out-parameters. *)
Fixpoint scan_groups (arr : list CPU_Group_Info)
    (i bTemp bDiff processor_number : Z) : option (Z * Z) :=
  match arr with
  | [] => None
  | g :: rest =>
      let bTemp := to_WORD (bTemp + nr_active g) in
      if processor_number <? bTemp then Some (i, bDiff)
      else scan_groups rest (i + 1) bTemp (to_WORD (processor_number - bTemp))
             processor_number
  end.

(** Returns [(group_number, group_processor_number)]; [processor_number]
    is a uint16_t.  The loop visits the entries below [g_nGroups] until the
    [break]; when it finds none, it has read past the end of a shorter
    array, or its 16-bit counter cannot reach a [g_nGroups] above 65535. *)
Definition GetGroupForProcessor (b : Build) (st : State) (processor_number : Z)
  : result (option (Z * Z)) :=
  assert (g_fEnableGCCPUGroups st) ;;;
  if negb (FEATURE_REDHAWK b) && TARGET_64 b then
    let bTemp := 0 in
    let bDiff := to_WORD (processor_number - bTemp) in
    let visited := Z.min (g_nGroups st) (2 ^ WORD_BITS) in
    match scan_groups (firstn (Z.to_nat visited) (g_CPUGroupInfoArray st))
            0 bTemp bDiff processor_number with
    | Some r => Ok (Some r)
    | None =>
        if Z.of_nat (length (g_CPUGroupInfoArray st)) <? visited
        then Fault OutOfBounds
        else if 2 ^ WORD_BITS <=? g_nGroups st then Fault Diverges
        else Ok None
    end
  else Ok (Some (0, 0)).

End Topology.

(** ** The restricted physical memory limit *)

Module MemoryBudget.

Record MEMORYSTATUSEX : Type := mkMS {
  dwMemoryLoad : Z;
  ullTotalPhys : Z;
  ullAvailPhys : Z;
  ullTotalPageFile : Z;
  ullAvailPageFile : Z;
  ullTotalVirtual : Z;
  ullAvailVirtual : Z
}.

(** The fields of JOBOBJECT_EXTENDED_LIMIT_INFORMATION the code reads;
    [LimitFlags] and [MaximumWorkingSetSize] are those of its
    [BasicLimitInformation]. *)
Record JOBOBJECT_EXTENDED_LIMIT_INFORMATION : Type := mkLimitInfo {
  LimitFlags : Z;
  MaximumWorkingSetSize : Z;
  ProcessMemoryLimit : Z;
  JobMemoryLimit : Z
}.

(** The values of the Windows SDK. *)
Definition JOB_OBJECT_LIMIT_WORKINGSET : Z := 1.
Definition JOB_OBJECT_LIMIT_PROCESS_MEMORY : Z := 256.
Definition JOB_OBJECT_LIMIT_JOB_MEMORY : Z := 512.

(** What the operating system answers to the calls of
    [GetRestrictedPhysicalMemoryLimit] and [GetPhysicalMemoryLimit]. *)
Record OS : Type := mkOS {
  LoadLibraryEx_kernel32 : bool;
  GetProcAddress_IsProcessInJob : bool;
  (* None: the call failed; Some in_job_p otherwise *)
  IsProcessInJob : option bool;
  GetProcAddress_K32GetProcessMemoryInfo : bool;
  GetProcAddress_QueryInformationJobObject : bool;
  QueryInformationJobObject : option JOBOBJECT_EXTENDED_LIMIT_INFORMATION;
  (* None: GlobalMemoryStatusEx returned FALSE *)
  GlobalMemoryStatusEx : option MEMORYSTATUSEX
}.

(** The calls that leave the process, and the store that publishes. *)
Inductive event : Type :=
| CallLoadLibraryEx
| CallGetProcAddress
| CallIsProcessInJob
| CallQueryInformationJobObject
| CallGlobalMemoryStatusEx
| CallFreeLibrary
| Publish (v : Z).

(** The globals; [GCGetProcessMemoryInfo] is [true] when the pointer is not
    null.  [events] is the history of the run, latest first. *)
Record State : Type := mkState {
  g_RestrictedPhysicalMemoryLimit : Z;
  g_UseRestrictedVirtualMemory : bool;
  GCGetProcessMemoryInfo : bool;
  events : list event
}.

Definition initial (b : Build) : State :=
  mkState (UINTPTR_MAX b) false false [].

Definition emit (st : State) (e : event) : State :=
  mkState (g_RestrictedPhysicalMemoryLimit st) (g_UseRestrictedVirtualMemory st)
    (GCGetProcessMemoryInfo st) (e :: events st).

Definition set_GCGetProcessMemoryInfo (st : State) (v : bool) : State :=
  mkState (g_RestrictedPhysicalMemoryLimit st) (g_UseRestrictedVirtualMemory st)
    v (events st).

Definition set_UseRestrictedVirtualMemory (st : State) (v : bool) : State :=
  mkState (g_RestrictedPhysicalMemoryLimit st) v (GCGetProcessMemoryInfo st)
    (events st).

Definition VolatileStore (st : State) (v : Z) : State :=
  mkState v (g_UseRestrictedVirtualMemory st) (GCGetProcessMemoryInfo st)
    (Publish v :: events st).

Definition GetProcessMemoryLoad (os : OS) (st : State)
  : result (MEMORYSTATUSEX * State) :=
  let st := emit st CallGlobalMemoryStatusEx in
  match GlobalMemoryStatusEx os with
  | Some ms => Ok (ms, st)
  | None => Fault AssertionFailed
  end.

(** The locals of [GetRestrictedPhysicalMemoryLimit] that live across the
    label [exit]; [hinstKernel32] is [true] when the handle is not 0. *)
Record Locals : Type := mkLocals {
  job_physical_memory_limit : Z;
  total_virtual : Z;
  total_physical : Z;
  hinstKernel32 : bool
}.

Definition has_flag (flags mask : Z) : bool := negb (Z.land flags mask =? 0).

(** Lines 267-290: the smallest of the three limits, an unset one counting
    as [UINTPTR_MAX]. *)
Definition smallest_job_limit (b : Build)
    (limit_info : JOBOBJECT_EXTENDED_LIMIT_INFORMATION) : Z :=
  let job_memory_limit :=
    if has_flag (LimitFlags limit_info) JOB_OBJECT_LIMIT_JOB_MEMORY
    then JobMemoryLimit limit_info else UINTPTR_MAX b in
  let job_process_memory_limit :=
    if has_flag (LimitFlags limit_info) JOB_OBJECT_LIMIT_PROCESS_MEMORY
    then ProcessMemoryLimit limit_info else UINTPTR_MAX b in
  let job_workingset_limit :=
    if has_flag (LimitFlags limit_info) JOB_OBJECT_LIMIT_WORKINGSET
    then MaximumWorkingSetSize limit_info else UINTPTR_MAX b in
  let job_physical_memory_limit := Z.min job_memory_limit job_process_memory_limit in
  Z.min job_physical_memory_limit job_workingset_limit.

(** Lines 231-300: from the declarations to the label [exit]; every
    [goto exit] returns the locals as they are. *)
Definition before_exit (b : Build) (os : OS) (st : State)
  : result (Locals * State) :=
  let l := mkLocals (UINTPTR_MAX b) 0 0 false in
  let st := emit st CallLoadLibraryEx in
  if negb (LoadLibraryEx_kernel32 os) then Ok (l, st)
  else
    let l := mkLocals (UINTPTR_MAX b) 0 0 true in
    let st := emit st CallGetProcAddress in
    if negb (GetProcAddress_IsProcessInJob os) then Ok (l, st)
    else
      let st := emit st CallIsProcessInJob in
      match IsProcessInJob os with
      | None => Ok (l, st)
      | Some false => Ok (l, st)
      | Some true =>
          let st := emit st CallGetProcAddress in
          let st := set_GCGetProcessMemoryInfo st
                      (GetProcAddress_K32GetProcessMemoryInfo os) in
          if negb (GCGetProcessMemoryInfo st) then Ok (l, st)
          else
            let st := emit st CallGetProcAddress in
            if negb (GetProcAddress_QueryInformationJobObject os) then Ok (l, st)
            else
              let st := emit st CallQueryInformationJobObject in
              match QueryInformationJobObject os with
              | None => Ok (l, st)
              | Some limit_info =>
                  let limit := smallest_job_limit b limit_info in
                  r <- GetProcessMemoryLoad os st ;;
                  let '(ms, st) := r in
                  let limit := to_size_t b (Z.min limit (ullTotalPhys ms)) in
                  Ok (mkLocals limit (ullTotalVirtual ms) (ullAvailPhys ms) true, st)
              end
      end.

(** Lines 302-344: from the label [exit] to the return. *)
Definition after_exit (b : Build) (os : OS) (l : Locals) (st : State)
  : result (Z * State) :=
  let '(l, st) :=
    if job_physical_memory_limit l =? UINTPTR_MAX b then
      if hinstKernel32 l
      then (mkLocals 0 (total_virtual l) (total_physical l) false,
            set_GCGetProcessMemoryInfo (emit st CallFreeLibrary) false)
      else (mkLocals 0 (total_virtual l) (total_physical l) false, st)
    else (l, st) in
  r <- (if total_virtual l =? 0 then
          r <- GetProcessMemoryLoad os st ;;
          let '(ms, st) := r in
          Ok (mkLocals (job_physical_memory_limit l) (ullTotalVirtual ms)
                (ullTotalPhys ms) (hinstKernel32 l), st)
        else Ok (l, st)) ;;
  let '(l, st) := r in
  let l :=
    if negb (job_physical_memory_limit l =? 0)
    then mkLocals (job_physical_memory_limit l) (total_virtual l)
           (job_physical_memory_limit l) (hinstKernel32 l)
    else l in
  let '(l, st) :=
    if total_virtual l <? total_physical l then
      let st :=
        if hinstKernel32 l
        then set_GCGetProcessMemoryInfo (emit st CallFreeLibrary) false
        else st in
      (mkLocals (to_size_t b (total_virtual l)) (total_virtual l)
         (total_physical l) (hinstKernel32 l),
       set_UseRestrictedVirtualMemory st true)
    else (l, st) in
  let st := VolatileStore st (job_physical_memory_limit l) in
  Ok (g_RestrictedPhysicalMemoryLimit st, st).

Definition GetRestrictedPhysicalMemoryLimit (b : Build) (os : OS) (st : State)
  : result (Z * State) :=
  if negb (g_RestrictedPhysicalMemoryLimit st =? UINTPTR_MAX b)
  then Ok (g_RestrictedPhysicalMemoryLimit st, st)
  else
    r <- before_exit b os st ;;
    let '(l, st) := r in
    after_exit b os l st.

(** [is_restricted] is [true] when the caller passes a pointer; the second
    component of the result is what the call leaves in [*is_restricted]. *)
Definition GetPhysicalMemoryLimit (b : Build) (os : OS) (is_restricted : bool)
    (st : State) : result (Z * option bool * State) :=
  let flag := if is_restricted then Some false else None in
  r <- GetRestrictedPhysicalMemoryLimit b os st ;;
  let '(restricted_limit, st) := r in
  if negb (restricted_limit =? 0) then
    Ok (restricted_limit, if is_restricted then Some true else flag, st)
  else
    r <- GetProcessMemoryLoad os st ;;
    let '(memStatus, st) := r in
    assert (negb (ullTotalPhys memStatus =? 0)) ;;;
    Ok (ullTotalPhys memStatus, flag, st).

End MemoryBudget.

(** ** Write watch *)

Module WriteWatch.

(** What [::GetWriteWatch] answers: its return value (0 on success), the
    page addresses it stores and the granularity it reports. *)
Record Answer : Type := mkAnswer {
  ret : Z;
  pageAddresses : list Z;
  granularity : Z
}.

(** [OS_PAGE_SIZE] comes from a header outside the sources at hand and is a
    parameter.  The result is the return value and the page addresses. *)
Definition GetWriteWatch (OS_PAGE_SIZE : Z)
    (os : Z -> Z -> Z -> Z -> Answer)
    (resetState : bool) (address size pageAddressesCount : Z)
  : result (bool * list Z) :=
  let flags := if resetState then 1 else 0 in
  let a := os flags address size pageAddressesCount in
  let success := ret a =? 0 in
  (if success then assert (granularity a =? OS_PAGE_SIZE) else Ok tt) ;;;
  Ok (success, pageAddresses a).

End WriteWatch.

(** ** The cache size per logical processor *)

Module CacheProbe.

Inductive LOGICAL_PROCESSOR_RELATIONSHIP : Type :=
| RelationProcessorCore
| RelationNumaNode
| RelationCache
| RelationProcessorPackage.

Definition is_RelationCache (r : LOGICAL_PROCESSOR_RELATIONSHIP) : bool :=
  match r with RelationCache => true | _ => false end.

(** The fields of SYSTEM_LOGICAL_PROCESSOR_INFORMATION the code reads;
    [Cache_Size] is [Cache.Size]. *)
Record SYSTEM_LOGICAL_PROCESSOR_INFORMATION : Type := mkSLPI {
  Relationship : LOGICAL_PROCESSOR_RELATIONSHIP;
  Cache_Size : Z
}.

Definition ERROR_INSUFFICIENT_BUFFER : Z := 122.

(** What the processor and the operating system answer.  [cpuid leaf] is
    the four registers [__cpuid] stores in [dwBuffer], each as its 32 bits.
    The array [GetLPI] returns is the list [filling] gives, [*nEntries] its
    length. *)
Record OS : Type := mkOS {
  cpuid : Z -> Z * Z * Z * Z;
  sizing_ret : bool;
  sizing_LastError : Z;
  sizing_cbslpi : Z;
  alloc_pslpi : bool;
  filling : option (list SYSTEM_LOGICAL_PROCESSOR_INFORMATION)
}.

(** The function-local statics of [GetCacheSizePerLogicalCpu]. *)
Record State : Type := mkState {
  maxSize : Z;
  maxTrueSize : Z
}.

Definition initial : State := mkState 0 0.

(** [None] is the NULL result. *)
Definition GetLPI (os : OS)
  : result (option (list SYSTEM_LOGICAL_PROCESSOR_INFORMATION)) :=
  if negb (sizing_ret os) && negb (sizing_LastError os =? ERROR_INSUFFICIENT_BUFFER)
  then Ok None
  else
    assert (negb (sizing_cbslpi os =? 0)) ;;;
    if negb (alloc_pslpi os) then Ok None
    else
      match filling os with
      | None => Ok None
      | Some pslpi => Ok (Some pslpi)
      end.

(** The loop of lines 424-430. *)
Definition largest_cache (pslpi : list SYSTEM_LOGICAL_PROCESSOR_INFORMATION) : Z :=
  fold_left
    (fun last_cache_size e =>
       if is_RelationCache (Relationship e)
       then Z.max last_cache_size (Cache_Size e)
       else last_cache_size)
    pslpi 0.

Definition GetLogicalProcessorCacheSizeFromOS (os : OS) : result Z :=
  r <- GetLPI os ;;
  match r with
  | None => Ok 0
  | Some pslpi => Ok (largest_cache pslpi)
  end.

(** Multi-character constants: ['uneG'], ['Ieni'], ['letn'] and ['htuA'],
    ['itne'], ['DMAc']. *)
Definition c_uneG : Z := 0x756E6547.
Definition c_Ieni : Z := 0x49656E69.
Definition c_letn : Z := 0x6C65746E.
Definition c_htuA : Z := 0x68747541.
Definition c_itne : Z := 0x69746E65.
Definition c_DMAc : Z := 0x444D4163.

(** Lines 724-747, entered with the answer to [__cpuid(dwBuffer, 0)]. *)
Definition intel_block (b : Build) (os : OS) (dwBuffer : Z * Z * Z * Z)
    (st : State) : result State :=
  let '(b0, b1, b2, b3) := dwBuffer in
  let maxCpuId := to_int b0 in
  if (to_DWORD b1 =? c_uneG) && (to_DWORD b3 =? c_Ieni) && (to_DWORD b2 =? c_letn)
  then
    maxTrueSize <- GetLogicalProcessorCacheSizeFromOS os ;;
    if BIT64 b && (2 <=? maxCpuId)
    then Ok (mkState (to_size_t b (maxTrueSize * 3)) maxTrueSize)
    else Ok (mkState maxTrueSize maxTrueSize)
  else Ok st.

(** Lines 749-811. *)
Definition amd_block (b : Build) (os : OS) (dwBuffer : Z * Z * Z * Z)
    (st : State) : result State :=
  let '(_, b1, b2, b3) := dwBuffer in
  if (to_DWORD b1 =? c_htuA) && (to_DWORD b3 =? c_itne) && (to_DWORD b2 =? c_DMAc)
  then
    let '(e0, _, _, _) := cpuid os 0x80000000 in
    if 0x80000006 <=? to_DWORD e0 then
      let '(_, _, c2, c3) := cpuid os 0x80000006 in
      let dwL2CacheBits := to_DWORD c2 in
      let dwL3CacheBits := to_DWORD c3 in
      let maxTrueSize := to_size_t b (to_DWORD (Z.shiftr dwL2CacheBits 16 * 1024)) in
      let '(f0, _, _, _) := cpuid os 1 in
      let f0 := to_DWORD f0 in
      let dwBaseFamily := Z.shiftr (Z.land f0 (Z.shiftl 0xF 8)) 8 in
      let dwExtFamily := Z.shiftr (Z.land f0 (Z.shiftl 0xFF 20)) 20 in
      let dwFamily :=
        if 0xF <=? dwBaseFamily then to_DWORD (dwBaseFamily + dwExtFamily)
        else dwBaseFamily in
      maxTrueSize <-
        (if 0x10 <=? dwFamily then
           let bSkipAMDL3 :=
             if dwFamily =? 0x10 then
               let dwBaseModel := Z.shiftr (Z.land f0 (Z.shiftl 0xF 4)) 4 in
               let dwExtModel := Z.shiftr (Z.land f0 (Z.shiftl 0xF 16)) 16 in
               let dwModel :=
                 if 0xF <=? dwBaseFamily
                 then Z.lor (to_DWORD (Z.shiftl dwExtModel 4)) dwBaseModel
                 else dwBaseModel in
               dwModel =? 0x2
             else false in
           if negb bSkipAMDL3 then
             let '(_, _, g2, _) := cpuid os 0x80000008 in
             let dwNumberOfCores := to_DWORD (Z.land (to_DWORD g2) 0xFF + 1) in
             let dwL3CacheSize :=
               to_DWORD (to_size_t b
                 (to_DWORD (to_DWORD (Z.shiftr dwL3CacheBits 18 * 512) * 1024))) in
             dwL3CacheSize <- udiv dwL3CacheSize dwNumberOfCores ;;
             Ok (to_size_t b (maxTrueSize + dwL3CacheSize))
           else Ok maxTrueSize
         else Ok maxTrueSize) ;;
      Ok (mkState maxTrueSize maxTrueSize)
    else Ok st
  else Ok st.

Definition GetCacheSizePerLogicalCpu (b : Build) (os : OS) (trueSize : bool)
    (st : State) : result (Z * State) :=
  if negb (maxSize st =? 0) then
    Ok (if trueSize then maxTrueSize st else maxSize st, st)
  else
    st <-
      match target b with
      | AMD64 | X86 =>
          let dwBuffer := cpuid os 0 in
          st <- intel_block b os dwBuffer st ;;
          amd_block b os dwBuffer st
      | ARM | ARM64 =>
          v <- GetLogicalProcessorCacheSizeFromOS os ;;
          Ok (mkState v v)
      end ;;
    let st :=
      match target b with
      | ARM64 => mkState (to_size_t b (maxTrueSize st * 3)) (maxTrueSize st)
      | _ => st
      end in
    Ok (if trueSize then maxTrueSize st else maxSize st, st).

End CacheProbe.

(** ** The number of processors of the process *)

Module CpuCount.

(** [while (pmask) { pmask &= (pmask - 1); count++; }], run for at most
    [fuel] iterations. *)
Fixpoint count_bits (fuel : nat) (pmask count : Z) : result Z :=
  match fuel with
  | O => if pmask =? 0 then Ok count else Fault Diverges
  | S fuel =>
      if pmask =? 0 then Ok count
      else count_bits fuel (Z.land pmask (pmask - 1)) (count + 1)
  end.

(** A DWORD_PTR has at most 64 bits, and every iteration clears one. *)
Definition DWORD_PTR_BITS : nat := 64.

(** The function-local static [cCPUs]. *)
Record State : Type := mkState { cCPUs : Z }.

Definition initial : State := mkState 0.

(** [GetProcessAffinityMask] is [None] when the call fails, the process
    mask and the system mask otherwise. *)
Definition GetCurrentProcessCpuCount (GetProcessAffinityMask : option (Z * Z))
    (st : State) : result (Z * State) :=
  if negb (cCPUs st =? 0) then Ok (cCPUs st, st)
  else
    count <-
      match GetProcessAffinityMask with
      | None => Ok 1
      | Some (pmask, smask) =>
          let pmask := Z.land pmask smask in
          count <- count_bits DWORD_PTR_BITS pmask 0 ;;
          Ok (if (count =? 0) || (64 <? count) then 64 else count)
      end ;;
    Ok (count, mkState count).

End CpuCount.

(** ** Virtual memory *)

Module VirtualMemory.

(** The values of the Windows SDK. *)
Definition MEM_COMMIT : Z := 0x1000.
Definition MEM_RESERVE : Z := 0x2000.
Definition MEM_DECOMMIT : Z := 0x4000.
Definition MEM_RELEASE : Z := 0x8000.
Definition MEM_RESET : Z := 0x80000.
Definition MEM_WRITE_WATCH : Z := 0x200000.
Definition PAGE_READWRITE : Z := 0x04.

(** What the operating system answers; an address of 0 is the null
    pointer. *)
Record OS : Type := mkOS {
  (* lpAddress, dwSize, flAllocationType, flProtect *)
  VirtualAlloc : Z -> Z -> Z -> Z -> Z;
  (* lpAddress, dwSize, flAllocationType, flProtect, nndPreferred *)
  VirtualAllocExNuma : Z -> Z -> Z -> Z -> Z -> Z;
  (* lpAddress, dwSize, dwFreeType *)
  VirtualFree : Z -> Z -> Z -> bool;
  (* lpAddress, dwSize *)
  VirtualUnlock : Z -> Z -> bool;
  (* the processor number; the node, or failure *)
  GetNumaProcessorNodeEx : Z -> option Z
}.

(** The calls a function makes, in the order it makes them. *)
Inductive call : Type :=
| CallVirtualAlloc (lpAddress dwSize flAllocationType flProtect : Z)
| CallVirtualAllocExNuma (lpAddress dwSize flAllocationType flProtect nndPreferred : Z)
| CallVirtualFree (lpAddress dwSize dwFreeType : Z)
| CallVirtualUnlock (lpAddress dwSize : Z).

Section Constants.

(** [VirtualReserveFlags::WriteWatch] and [NUMA_NODE_UNDEFINED] come from a
    header outside the sources at hand and are parameters. *)
Variable WriteWatch : Z.
Variable NUMA_NODE_UNDEFINED : Z.

Definition VirtualReserve (b : Build) (os : OS) (size alignment flags : Z)
  : result (Z * list call) :=
  assert (Z.land alignment (to_size_t b (alignment - 1)) =? 0) ;;;
  assert (alignment <=? 0x10000) ;;;
  let memFlags :=
    if negb (Z.land flags WriteWatch =? 0)
    then Z.lor MEM_RESERVE MEM_WRITE_WATCH
    else MEM_RESERVE in
  Ok (VirtualAlloc os 0 size memFlags PAGE_READWRITE,
      [CallVirtualAlloc 0 size memFlags PAGE_READWRITE]).

Definition VirtualRelease (os : OS) (address size : Z) : bool * list call :=
  (VirtualFree os address 0 MEM_RELEASE, [CallVirtualFree address 0 MEM_RELEASE]).

Definition VirtualCommit (st : Topology.State) (os : OS) (address size node : Z)
  : result (bool * list call) :=
  if node =? NUMA_NODE_UNDEFINED then
    Ok (negb (VirtualAlloc os address size MEM_COMMIT PAGE_READWRITE =? 0),
        [CallVirtualAlloc address size MEM_COMMIT PAGE_READWRITE])
  else
    assert (Topology.g_fEnableGCNumaAware st) ;;;
    Ok (negb (VirtualAllocExNuma os address size MEM_COMMIT PAGE_READWRITE node =? 0),
        [CallVirtualAllocExNuma address size MEM_COMMIT PAGE_READWRITE node]).

Definition VirtualDecommit (os : OS) (address size : Z) : bool * list call :=
  (VirtualFree os address size MEM_DECOMMIT,
   [CallVirtualFree address size MEM_DECOMMIT]).

Definition VirtualReset (os : OS) (address size : Z) (unlock : bool)
  : bool * list call :=
  let success := negb (VirtualAlloc os address size MEM_RESET PAGE_READWRITE =? 0) in
  (success,
   CallVirtualAlloc address size MEM_RESET PAGE_READWRITE
   :: (if success && unlock then [CallVirtualUnlock address size] else [])).

Definition SupportsWriteWatch (b : Build) (st : Topology.State) (os : OS)
  : result (bool * list call) :=
  let '(_, _, dwAllocationGranularity) := Topology.g_SystemInfo st in
  r <- VirtualReserve b os dwAllocationGranularity 0 WriteWatch ;;
  let '(mem, reserved) := r in
  if negb (mem =? 0) then
    let '(_, released) := VirtualRelease os mem dwAllocationGranularity in
    Ok (true, reserved ++ released)
  else Ok (false, reserved).

End Constants.

Definition CanEnableGCNumaAware (st : Topology.State) : bool :=
  Topology.g_fEnableGCNumaAware st.

(** The result is the return value and what the call leaves in [*node_no]. *)
Definition GetNumaProcessorNode (st : Topology.State) (os : OS) (proc_no : Z)
  : result (bool * option Z) :=
  assert (Topology.g_fEnableGCNumaAware st) ;;;
  match GetNumaProcessorNodeEx os proc_no with
  | Some node_no => Ok (true, Some node_no)
  | None => Ok (false, None)
  end.

End VirtualMemory.

(** ** Memory status *)

Module MemoryStatus.
Import MemoryBudget.

(** How a call ends: it returns, it ends in a fault, or it calls through
    the null pointer [GCGetProcessMemoryInfo]. *)
Inductive outcome (A : Type) : Type :=
| Returned (a : A)
| Faulted (f : fault)
| NullCall.
Arguments Returned {A} a.
Arguments Faulted {A} f.
Arguments NullCall {A}.

(** What is stored through an out-parameter: nothing when the pointer is
    null. *)
Definition out (pointer : bool) (v : Z) : option Z :=
  if pointer then Some v else None.

(** *** The load, in floating point

    [(uint32_t)((float)a * 100.0 / (float)b)]: the two integers are
    converted to single precision; [100.0] is a double, so the product and
    the quotient are computed in double precision; the quotient is
    converted to [uint32_t].  The arithmetic is that of IEEE 754 with
    rounding to nearest, ties to even, in the Standard Library's
    specification of it. *)

(** [(float)n] for an unsigned integer [n]: binary32 has a precision of 24
    bits and [emax = 128]. *)
Definition to_float (n : Z) : SpecFloat.spec_float :=
  SpecFloat.binary_normalize 24 128 n 0 false.

(** The promotion of a [float] to [double] (precision 53, [emax = 1024]);
    it is exact. *)
Definition to_double (x : SpecFloat.spec_float) : SpecFloat.spec_float :=
  match x with
  | SpecFloat.S754_finite s m e =>
      SpecFloat.binary_normalize 53 1024 (if s then Z.neg m else Z.pos m) e s
  | _ => x
  end.

(** The double [100.0]. *)
Definition double_100 : SpecFloat.spec_float :=
  SpecFloat.binary_normalize 53 1024 100 0 false.

(** [(uint32_t)x]: the fraction is discarded; the conversion is undefined
    when what is left does not fit a [uint32_t], and for an infinity and a
    NaN: the model ends there in a fault. *)
Definition to_uint32_t (x : SpecFloat.spec_float) : result Z :=
  match x with
  | SpecFloat.S754_zero _ => Ok 0
  | SpecFloat.S754_finite s m e =>
      let magnitude :=
        if 0 <=? e then Z.pos m * 2 ^ e else Z.pos m / 2 ^ (- e) in
      let truncated := if s then - magnitude else magnitude in
      if (0 <=? truncated) && (truncated <? 2 ^ 32) then Ok truncated
      else Fault OutOfBounds
  | SpecFloat.S754_infinity _ | SpecFloat.S754_nan => Fault OutOfBounds
  end.

(** [percent a b] is [(uint32_t)((float)a * 100.0 / (float)b)]. *)
Definition percent (a b : Z) : result Z :=
  to_uint32_t
    (SpecFloat.SFdiv 53 1024
       (SpecFloat.SFmul 53 1024 (to_double (to_float a)) double_100)
       (to_double (to_float b))).

(** [if (memory_load) *memory_load = (uint32_t)(...)]: the load is
    computed only where it is stored. *)
Definition store_load (memory_load : bool) (a b : Z) : result (option Z) :=
  if memory_load then v <- percent a b ;; Ok (Some v) else Ok None.

(** Lines 1010-1035. *)
Definition system_figures (os : OS) (restricted_limit : Z)
    (memory_load available_physical available_page_file : bool) (st : State)
  : outcome (option Z * option Z * option Z * State) :=
  match GetProcessMemoryLoad os st with
  | Fault f => Faulted f
  | Ok (ms, st) =>
      if g_UseRestrictedVirtualMemory st then
        if negb (ullTotalVirtual ms =? restricted_limit)
        then Faulted AssertionFailed
        else
          match
            store_load memory_load
              (wrap 64 (ullTotalVirtual ms - ullAvailVirtual ms))
              (ullTotalVirtual ms)
          with
          | Fault f => Faulted f
          | Ok load =>
              Returned
                (load,
                 out available_physical (ullTotalVirtual ms),
                 out available_page_file 0,
                 st)
          end
      else
        Returned
          (out memory_load (dwMemoryLoad ms),
           out available_physical (ullAvailPhys ms),
           out available_page_file (ullAvailPageFile ms),
           st)
  end.

(** [K32GetProcessMemoryInfo] is what the call through
    [GCGetProcessMemoryInfo] answers: [pmc.WorkingSetSize], or failure.
    The three booleans tell which out-parameters are not null; the result
    is what the call stores through them. *)
Definition GetMemoryStatus (b : Build) (os : OS)
    (K32GetProcessMemoryInfo : option Z)
    (memory_load available_physical available_page_file : bool) (st : State)
  : outcome (option Z * option Z * option Z * State) :=
  match GetRestrictedPhysicalMemoryLimit b os st with
  | Fault f => Faulted f
  | Ok (restricted_limit, st) =>
      if negb (restricted_limit =? 0) then
        if negb (g_UseRestrictedVirtualMemory st) then
          if GCGetProcessMemoryInfo st then
            match K32GetProcessMemoryInfo with
            | Some workingSetSize =>
                match store_load memory_load workingSetSize restricted_limit with
                | Fault f => Faulted f
                | Ok load =>
                    Returned
                      (load,
                       out available_physical
                         (if restricted_limit <? workingSetSize then 0
                          else restricted_limit - workingSetSize),
                       out available_page_file 0,
                       st)
                end
            | None =>
                system_figures os restricted_limit
                  memory_load available_physical available_page_file st
            end
          else NullCall
        else
          system_figures os restricted_limit
            memory_load available_physical available_page_file st
      else
        system_figures os restricted_limit
          memory_load available_physical available_page_file st
  end.

(** [return (size_t)memStatus.ullAvailVirtual;] after the assertion. *)
Definition GetVirtualMemoryLimit (b : Build) (os : OS) (st : State)
  : result (Z * State) :=
  r <- GetProcessMemoryLoad os st ;;
  let '(memStatus, st) := r in
  assert (negb (ullAvailVirtual memStatus =? 0)) ;;;
  Ok (to_size_t b (ullAvailVirtual memStatus), st).

End MemoryStatus.

(** ** Events *)

Module Events.

(** [INVALID_HANDLE_VALUE] is [(HANDLE)-1] in the Windows SDK; the null
    handle is 0. *)
Definition INVALID_HANDLE_VALUE (b : Build) : Z := UINTPTR_MAX b.

(** What the operating system answers.  [new_Impl] tells whether
    [new (std::nothrow) GCEvent::Impl()] gives an object. *)
Record OS : Type := mkOS {
  new_Impl : bool;
  (* bManualReset, bInitialState *)
  CreateEvent : bool -> bool -> Z;
  SetEvent : Z -> bool;
  ResetEvent : Z -> bool;
  (* hHandle, dwMilliseconds *)
  WaitForSingleObject : Z -> Z -> Z;
  CloseHandle : Z -> bool
}.

Record Impl : Type := mkImpl { m_hEvent : Z }.

(** [m_impl] is [None] when it is [nullptr]. *)
Record GCEvent : Type := mkGCEvent { m_impl : option Impl }.

(** [GCEvent::GCEvent()]. *)
Definition new_GCEvent : GCEvent := mkGCEvent None.

Definition IsValid (b : Build) (i : Impl) : bool :=
  negb (m_hEvent i =? INVALID_HANDLE_VALUE b).

Definition Impl_Set (b : Build) (os : OS) (i : Impl) : result unit :=
  assert (IsValid b i) ;;;
  assert (SetEvent os (m_hEvent i)).

Definition Impl_Reset (b : Build) (os : OS) (i : Impl) : result unit :=
  assert (IsValid b i) ;;;
  assert (ResetEvent os (m_hEvent i)).

Definition Impl_Wait (b : Build) (os : OS) (i : Impl) (timeout : Z)
  : result Z :=
  assert (IsValid b i) ;;;
  Ok (WaitForSingleObject os (m_hEvent i) timeout).

Definition Impl_CloseEvent (b : Build) (os : OS) (i : Impl) : result Impl :=
  assert (IsValid b i) ;;;
  assert (CloseHandle os (m_hEvent i)) ;;;
  Ok (mkImpl (INVALID_HANDLE_VALUE b)).

Definition Impl_CreateAutoEvent (b : Build) (os : OS) (initialState : bool)
  : bool * Impl :=
  let i := mkImpl (CreateEvent os false initialState) in
  (IsValid b i, i).

Definition Impl_CreateManualEvent (b : Build) (os : OS) (initialState : bool)
  : bool * Impl :=
  let i := mkImpl (CreateEvent os true initialState) in
  (IsValid b i, i).

(** [assert(m_impl != nullptr);] and the call through [m_impl]. *)
Definition with_impl {A} (ev : GCEvent) (k : Impl -> result A) : result A :=
  match m_impl ev with
  | None => Fault AssertionFailed
  | Some i => k i
  end.

Definition GCEvent_CloseEvent (b : Build) (os : OS) (ev : GCEvent)
  : result GCEvent :=
  with_impl ev (fun i =>
    i <- Impl_CloseEvent b os i ;;
    Ok (mkGCEvent (Some i))).

Definition GCEvent_Set (b : Build) (os : OS) (ev : GCEvent) : result unit :=
  with_impl ev (Impl_Set b os).

Definition GCEvent_Reset (b : Build) (os : OS) (ev : GCEvent) : result unit :=
  with_impl ev (Impl_Reset b os).

Definition GCEvent_Wait (b : Build) (os : OS) (ev : GCEvent) (timeout : Z)
  : result Z :=
  with_impl ev (fun i => Impl_Wait b os i timeout).

(** The result is the return value and the event afterwards; the object
    the [unique_ptr] holds is deleted where the function returns
    [false]. *)
Definition CreateOSAutoEventNoThrow (b : Build) (os : OS) (initialState : bool)
    (ev : GCEvent) : result (bool * GCEvent) :=
  assert (match m_impl ev with None => true | Some _ => false end) ;;;
  if negb (new_Impl os) then Ok (false, ev)
  else
    let '(ok, event) := Impl_CreateAutoEvent b os initialState in
    if negb ok then Ok (false, ev)
    else Ok (true, mkGCEvent (Some event)).

Definition CreateOSManualEventNoThrow (b : Build) (os : OS) (initialState : bool)
    (ev : GCEvent) : result (bool * GCEvent) :=
  assert (match m_impl ev with None => true | Some _ => false end) ;;;
  if negb (new_Impl os) then Ok (false, ev)
  else
    let '(ok, event) := Impl_CreateManualEvent b os initialState in
    if negb ok then Ok (false, ev)
    else Ok (true, mkGCEvent (Some event)).

Definition CreateAutoEventNoThrow (b : Build) (os : OS) (initialState : bool)
    (ev : GCEvent) : result (bool * GCEvent) :=
  CreateOSAutoEventNoThrow b os initialState ev.

Definition CreateManualEventNoThrow (b : Build) (os : OS) (initialState : bool)
    (ev : GCEvent) : result (bool * GCEvent) :=
  CreateOSManualEventNoThrow b os initialState ev.

End Events.

(** ** Vocabulary of the specification *)

(** The least common multiple of a list of counts. *)
Definition lcm_list (l : list Z) : Z := fold_right Z.lcm 1 l.

Definition sum_list (l : list Z) : Z := fold_right Z.add 0 l.

(** The number of bits set in a mask. *)
Fixpoint popcount_pos (p : positive) : Z :=
  match p with
  | xH => 1
  | xO q => popcount_pos q
  | xI q => 1 + popcount_pos q
  end.

Definition popcount (m : Z) : Z :=
  match m with
  | Zpos p => popcount_pos p
  | _ => 0
  end.

(** The ranges [begin .. end] of the groups of [arr], in order, are not
    empty and tile [start .. stop - 1] without gap or overlap. *)
Fixpoint tiles (arr : list Topology.CPU_Group_Info) (start stop : Z) : Prop :=
  match arr with
  | [] => start = stop
  | g :: rest =>
      Topology.begin_ g = start
      /\ start <= Topology.end_ g
      /\ tiles rest (Topology.end_ g + 1) stop
  end.

(** The range of group [g] contains the processor index [i]. *)
Definition in_range (g : Topology.CPU_Group_Info) (i : Z) : Prop :=
  Topology.begin_ g <= i <= Topology.end_ g.

(** The claim on the ranges, for one state: the ranges of the groups tile
    the processor indices below the total processor count. *)
Definition ranges_partition (st : Topology.State) : Prop :=
  tiles (Topology.g_CPUGroupInfoArray st) 0 (Topology.GetTotalProcessorCount st).

(** The claim on the weights, for one state: every group's weight times its
    number of active processors is the least common multiple of all the
    numbers of active processors. *)
Definition weights_balance (st : Topology.State) : Prop :=
  let arr := Topology.g_CPUGroupInfoArray st in
  Forall
    (fun g => Topology.groupWeight g * Topology.nr_active g
              = lcm_list (map Topology.nr_active arr))
    arr.

(** The quotas of a job that are set, in the order job memory, process
    memory, working set. *)
Definition quotas_set (limit_info : MemoryBudget.JOBOBJECT_EXTENDED_LIMIT_INFORMATION)
  : list Z :=
  let flags := MemoryBudget.LimitFlags limit_info in
  (if MemoryBudget.has_flag flags MemoryBudget.JOB_OBJECT_LIMIT_JOB_MEMORY
   then [MemoryBudget.JobMemoryLimit limit_info] else [])
  ++ (if MemoryBudget.has_flag flags MemoryBudget.JOB_OBJECT_LIMIT_PROCESS_MEMORY
      then [MemoryBudget.ProcessMemoryLimit limit_info] else [])
  ++ (if MemoryBudget.has_flag flags MemoryBudget.JOB_OBJECT_LIMIT_WORKINGSET
      then [MemoryBudget.MaximumWorkingSetSize limit_info] else []).

(** The smallest element of a list; an empty list has none. *)
Definition minimum (l : list Z) : option Z :=
  match l with
  | [] => None
  | q :: qs => Some (fold_right Z.min q qs)
  end.

(** The number of stores to [g_RestrictedPhysicalMemoryLimit] in a history. *)
Fixpoint publications (l : list MemoryBudget.event) : nat :=
  match l with
  | [] => 0%nat
  | MemoryBudget.Publish _ :: l => S (publications l)
  | _ :: l => publications l
  end.

(** [__cpuid(dwBuffer, 0)] names the vendor GenuineIntel. *)
Definition is_GenuineIntel (dwBuffer : Z * Z * Z * Z) : bool :=
  let '(_, b1, b2, b3) := dwBuffer in
  (to_DWORD b1 =? CacheProbe.c_uneG) && (to_DWORD b3 =? CacheProbe.c_Ieni)
  && (to_DWORD b2 =? CacheProbe.c_letn).

(** The builds and processors on which the scaled size is three times the
    true size: ARM64, and AMD64 on a GenuineIntel processor whose highest
    CPUID leaf is at least 2. *)
Definition scales_cache_size (b : Build) (os : CacheProbe.OS) : bool :=
  match target b with
  | ARM64 => true
  | AMD64 =>
      is_GenuineIntel (CacheProbe.cpuid os 0)
      && (2 <=? to_int (let '(b0, _, _, _) := CacheProbe.cpuid os 0 in b0))
  | X86 | ARM => false
  end.

(** The builds and processors on which the true size is the largest cache
    the operating system enumerates. *)
Definition enumerates_caches (b : Build) (os : CacheProbe.OS) : bool :=
  match target b with
  | ARM | ARM64 => true
  | AMD64 | X86 => is_GenuineIntel (CacheProbe.cpuid os 0)
  end.

(** Bits [lo .. lo + n - 1] of a register. *)
Definition bit_field (x lo n : Z) : Z := (x / 2 ^ lo) mod 2 ^ n.

Definition is_AuthenticAMD (dwBuffer : Z * Z * Z * Z) : bool :=
  let '(_, b1, b2, b3) := dwBuffer in
  (to_DWORD b1 =? CacheProbe.c_htuA) && (to_DWORD b3 =? CacheProbe.c_itne)
  && (to_DWORD b2 =? CacheProbe.c_DMAc).

(** The family and the model of an AuthenticAMD processor, from EAX of
    CPUID leaf 1: the extended fields count where the base family is 15. *)
Definition amd_family (eax : Z) : Z :=
  if bit_field eax 8 4 =? 15 then 15 + bit_field eax 20 8
  else bit_field eax 8 4.

Definition amd_model (eax : Z) : Z :=
  if bit_field eax 8 4 =? 15 then 16 * bit_field eax 16 4 + bit_field eax 4 4
  else bit_field eax 4 4.

(** The processors whose L3 cache counts: family 10h and later, except
    family 10h model 2. *)
Definition amd_counts_L3 (eax : Z) : bool :=
  (0x10 <=? amd_family eax)
  && negb ((amd_family eax =? 0x10) && (amd_model eax =? 2)).

(** The true size where the caches are not enumerated.  On an AuthenticAMD
    processor whose highest extended CPUID leaf is at least 0x80000006: the
    L2 size (leaf 0x80000006, ECX bits 31-16, in KB) plus, where the L3
    cache counts, the L3 size (EDX bits 31-18, in units of 512 KB, as a
    DWORD) divided by the number of cores (leaf 0x80000008, ECX bits 7-0,
    plus 1).  On every other processor: 0, not determined. *)
Definition cpuid_deduced_size (b : Build) (os : CacheProbe.OS) : Z :=
  let '(highest, _, _, _) := CacheProbe.cpuid os 0x80000000 in
  if is_AuthenticAMD (CacheProbe.cpuid os 0)
     && (0x80000006 <=? to_DWORD highest)
  then
    let '(_, _, ecx6, edx6) := CacheProbe.cpuid os 0x80000006 in
    let '(eax1, _, _, _) := CacheProbe.cpuid os 1 in
    let '(_, _, ecx8, _) := CacheProbe.cpuid os 0x80000008 in
    let L2 := 1024 * bit_field (to_DWORD ecx6) 16 16 in
    let L3 := (512 * 1024 * bit_field (to_DWORD edx6) 18 14) mod 2 ^ 32 in
    let cores := bit_field (to_DWORD ecx8) 0 8 + 1 in
    to_size_t b (L2 + if amd_counts_L3 (to_DWORD eax1) then L3 / cores else 0)
  else 0.

(** The process is affinitized to exactly one processor: the query of the
    affinity masks succeeds and process mask AND system mask has one bit. *)
Definition affinitized_to_one (masks : option (Z * Z)) : bool :=
  match masks with
  | Some (p, s) => popcount (Z.land p s) =? 1
  | None => false
  end.

(** The number of calls of [FreeLibrary] in a history. *)
Fixpoint frees (l : list MemoryBudget.event) : nat :=
  match l with
  | [] => 0%nat
  | MemoryBudget.CallFreeLibrary :: l => S (frees l)
  | _ :: l => frees l
  end.

(** [GetMemoryStatus] can make its call through [GCGetProcessMemoryInfo]:
    the state is one in which it makes no such call (no limit published
    yet, no limit in force, or the limit of the virtual address space), or
    the pointer is not null. *)
Definition pointer_in_place (b : Build) (st : MemoryBudget.State) : Prop :=
  MemoryBudget.g_RestrictedPhysicalMemoryLimit st = UINTPTR_MAX b
  \/ MemoryBudget.g_RestrictedPhysicalMemoryLimit st = 0
  \/ MemoryBudget.g_UseRestrictedVirtualMemory st = true
  \/ MemoryBudget.GCGetProcessMemoryInfo st = true.

(** The location of [m + r / D] between [m] and [m + 1], as the rounding
    of the floating-point specification records it. *)
Definition loc_of (r D : Z) : SpecFloat.location :=
  if r =? 0 then SpecFloat.loc_Exact
  else SpecFloat.loc_Inexact (2 * r ?= D).

(** [n] shifts to the right of [m + r / D]: the record of [m / 2^n] and of
    what is left. *)
Definition shifted (n m r D : Z) (mrs : SpecFloat.shr_record) : Prop :=
  exists r',
    mrs = SpecFloat.shr_record_of_loc (m / 2 ^ n) (loc_of r' (2 ^ n * D))
    /\ 0 <= r' < 2 ^ n * D
    /\ (m / 2 ^ n) * (2 ^ n * D) + r' = m * D + r.

(** ** Scenarios *)

Definition amd64 : Build := mkBuild AMD64 false.
Definition x86 : Build := mkBuild X86 false.

(** An AMD64 build with FEATURE_REDHAWK defined. *)
Definition amd64_redhawk : Build := mkBuild AMD64 true.

(** A machine whose processor groups have the given numbers of active
    processors; every call of the discovery succeeds. *)
Definition machine_with_groups (counts : list Z) : Topology.OS :=
  Topology.mkOS 64 4096 65536 false None true
    false Topology.ERROR_INSUFFICIENT_BUFFER 1 true
    (Some [Topology.mkSLPIEx Topology.RelationGroup (Z.of_nat (length counts))
             (map (fun c => Topology.mkPGI c (2 ^ c - 1)) counts)])
    true (Some (2 ^ 64 - 1, 2 ^ 64 - 1)).

(** The state [Initialize] leaves on a machine with groups of 4 and 6. *)
Definition state_4_6 : Topology.State :=
  Topology.mkState (64, 4096, 65536) false true false 2 10
    [Topology.mkGroup 4 0 3 15 3 0; Topology.mkGroup 6 4 9 63 2 0].

(** The state [Initialize] leaves on a machine with six groups of 64, 63,
    61, 59, 53 and 47 processors: the running product passes [2^32]. *)
Definition state_six_groups : Topology.State :=
  Topology.mkState (64, 4096, 65536) false true false 6 347
    [Topology.mkGroup 64 0 63 (2 ^ 64 - 1) 27930955 0;
     Topology.mkGroup 63 64 126 (2 ^ 63 - 1) 28374303 0;
     Topology.mkGroup 61 127 187 (2 ^ 61 - 1) 29304608 0;
     Topology.mkGroup 59 188 246 (2 ^ 59 - 1) 30297985 0;
     Topology.mkGroup 53 247 299 (2 ^ 53 - 1) 33727945 0;
     Topology.mkGroup 47 300 346 (2 ^ 47 - 1) 38033640 0].

(** The state [Initialize] leaves on a machine with 1025 groups of 64
    processors, 65600 in all: the 16-bit [begin] and [end] of group [k] are
    [64 k] and [64 k + 63] modulo 65536. *)
Definition state_1025_groups : Topology.State :=
  Topology.mkState (64, 4096, 65536) false true false 1025 65600
    (map (fun k => Topology.mkGroup 64 (to_WORD (64 * Z.of_nat k))
                     (to_WORD (64 * Z.of_nat k + 63)) (2 ^ 64 - 1) 1 0)
         (seq 0 1025)).

(** A machine on which the sizing call of the group discovery fails with
    ERROR_INVALID_FUNCTION (1) and stores no size. *)
Definition machine_sizing_call_fails : Topology.OS :=
  Topology.mkOS 8 4096 65536 false None true
    false 1 0 true None true (Some (255, 255)).

Definition MB : Z := 1024 * 1024.
Definition GB : Z := 1024 * MB.

(** A process inside a job whose extended limit information is readable:
    every call on the way to it succeeds. *)
Definition job_machine (limit_info : MemoryBudget.JOBOBJECT_EXTENDED_LIMIT_INFORMATION)
    (ms : MemoryBudget.MEMORYSTATUSEX) : MemoryBudget.OS :=
  MemoryBudget.mkOS true true (Some true) true true (Some limit_info) (Some ms).

(** A process that is in no job. *)
Definition machine_without_job (ms : MemoryBudget.MEMORYSTATUSEX) : MemoryBudget.OS :=
  MemoryBudget.mkOS true true (Some false) true true None (Some ms).

(** Memory figures: total physical, available physical, total virtual. *)
Definition memory (total_phys avail_phys total_virtual : Z) : MemoryBudget.MEMORYSTATUSEX :=
  MemoryBudget.mkMS 50 total_phys avail_phys (2 * total_phys) total_phys
    total_virtual total_virtual.

(** A job with a job-wide memory limit of 100 MB and no other quota. *)
Definition job_100MB : MemoryBudget.JOBOBJECT_EXTENDED_LIMIT_INFORMATION :=
  MemoryBudget.mkLimitInfo MemoryBudget.JOB_OBJECT_LIMIT_JOB_MEMORY 0 0 (100 * MB).

(** A job with no memory quota. *)
Definition job_without_quota : MemoryBudget.JOBOBJECT_EXTENDED_LIMIT_INFORMATION :=
  MemoryBudget.mkLimitInfo 0 0 0 0.

(** A 32-bit process on a machine with 8 GB of physical memory, 1 GB of it
    available, and 2 GB of virtual address space. *)
Definition memory_8GB_32bit : MemoryBudget.MEMORYSTATUSEX :=
  memory (8 * GB) (1 * GB) (2 * GB).

(** An operating system whose write-watch query succeeds and reports one
    dirty page and a granularity of 4096. *)
Definition write_watch_4096 : Z -> Z -> Z -> Z -> WriteWatch.Answer :=
  fun _ address _ _ => WriteWatch.mkAnswer 0 [address] 4096.

(** A GenuineIntel processor with highest CPUID leaf 0x16. *)
Definition intel_cpuid : Z -> Z * Z * Z * Z :=
  fun leaf =>
    if leaf =? 0
    then (0x16, CacheProbe.c_uneG, CacheProbe.c_letn, CacheProbe.c_Ieni)
    else (0, 0, 0, 0).

(** The allocation of the array in [GetLPI] fails. *)
Definition intel_allocation_fails : CacheProbe.OS :=
  CacheProbe.mkOS intel_cpuid false CacheProbe.ERROR_INSUFFICIENT_BUFFER 96
    false None.

(** The operating system enumerates caches of 32 KB and 8 MB. *)
Definition intel_8MB : CacheProbe.OS :=
  CacheProbe.mkOS intel_cpuid false CacheProbe.ERROR_INSUFFICIENT_BUFFER 96
    true
    (Some [CacheProbe.mkSLPI CacheProbe.RelationCache (32 * 1024);
           CacheProbe.mkSLPI CacheProbe.RelationProcessorCore 0;
           CacheProbe.mkSLPI CacheProbe.RelationCache (8 * MB)]).

(** An AuthenticAMD processor of family 17h with 4 cores, 512 KB of L2
    cache and 8 MB of L3 cache. *)
Definition amd_cpuid : Z -> Z * Z * Z * Z :=
  fun leaf =>
    if leaf =? 0
    then (0xD, CacheProbe.c_htuA, CacheProbe.c_DMAc, CacheProbe.c_itne)
    else if leaf =? 0x80000000 then (0x80000008, 0, 0, 0)
    else if leaf =? 0x80000006 then (0, 0, Z.shiftl 512 16, Z.shiftl 16 18)
    else if leaf =? 1 then (0x00800F00, 0, 0, 0)
    else if leaf =? 0x80000008 then (0, 0, 3, 0)
    else (0, 0, 0, 0).

(** That processor; the operating system enumerates caches of 32 KB,
    512 KB and 8 MB. *)
Definition amd_8MB : CacheProbe.OS :=
  CacheProbe.mkOS amd_cpuid false CacheProbe.ERROR_INSUFFICIENT_BUFFER 96
    true
    (Some [CacheProbe.mkSLPI CacheProbe.RelationCache (32 * 1024);
           CacheProbe.mkSLPI CacheProbe.RelationCache (512 * 1024);
           CacheProbe.mkSLPI CacheProbe.RelationCache (8 * MB)]).

(** An AuthenticAMD processor of family 10h model 2 (Barcelona) with 4
    cores, 512 KB of L2 cache and 2 MB of L3 cache. *)
Definition barcelona_cpuid : Z -> Z * Z * Z * Z :=
  fun leaf =>
    if leaf =? 0
    then (0x5, CacheProbe.c_htuA, CacheProbe.c_DMAc, CacheProbe.c_itne)
    else if leaf =? 0x80000000 then (0x8000001A, 0, 0, 0)
    else if leaf =? 0x80000006 then (0, 0, Z.shiftl 512 16, Z.shiftl 4 18)
    else if leaf =? 1 then (0x00100F23, 0, 0, 0)
    else if leaf =? 0x80000008 then (0, 0, 3, 0)
    else (0, 0, 0, 0).

(** That processor; the operating system enumerates caches of 64 KB,
    512 KB and 2 MB. *)
Definition barcelona_2MB : CacheProbe.OS :=
  CacheProbe.mkOS barcelona_cpuid false CacheProbe.ERROR_INSUFFICIENT_BUFFER 96
    true
    (Some [CacheProbe.mkSLPI CacheProbe.RelationCache (64 * 1024);
           CacheProbe.mkSLPI CacheProbe.RelationCache (512 * 1024);
           CacheProbe.mkSLPI CacheProbe.RelationCache (2 * MB)]).

(** The state a first call leaves in a 64-bit process under [job_100MB]
    on a machine with 1 GB of physical memory. *)
Definition state_100MB_published : MemoryBudget.State :=
  MemoryBudget.mkState (100 * MB) false true
    [MemoryBudget.Publish (100 * MB); MemoryBudget.CallGlobalMemoryStatusEx;
     MemoryBudget.CallQueryInformationJobObject; MemoryBudget.CallGetProcAddress;
     MemoryBudget.CallGetProcAddress; MemoryBudget.CallIsProcessInJob;
     MemoryBudget.CallGetProcAddress; MemoryBudget.CallLoadLibraryEx].

(** A machine whose process is affinitized to processor 2 of 4; GCCpuGroup
    is configured off. *)
Definition machine_affinitized_to_one : Topology.OS :=
  Topology.mkOS 4 4096 65536 false None false
    false Topology.ERROR_INSUFFICIENT_BUFFER 1 true None true (Some (4, 15)).

(** An operating system that creates the event of handle 0x1A4 and
    accepts every operation on it. *)
Definition events_machine : Events.OS :=
  Events.mkOS true (fun _ _ => 0x1A4) (fun _ => true) (fun _ => true)
    (fun _ _ => 0) (fun _ => true).

(** The event of handle 0x1A4. *)
Definition event_0x1A4 : Events.GCEvent :=
  Events.mkGCEvent (Some (Events.mkImpl 0x1A4)).

(** An operating system whose [CreateEvent] fails, returning the null
    handle, and which rejects the null handle everywhere else. *)
Definition events_machine_out_of_handles : Events.OS :=
  Events.mkOS true (fun _ _ => 0) (fun h => negb (h =? 0))
    (fun h => negb (h =? 0)) (fun _ _ => 0xFFFFFFFF) (fun h => negb (h =? 0)).

(** A 32-bit process on a machine with 8 GB of physical memory: 2 GB of
    virtual address space, of which 512 MB are left. *)
Definition memory_2GB_of_address_space : MemoryBudget.MEMORYSTATUSEX :=
  MemoryBudget.mkMS 50 (8 * GB) (1 * GB) (16 * GB) (8 * GB) (2 * GB) (GB / 2).

(** * Properties *)

(** ** Machine integers *)

Lemma wrap_small w x : 0 <= x < 2 ^ w -> wrap w x = x.
Proof. intros H. unfold wrap. apply Z.mod_small; exact H. Qed.

Lemma wrap_range w x : 0 <= w -> 0 <= wrap w x < 2 ^ w.
Proof.
  intros Hw. unfold wrap. apply Z.mod_pos_bound.
  apply Z.pow_pos_nonneg; lia.
Qed.

Lemma to_WORD_range x : 0 <= to_WORD x < 65536.
Proof. apply (wrap_range 16 x); lia. Qed.

Lemma to_WORD_small x : 0 <= x < 65536 -> to_WORD x = x.
Proof. intros H. apply wrap_small. exact H. Qed.

Lemma to_DWORD_small x : 0 <= x < 2 ^ 32 -> to_DWORD x = x.
Proof. intros H. apply wrap_small. exact H. Qed.

Lemma bind_Ok {A B} (m : result A) (k : A -> result B) (r : B) :
  bind m k = Ok r -> exists a, m = Ok a /\ k a = Ok r.
Proof. destruct m as [a|f]; simpl; [eauto | discriminate]. Qed.

(** [bind_inv H as a Ha]: from [H : bind m k = Ok r] get [a] with
    [Ha : m = Ok a] and [H : k a = Ok r]. *)
Tactic Notation "bind_inv" hyp(H) "as"
    simple_intropattern(a) simple_intropattern(Ha) :=
  apply bind_Ok in H; destruct H as (a & Ha & H).

(** ** Processor groups *)

Section TopologyFacts.
Import Topology.

Lemma GCD_gcd u v : 0 <= u -> 0 <= v -> GCD u v = Z.gcd u v.
Proof.
  funelim (GCD u v); intros Hu Hv.
  - (* the loop runs once more *)
    rewrite H.
    + rewrite Z.gcd_comm, Z.gcd_mod by lia. apply Z.gcd_comm.
    + lia.
    + apply Z.mod_pos_bound; lia.
  - assert (v = 0) by lia. subst v.
    rewrite Z.gcd_0_r, Z.abs_eq; [reflexivity | lia].
Qed.

Lemma lcm_pos a b : 0 < a -> 0 < b -> 0 < Z.lcm a b.
Proof.
  intros Ha Hb. pose proof (Z.lcm_nonneg a b).
  assert (Z.lcm a b <> 0) by (rewrite Z.lcm_eq_0; lia). lia.
Qed.

Lemma divide_le_pos a b : 0 < b -> (a | b) -> a <= b.
Proof. intros Hb Hd. apply Z.divide_pos_le; assumption. Qed.

Lemma LCM_lcm u v :
  0 < u -> 0 < v -> Z.lcm u v < 2 ^ 32 -> LCM u v = Ok (Z.lcm u v).
Proof.
  intros Hu Hv Hlt. unfold LCM, udiv.
  rewrite GCD_gcd by lia.
  assert (Hg : 0 < Z.gcd u v).
  { pose proof (Z.gcd_nonneg u v).
    assert (Z.gcd u v <> 0) by (intros E; apply Z.gcd_eq_0_l in E; lia). lia. }
  destruct (Z.eqb_spec (Z.gcd u v) 0) as [E|_]; [lia|]. simpl.
  rewrite Z.gcd_div_swap.
  assert (El : Z.lcm u v = u * (v / Z.gcd u v)).
  { unfold Z.lcm. apply Z.abs_eq. apply Z.mul_nonneg_nonneg; [lia|].
    apply Z.div_pos; lia. }
  rewrite <- El. rewrite to_DWORD_small; [reflexivity|].
  pose proof (Z.lcm_nonneg u v). lia.
Qed.

Lemma lcm_list_pos l : Forall (fun n => 0 < n) l -> 0 < lcm_list l.
Proof.
  induction 1 as [|n l Hn _ IH]; simpl; [lia|].
  apply lcm_pos; assumption.
Qed.

Lemma lcm_list_divide n l : In n l -> (n | lcm_list l).
Proof.
  induction l as [|m l IH]; simpl; [contradiction|].
  intros [->|Hin].
  - apply Z.divide_lcm_l.
  - apply Z.divide_trans with (lcm_list l); [auto | apply Z.divide_lcm_r].
Qed.

(** What the first loop leaves: the counts it stored, as WORDs. *)
Lemma record_groups_counts infos : forall n w arr n' w',
  record_groups infos n w = Ok (arr, n', w') ->
  map nr_active arr = map (fun gi => to_WORD (ActiveProcessorCount gi)) infos.
Proof.
  induction infos as [|gi rest IH]; simpl; intros n w arr n' w' H.
  - inversion H; reflexivity.
  - bind_inv H as w1 _.
    bind_inv H as [[arr0 n0] w0] Hrec.
    inversion H; subst. simpl. f_equal. eapply IH; eassumption.
Qed.

Lemma record_groups_WORD infos : forall n w arr n' w',
  record_groups infos n w = Ok (arr, n', w') ->
  Forall (fun g => 0 <= nr_active g < 65536) arr.
Proof.
  intros n w arr n' w' H. apply record_groups_counts in H.
  apply Forall_forall. intros g Hg.
  apply (in_map nr_active) in Hg. rewrite H in Hg.
  apply in_map_iff in Hg. destruct Hg as (gi & <- & _). apply to_WORD_range.
Qed.

(** The first loop computes the least common multiple as long as it fits
    in a DWORD. *)
Lemma record_groups_weight infos : forall n w arr n' w',
  record_groups infos n w = Ok (arr, n', w') ->
  0 < w ->
  Forall (fun c => 0 < c) (map nr_active arr) ->
  Z.lcm w (lcm_list (map nr_active arr)) < 2 ^ 32 ->
  w' = Z.lcm w (lcm_list (map nr_active arr)).
Proof.
  induction infos as [|gi rest IH]; simpl; intros n w arr n' w' H Hw Hpos Hlt.
  - inversion H; subst. simpl. rewrite Z.lcm_1_r_nonneg; lia.
  - bind_inv H as w1 HL.
    bind_inv H as [[arr0 n0] w0] Hrec.
    inversion H; subst. clear H. simpl in *.
    inversion Hpos as [|c cs Hc Hcs]; subst.
    set (nr := to_WORD (ActiveProcessorCount gi)) in *.
    set (L := lcm_list (map nr_active arr0)) in *.
    assert (HLpos : 0 < L) by (apply lcm_list_pos; assumption).
    rewrite Z.lcm_assoc in Hlt |- *.
    assert (Hw1 : Z.lcm w nr < 2 ^ 32).
    { pose proof (lcm_pos w nr Hw Hc).
      pose proof (lcm_pos (Z.lcm w nr) L ltac:(lia) HLpos).
      pose proof (divide_le_pos (Z.lcm w nr) (Z.lcm (Z.lcm w nr) L) ltac:(lia)
                    (Z.divide_lcm_l _ _)). lia. }
    rewrite LCM_lcm in HL by assumption. inversion HL; subst w1.
    eapply IH; try eassumption. apply lcm_pos; assumption.
Qed.

Lemma sum_list_nonneg l : Forall (fun c => 0 <= c) l -> 0 <= sum_list l.
Proof. induction 1; simpl; lia. Qed.

(** The first loop adds the counts to [g_nProcessors] as long as the sum
    fits in a DWORD. *)
Lemma record_groups_sum infos : forall n w arr n' w',
  record_groups infos n w = Ok (arr, n', w') ->
  0 <= n ->
  n + sum_list (map nr_active arr) < 2 ^ 32 ->
  n' = n + sum_list (map nr_active arr).
Proof.
  induction infos as [|gi rest IH]; simpl; intros n w arr n' w' H Hn Hlt.
  - inversion H; subst. simpl. lia.
  - pose proof H as HW. change (bind _ _) with
      (record_groups (gi :: rest) n w) in HW. apply record_groups_WORD in HW.
    bind_inv H as w1 HL.
    bind_inv H as [[arr0 n0] w0] Hrec.
    inversion H; subst. clear H. simpl in *.
    inversion HW as [|g gs Hg Hgs]; subst. simpl in Hg.
    assert (0 <= sum_list (map nr_active arr0)).
    { apply sum_list_nonneg. apply Forall_map.
      eapply Forall_impl; [|exact Hgs]. simpl. intros; lia. }
    erewrite (IH _ _ _ _ _ Hrec).
    + rewrite to_DWORD_small by lia. lia.
    + apply wrap_range. unfold DWORD_BITS. lia.
    + rewrite to_DWORD_small by lia. lia.
Qed.

(** The second loop divides by every count, so no count is 0 when it
    ends, and it writes the quotient. *)
Lemma assign_weights_spec w arr : forall arr',
  assign_weights w arr = Ok arr' ->
  Forall (fun g => nr_active g <> 0) arr
  /\ arr' = map (fun g => mkGroup (nr_active g) (begin_ g) (end_ g)
                            (active_mask g) (w / nr_active g) 0) arr.
Proof.
  induction arr as [|g rest IH]; simpl; intros arr' H.
  - inversion H. split; [constructor | reflexivity].
  - bind_inv H as q Hq.
    bind_inv H as rest' Hrest.
    inversion H; subst. clear H.
    unfold udiv in Hq. destruct (Z.eqb_spec (nr_active g) 0) as [E|E];
      [discriminate|]. inversion Hq; subst q.
    destruct (IH _ Hrest) as (Hnz & ->).
    split; [constructor; assumption | reflexivity].
Qed.

Lemma assign_ranges_nr_active arr : forall s n,
  map nr_active (assign_ranges arr s n) = map nr_active arr.
Proof.
  induction arr as [|g rest IH]; simpl; intros s n; [reflexivity|].
  f_equal. apply IH.
Qed.

Lemma assign_ranges_groupWeight arr : forall s n,
  map groupWeight (assign_ranges arr s n) = map groupWeight arr.
Proof.
  induction arr as [|g rest IH]; simpl; intros s n; [reflexivity|].
  f_equal. apply IH.
Qed.

Lemma elements_length {A} (a : list A) n l :
  elements a n = Ok l -> 0 <= n -> Z.of_nat (length l) = n /\ l = firstn (Z.to_nat n) a.
Proof.
  unfold elements. destruct (Z.ltb_spec (Z.of_nat (length a)) n); [discriminate|].
  intros E Hn. inversion E; subst. split; [|reflexivity].
  rewrite length_firstn. lia.
Qed.

(** What a run of [InitCPUGroupInfo] that enables the groups has done. *)
Lemma InitCPUGroupInfo_enabled b os st0 st :
  InitCPUGroupInfo b os st0 = Ok st ->
  g_fEnableGCCPUGroups st = true ->
  exists infos arr1 arr2 w,
    record_groups infos (g_nProcessors st0) 1 = Ok (arr1, g_nProcessors st, w)
    /\ assign_weights w arr1 = Ok arr2
    /\ g_CPUGroupInfoArray st = assign_ranges arr2 0 0
    /\ g_nGroups st = Z.of_nat (length arr2)
    /\ 1 < g_nGroups st < 65536
    /\ TARGET_64 b = true.
Proof.
  unfold InitCPUGroupInfo. intros H Hen.
  assert (Hd : forall s, g_fEnableGCCPUGroups s = false ->
                         g_fEnableGCCPUGroups (detect_single_processor os s) = false).
  { intros s Hs. unfold detect_single_processor.
    destruct (GetProcessAffinityMask os) as [[p m]|]; [|exact Hs].
    destruct (_ && _); exact Hs. }
  destruct (TARGET_64 b) eqn:Ht.
  2:{ inversion H; subst. rewrite Hd in Hen; [discriminate | reflexivity]. }
  destruct (GetGCCpuGroup os); simpl in H.
  2:{ inversion H; subst. discriminate. }
  bind_inv H as [ok st1] HA.
  destruct ok; simpl in H.
  2:{ inversion H; subst. revert HA. unfold InitCPUGroupInfoArray. rewrite Ht.
      destruct (_ && _); [intros E; inversion E; subst; discriminate|].
      intros E. bind_inv E as _ _.
      destruct (alloc_bBuffer os); simpl in E;
        [|inversion E; subst; discriminate].
      destruct (filling os) as [records|]; [|inversion E; subst; discriminate].
      destruct (alloc_CPUGroupInfoArray os); simpl in E.
      - bind_inv E as ? _.
        bind_inv E as [[? ?] ?] _.
        bind_inv E as ? _. discriminate.
      - inversion E; subst.
        destruct (find _ records); discriminate. }
  bind_inv H as [ok st2] HR.
  unfold InitCPUGroupInfoRange in HR. rewrite Ht in HR.
  destruct (Z.leb_spec (2 ^ WORD_BITS) (g_nGroups st1)) as [|Hlt]; [discriminate|].
  bind_inv HR as arr Harr.
  inversion HR; subst ok st2. clear HR. simpl in H.
  inversion H; subst st. clear H.
  assert (Hgt : 1 < g_nGroups st1).
  { destruct (Z.ltb_spec 1 (g_nGroups st1)) as [|Hle]; [assumption|].
    exfalso. revert Hen. unfold detect_single_processor.
    destruct (GetProcessAffinityMask os) as [[p m]|]; simpl.
    - destruct (_ && _); simpl;
        destruct (Z.ltb_spec 1 (g_nGroups st1)); try lia; discriminate.
    - destruct (Z.ltb_spec 1 (g_nGroups st1)); try lia; discriminate. }
  revert HA. unfold InitCPUGroupInfoArray. rewrite Ht.
  destruct (_ && _); [intros E; inversion E|].
  intros E. bind_inv E as _ _.
  destruct (alloc_bBuffer os); simpl in E; [|inversion E].
  destruct (filling os) as [records|]; [|inversion E].
  destruct (alloc_CPUGroupInfoArray os); simpl in E; [|inversion E].
  bind_inv E as infos Hinf.
  bind_inv E as [[arr1 n1] w] Hrec.
  bind_inv E as arr2 Hw.
  inversion E; subst st1. clear E. simpl in *.
  pose proof (assign_weights_spec _ _ _ Hw) as (_ & Harr2).
  assert (Hlen : Z.of_nat (length arr2) =
                 g_nGroups match find (fun r => is_RelationGroup (Relationship r)) records with
                           | Some r => set_nGroups (set_fEnableGCCPUGroups st0 false) (ActiveGroupCount r)
                           | None => set_fEnableGCCPUGroups st0 false
                           end).
  { apply elements_length in Hinf; [|lia]. destruct Hinf as (Hl & _).
    rewrite <- Hl. rewrite Harr2, length_map.
    apply record_groups_counts in Hrec.
    apply (f_equal (@length Z)) in Hrec. rewrite !length_map in Hrec. lia. }
  exists infos, arr1, arr2, w.
  assert (Harr' : arr = arr2).
  { apply elements_length in Harr; [|lia]. destruct Harr as (_ & ->).
    rewrite <- Hlen, Nat2Z.id. apply firstn_all. }
  assert (Hproc : forall s, g_nProcessors (detect_single_processor os s) = g_nProcessors s).
  { intros s. unfold detect_single_processor.
    destruct (GetProcessAffinityMask os) as [[p m]|]; [|reflexivity].
    destruct (_ && _); reflexivity. }
  assert (Hgrp : forall s, g_nGroups (detect_single_processor os s) = g_nGroups s).
  { intros s. unfold detect_single_processor.
    destruct (GetProcessAffinityMask os) as [[p m]|]; [|reflexivity].
    destruct (_ && _); reflexivity. }
  assert (Har : forall s, g_CPUGroupInfoArray (detect_single_processor os s)
                          = g_CPUGroupInfoArray s).
  { intros s. unfold detect_single_processor.
    destruct (GetProcessAffinityMask os) as [[p m]|]; [|reflexivity].
    destruct (_ && _); reflexivity. }
  rewrite Hproc, Hgrp, Har. simpl.
  split.
  { rewrite <- Hrec. f_equal. destruct (find _ records); reflexivity. }
  split; [exact Hw|].
  split.
  { subst arr. rewrite <- Hlen, Nat2Z.id, skipn_all, app_nil_r. reflexivity. }
  split; [symmetry; exact Hlen|].
  split; [unfold WORD_BITS in Hlt; simpl in Hlt; lia | reflexivity].
Qed.

End TopologyFacts.

Section TopologyClaims.
Import Topology.

Lemma assign_ranges_Forall (Q : Z -> Z -> Prop) arr : forall s n,
  Forall (fun g => Q (nr_active g) (groupWeight g)) arr ->
  Forall (fun g => Q (nr_active g) (groupWeight g)) (assign_ranges arr s n).
Proof.
  induction arr as [|g rest IH]; simpl; intros s n H; [constructor|].
  inversion H; subst. constructor; [assumption | apply IH; assumption].
Qed.

Lemma Initialize_Ok b os st0 st :
  Initialize b os st0 = Ok (true, st) ->
  exists st1,
    g_nProcessors st1 = g_nProcessors st0
    /\ InitCPUGroupInfo b os st1 = Ok st.
Proof.
  unfold Initialize. intros H.
  bind_inv H as _ _.
  bind_inv H as st' HI.
  inversion H; subst st'. clear H.
  eexists. split; [|exact HI].
  unfold InitNumaNodeInfo.
  destruct (GetGCNumaAware os); simpl; [|reflexivity].
  destruct (GetNumaHighestNodeNumber os) as [h|]; [|reflexivity].
  destruct (h =? 0); reflexivity.
Qed.

(** The counts of an enabled topology are positive WORDs. *)
Lemma enabled_counts_positive infos n arr1 n' w arr2 :
  record_groups infos n 1 = Ok (arr1, n', w) ->
  assign_weights w arr1 = Ok arr2 ->
  map nr_active arr2 = map nr_active arr1
  /\ Forall (fun c => 0 < c < 65536) (map nr_active arr1).
Proof.
  intros Hrec Hw.
  destruct (assign_weights_spec _ _ _ Hw) as (Hnz & ->).
  split.
  - rewrite map_map. reflexivity.
  - apply record_groups_WORD in Hrec. apply Forall_map.
    rewrite Forall_forall in *. intros g Hg.
    specialize (Hnz g Hg). specialize (Hrec g Hg). simpl in *. lia.
Qed.

(** C1 (amended).  When [Initialize] succeeds with the processor groups
    enabled and the least common multiple of the groups' numbers of active
    processors is below [2^32], every group's [groupWeight] times its
    [nr_active] is exactly that least common multiple. *)
Theorem weights_balance_when_lcm_fits b os st0 st :
  Initialize b os st0 = Ok (true, st) ->
  CanEnableGCCPUGroups st = true ->
  lcm_list (map nr_active (g_CPUGroupInfoArray st)) < 2 ^ 32 ->
  weights_balance st.
Proof.
  intros HI Hen Hfit.
  apply Initialize_Ok in HI. destruct HI as (st1 & _ & HI).
  destruct (InitCPUGroupInfo_enabled _ _ _ _ HI Hen)
    as (infos & arr1 & arr2 & w & Hrec & Hw & Harr & _).
  destruct (enabled_counts_positive _ _ _ _ _ _ Hrec Hw) as (Hmap & Hpos).
  unfold weights_balance. rewrite Harr in *.
  rewrite assign_ranges_nr_active in *. rewrite Hmap in *.
  set (L := lcm_list (map nr_active arr1)) in *.
  assert (HL : 0 < L).
  { apply lcm_list_pos. eapply Forall_impl; [|exact Hpos]. simpl; intros; lia. }
  assert (Hweq : w = L).
  { erewrite (record_groups_weight _ _ _ _ _ _ Hrec); fold L.
    - apply Z.lcm_1_l_nonneg; lia.
    - lia.
    - eapply Forall_impl; [|exact Hpos]. simpl; intros; lia.
    - rewrite Z.lcm_1_l_nonneg; lia. }
  apply (assign_ranges_Forall (fun n q => q * n = L)).
  destruct (assign_weights_spec _ _ _ Hw) as (_ & ->).
  apply Forall_map. simpl. apply Forall_forall. intros g Hg.
  assert (Hc : 0 < nr_active g).
  { rewrite Forall_forall in Hpos.
    specialize (Hpos (nr_active g) (in_map nr_active _ _ Hg)). lia. }
  assert (Hd : (nr_active g | L)).
  { apply lcm_list_divide. apply in_map. exact Hg. }
  rewrite Hweq. destruct Hd as (k & Hk). rewrite Hk.
  rewrite Z.div_mul by lia. reflexivity.
Qed.

Lemma weights_balance_when_lcm_fits_witness : weights_balance state_4_6.
Proof.
  apply (weights_balance_when_lcm_fits amd64 (machine_with_groups [4; 6])
           initial state_4_6).
  - reflexivity.
  - reflexivity.
  - vm_compute. reflexivity.
Defined.

(** C1 as stated fails on six groups of 64, 63, 61, 59, 53 and 47
    processors: discovery succeeds with the groups enabled, the DWORD
    product wraps, and the first group's weight times its count is not the
    least common multiple. *)
Lemma weights_balance_counterexample :
  Initialize amd64 (machine_with_groups [64; 63; 61; 59; 53; 47]) initial
    = Ok (true, state_six_groups)
  /\ CanEnableGCCPUGroups state_six_groups = true
  /\ ~ weights_balance state_six_groups.
Proof.
  split; [vm_compute; reflexivity|].
  split; [reflexivity|].
  intros H. unfold weights_balance in H. inversion H as [|g l Hg _]; subst.
  vm_compute in Hg. discriminate.
Qed.

End TopologyClaims.

Section RangeClaims.
Import Topology.

Lemma assign_ranges_tiles arr : forall s,
  Forall (fun c => 0 < c) (map nr_active arr) ->
  0 <= s ->
  s + sum_list (map nr_active arr) < 65536 ->
  tiles (assign_ranges arr s s) s (s + sum_list (map nr_active arr)).
Proof.
  induction arr as [|g rest IH]; simpl; intros s Hpos Hs Hlt; [lia|].
  inversion Hpos as [|c cs Hc Hcs]; subst.
  assert (0 <= sum_list (map nr_active rest)).
  { apply sum_list_nonneg. eapply Forall_impl; [|exact Hcs]. simpl; intros; lia. }
  rewrite !(to_WORD_small (s + nr_active g)) by lia.
  rewrite (to_WORD_small (s + nr_active g - 1)) by lia.
  split; [reflexivity|]. split; [lia|].
  replace (s + nr_active g - 1 + 1) with (s + nr_active g) by lia.
  replace (s + (nr_active g + sum_list (map nr_active rest)))
    with (s + nr_active g + sum_list (map nr_active rest)) by lia.
  apply IH; [assumption | lia | lia].
Qed.

Lemma scan_assign_ranges arr : forall s k0 i,
  Forall (fun c => 0 < c) (map nr_active arr) ->
  0 <= s <= i ->
  i < s + sum_list (map nr_active arr) ->
  s + sum_list (map nr_active arr) < 65536 ->
  exists k g,
    scan_groups (assign_ranges arr s s) k0 s (to_WORD (i - s)) i
      = Some (k0 + Z.of_nat k, i - begin_ g)
    /\ nth_error (assign_ranges arr s s) k = Some g
    /\ in_range g i.
Proof.
  induction arr as [|g rest IH]; simpl; intros s k0 i Hpos Hs Hi Hlt; [lia|].
  inversion Hpos as [|c cs Hc Hcs]; subst.
  assert (0 <= sum_list (map nr_active rest)).
  { apply sum_list_nonneg. eapply Forall_impl; [|exact Hcs]. simpl; intros; lia. }
  rewrite !(to_WORD_small (s + nr_active g)) by lia.
  rewrite (to_WORD_small (s + nr_active g - 1)) by lia.
  destruct (Z.ltb_spec i (s + nr_active g)) as [Hin|Hout].
  - exists 0%nat. eexists. split; [|split; [reflexivity|]].
    + simpl. rewrite to_WORD_small by lia. f_equal. f_equal. lia.
    + unfold in_range. simpl. lia.
  - destruct (IH (s + nr_active g) (k0 + 1) i Hcs ltac:(lia) ltac:(lia) ltac:(lia))
      as (k & g' & Hscan & Hnth & Hr).
    exists (S k), g'. split; [|split; assumption].
    rewrite Hscan. f_equal. f_equal. lia.
Qed.

Lemma tiles_nth_bounds arr : forall s stop k g,
  tiles arr s stop -> nth_error arr k = Some g ->
  s <= begin_ g /\ begin_ g <= end_ g /\ end_ g < stop.
Proof.
  induction arr as [|h rest IH]; simpl; intros s stop k g Ht Hn.
  - destruct k; discriminate.
  - destruct Ht as (Hb & Hle & Ht).
    assert (Hstop : end_ h + 1 <= stop).
    { clear - Ht. revert Ht. generalize (end_ h + 1). induction rest as [|r rs IHr];
        simpl; intros z Hz; [lia|].
      destruct Hz as (? & ? & Hz). apply IHr in Hz. lia. }
    destruct k as [|k]; simpl in Hn.
    + inversion Hn; subst. lia.
    + destruct (IH _ _ _ _ Ht Hn) as (? & ? & ?). lia.
Qed.

Lemma tiles_unique arr : forall s stop k k' g g' i,
  tiles arr s stop ->
  nth_error arr k = Some g -> nth_error arr k' = Some g' ->
  in_range g i -> in_range g' i -> k = k'.
Proof.
  unfold in_range.
  induction arr as [|h rest IH]; simpl; intros s stop k k' g g' i Ht Hk Hk' Hg Hg'.
  - destruct k; discriminate.
  - destruct Ht as (Hb & Hle & Ht).
    destruct k as [|k], k' as [|k']; simpl in *.
    + reflexivity.
    + inversion Hk; subst.
      destruct (tiles_nth_bounds _ _ _ _ _ Ht Hk') as (? & ? & ?). lia.
    + inversion Hk'; subst.
      destruct (tiles_nth_bounds _ _ _ _ _ Ht Hk) as (? & ? & ?). lia.
    + f_equal. eapply IH; eassumption.
Qed.

Lemma assign_ranges_nr_active_length arr s n :
  length (assign_ranges arr s n) = length arr.
Proof.
  rewrite <- (length_map nr_active), assign_ranges_nr_active, length_map.
  reflexivity.
Qed.

Lemma sum_list_bound l :
  Forall (fun c => 0 < c < 65536) l ->
  sum_list l <= 65535 * Z.of_nat (length l).
Proof. induction 1; simpl length; simpl sum_list; lia. Qed.

(** C4 (amended).  After an [Initialize] from the start-up state that
    enables the processor groups, in a build without FEATURE_REDHAWK and
    with a total processor count below 65536: the numbers of active
    processors add up to the total processor count; the ranges
    [begin .. end], laid out by prefix sums in declaration order, tile
    [0 .. total - 1] without gap or overlap; and for every processor index
    [i] below the total, [GetGroupForProcessor i] returns the one group
    whose range contains [i] and the index [i - begin] inside it. *)
Theorem ranges_partition_when_count_fits b os st :
  FEATURE_REDHAWK b = false ->
  Initialize b os initial = Ok (true, st) ->
  CanEnableGCCPUGroups st = true ->
  GetTotalProcessorCount st < 65536 ->
  let arr := g_CPUGroupInfoArray st in
  let total := GetTotalProcessorCount st in
  sum_list (map nr_active arr) = total
  /\ ranges_partition st
  /\ forall i, 0 <= i < total ->
       exists k g,
         GetGroupForProcessor b st i = Ok (Some (Z.of_nat k, i - begin_ g))
         /\ nth_error arr k = Some g
         /\ in_range g i
         /\ forall k' g', nth_error arr k' = Some g' -> in_range g' i -> k' = k.
Proof.
  intros Hrh HI Hen Hfit. simpl.
  apply Initialize_Ok in HI. destruct HI as (st1 & Hn0 & HI).
  destruct (InitCPUGroupInfo_enabled _ _ _ _ HI Hen)
    as (infos & arr1 & arr2 & w & Hrec & Hw & Harr & Hng & Hrange & Ht).
  destruct (enabled_counts_positive _ _ _ _ _ _ Hrec Hw) as (Hmap & Hpos).
  unfold ranges_partition, GetTotalProcessorCount in *.
  unfold CanEnableGCCPUGroups in *. rewrite Hen in *.
  rewrite Hn0 in Hrec. simpl in Hrec.
  assert (Hlen : length arr1 = length arr2).
  { apply (f_equal (@length Z)) in Hmap. rewrite !length_map in Hmap. lia. }
  assert (Hsum : g_nProcessors st = sum_list (map nr_active arr1)).
  { rewrite (record_groups_sum _ _ _ _ _ _ Hrec); [lia | lia |].
    pose proof (sum_list_bound _ Hpos) as Hb. rewrite length_map in Hb. nia. }
  assert (Hpos' : Forall (fun c => 0 < c) (map nr_active arr2)).
  { rewrite Hmap. eapply Forall_impl; [|exact Hpos]. simpl; intros; lia. }
  assert (Htiles : tiles (g_CPUGroupInfoArray st) 0 (g_nProcessors st)).
  { rewrite Harr, Hsum, <- Hmap.
    apply (assign_ranges_tiles arr2 0); [assumption | lia |].
    rewrite Hmap, <- Hsum. simpl. lia. }
  split; [|split].
  - rewrite Harr, assign_ranges_nr_active, Hmap. symmetry. exact Hsum.
  - exact Htiles.
  - intros i Hi.
    destruct (scan_assign_ranges arr2 0 0 i Hpos' ltac:(lia)) as (k & g & Hs & Hnth & Hr).
    { rewrite Hmap, <- Hsum. simpl. lia. }
    { rewrite Hmap, <- Hsum. simpl. lia. }
    exists k, g. rewrite Harr.
    split; [|split; [exact Hnth | split; [exact Hr|]]].
    + unfold GetGroupForProcessor. rewrite Hen, Hrh, Ht. simpl.
      rewrite Harr. unfold WORD_BITS.
      rewrite Z.min_l by (simpl; lia).
      rewrite Hng, Nat2Z.id.
      rewrite <- (assign_ranges_nr_active_length arr2 0 0) at 1.
      rewrite firstn_all. simpl in Hs |- *.
      rewrite Hs. reflexivity.
    + intros k' g' Hk' Hr'. rewrite <- Harr in *.
      eapply tiles_unique; eassumption.
Qed.

Lemma ranges_partition_when_count_fits_witness : ranges_partition state_4_6.
Proof.
  apply (ranges_partition_when_count_fits amd64 (machine_with_groups [4; 6])
           state_4_6).
  - reflexivity.
  - reflexivity.
  - reflexivity.
  - reflexivity.
Defined.

(** C4 as stated fails on 1025 groups of 64 processors: discovery succeeds
    with the groups enabled and 65600 processors, the 16-bit prefix sums
    wrap, and the ranges of the first and the last group both are
    [0 .. 63].  It also fails in a build with FEATURE_REDHAWK: on groups
    of 4 and 6 processors index 5 lies in the second group and
    [GetGroupForProcessor] answers group 0, processor 0. *)
Lemma ranges_partition_counterexample :
  (Initialize amd64 (machine_with_groups (repeat 64 1025)) initial
     = Ok (true, state_1025_groups)
   /\ CanEnableGCCPUGroups state_1025_groups = true
   /\ GetTotalProcessorCount state_1025_groups = 65600
   /\ ~ ranges_partition state_1025_groups)
  /\ (Initialize amd64_redhawk (machine_with_groups [4; 6]) initial
        = Ok (true, state_4_6)
      /\ CanEnableGCCPUGroups state_4_6 = true
      /\ GetGroupForProcessor amd64_redhawk state_4_6 5 = Ok (Some (0, 0))
      /\ GetGroupForProcessor amd64 state_4_6 5 = Ok (Some (1, 1))).
Proof.
  split.
  - split; [vm_compute; reflexivity|].
    split; [reflexivity|]. split; [reflexivity|].
    unfold ranges_partition. intros H.
    assert (E : 0%nat = 1024%nat).
    { eapply (tiles_unique _ _ _ 0%nat 1024%nat _ _ 0 H).
      - reflexivity.
      - vm_compute. reflexivity.
      - vm_compute. split; discriminate.
      - vm_compute. split; discriminate. }
    discriminate E.
  - repeat split; vm_compute; reflexivity.
Qed.

End RangeClaims.

Section DiscoveryFailures.
Import Topology.

Lemma detect_single_processor_groups os st :
  g_fEnableGCCPUGroups (detect_single_processor os st) = g_fEnableGCCPUGroups st
  /\ g_SystemInfo (detect_single_processor os st) = g_SystemInfo st
  /\ g_nGroups (detect_single_processor os st) = g_nGroups st.
Proof.
  unfold detect_single_processor.
  destruct (GetProcessAffinityMask os) as [[p m]|]; [|auto].
  destruct (_ && _); auto.
Qed.

Lemma InitCPUGroupInfoArray_SystemInfo b os st ok st' :
  InitCPUGroupInfoArray b os st = Ok (ok, st') ->
  g_SystemInfo st' = g_SystemInfo st
  /\ g_fEnableGCCPUGroups st' = g_fEnableGCCPUGroups st.
Proof.
  unfold InitCPUGroupInfoArray.
  destruct (TARGET_64 b); [|intros E; inversion E; auto].
  destruct (_ && _); [intros E; inversion E; auto|].
  intros E. bind_inv E as _ _.
  destruct (alloc_bBuffer os); simpl in E; [|inversion E; auto].
  destruct (filling os) as [records|]; [|inversion E; auto].
  destruct (alloc_CPUGroupInfoArray os); simpl in E.
  - bind_inv E as ? _.
    bind_inv E as [[? ?] ?] _.
    bind_inv E as ? _.
    inversion E; subst. simpl. destruct (find _ records); auto.
  - inversion E; subst. simpl. destruct (find _ records); auto.
Qed.

Lemma InitCPUGroupInfo_SystemInfo b os st st' :
  InitCPUGroupInfo b os st = Ok st' -> g_SystemInfo st' = g_SystemInfo st.
Proof.
  unfold InitCPUGroupInfo. intros H.
  destruct (TARGET_64 b) eqn:Ht.
  2:{ inversion H.
      destruct (detect_single_processor_groups os (set_fEnableGCCPUGroups st false))
        as (_ & -> & _). reflexivity. }
  destruct (GetGCCpuGroup os); simpl in H; [|inversion H; reflexivity].
  bind_inv H as [ok st1] HA.
  apply InitCPUGroupInfoArray_SystemInfo in HA. destruct HA as (HA & _).
  destruct ok; simpl in H; [|inversion H; subst; exact HA].
  bind_inv H as [ok st2] HR.
  unfold InitCPUGroupInfoRange in HR. rewrite Ht in HR.
  destruct (_ <=? _); [discriminate|].
  bind_inv HR as arr _. inversion HR; subst.
  simpl in H. inversion H; subst.
  destruct (detect_single_processor_groups os
              (set_fEnableGCCPUGroups
                 (set_CPUGroupInfoArray st1
                    (assign_ranges arr 0 0
                     ++ skipn (Z.to_nat (g_nGroups st1)) (g_CPUGroupInfoArray st1)))
                 (1 <? g_nGroups st1))) as (_ & -> & _).
  exact HA.
Qed.

(** What holds of every [Initialize] that returns: it returns [true]; a
    topology of no more than one group leaves the groups disabled; and
    with the groups disabled the processor count is the one
    [GetSystemInfo] gave. *)
Lemma Initialize_degrades b os st0 ok st :
  Initialize b os st0 = Ok (ok, st) ->
  ok = true
  /\ (g_nGroups st <= 1 -> CanEnableGCCPUGroups st = false)
  /\ (CanEnableGCCPUGroups st = false ->
        GetTotalProcessorCount st = dwNumberOfProcessors os).
Proof.
  unfold Initialize. intros H.
  bind_inv H as _ _.
  bind_inv H as st' HI.
  inversion H; subst ok st'. clear H.
  split; [reflexivity|]. split.
  - intros Hle. unfold CanEnableGCCPUGroups.
    destruct (g_fEnableGCCPUGroups st) eqn:Hen; [|reflexivity].
    destruct (InitCPUGroupInfo_enabled _ _ _ _ HI Hen)
      as (_ & _ & _ & _ & _ & _ & _ & _ & Hr & _). lia.
  - intros Hdis. unfold GetTotalProcessorCount. rewrite Hdis.
    apply InitCPUGroupInfo_SystemInfo in HI. rewrite HI.
    unfold InitNumaNodeInfo.
    destruct (GetGCNumaAware os); simpl; [|reflexivity].
    destruct (GetNumaHighestNodeNumber os) as [h|]; [|reflexivity].
    destruct (h =? 0); reflexivity.
Qed.

(** A discovery that reports failure leaves the groups disabled. *)
Lemma InitCPUGroupInfo_discovery_reports_failure b os st st' :
  TARGET_64 b = true ->
  GetGCCpuGroup os = true ->
  InitCPUGroupInfoArray b os (set_fEnableGCCPUGroups st false) = Ok (false, st') ->
  InitCPUGroupInfo b os st = Ok st' /\ CanEnableGCCPUGroups st' = false.
Proof.
  intros Ht Hc HA. unfold InitCPUGroupInfo. rewrite Ht, Hc, HA. simpl.
  split; [reflexivity|].
  apply InitCPUGroupInfoArray_SystemInfo in HA. destruct HA as (_ & HA).
  unfold CanEnableGCCPUGroups. rewrite HA. reflexivity.
Qed.

(** C7, the failing input.  When the sizing call of the group discovery
    fails with an error other than ERROR_INSUFFICIENT_BUFFER and stores no
    size, the test of line 103 lets the failure pass and [assert(cbSLPIEx)]
    ends [Initialize]: the discovery failure does not degrade to disabled
    groups. *)
Theorem Initialize_aborts_on_sizing_failure :
  Initialize amd64 machine_sizing_call_fails initial = Fault AssertionFailed.
Proof. reflexivity. Qed.

End DiscoveryFailures.

(** ** The restricted physical memory limit *)

Section MemoryBudgetFacts.
Import MemoryBudget.

Lemma to_size_t_small b x : 0 <= x <= UINTPTR_MAX b -> to_size_t b x = x.
Proof.
  intros H. unfold to_size_t. apply wrap_small. unfold UINTPTR_MAX in H. lia.
Qed.

Lemma UINTPTR_MAX_ge b : 2 ^ 32 - 1 <= UINTPTR_MAX b.
Proof. unfold UINTPTR_MAX, PTR_BITS. destruct (BIT64 b); simpl; lia. Qed.

(** The code's smallest limit is the minimum of the quotas that are set. *)
Lemma smallest_is_minimum b info m :
  minimum (quotas_set info) = Some m ->
  Forall (fun q => 0 <= q <= UINTPTR_MAX b) (quotas_set info) ->
  smallest_job_limit b info = m /\ 0 <= m <= UINTPTR_MAX b.
Proof.
  unfold quotas_set, smallest_job_limit.
  destruct (has_flag _ JOB_OBJECT_LIMIT_JOB_MEMORY),
           (has_flag _ JOB_OBJECT_LIMIT_PROCESS_MEMORY),
           (has_flag _ JOB_OBJECT_LIMIT_WORKINGSET);
    simpl; intros Hm Hr; inversion Hm; subst; clear Hm;
    repeat match goal with
           | H : Forall _ (_ :: _) |- _ => inversion H; subst; clear H
           end; lia.
Qed.

(** With no quota set the code's smallest limit is the sentinel. *)
Lemma smallest_without_quota b info :
  quotas_set info = [] -> smallest_job_limit b info = UINTPTR_MAX b.
Proof.
  unfold quotas_set, smallest_job_limit.
  destruct (has_flag _ JOB_OBJECT_LIMIT_JOB_MEMORY),
           (has_flag _ JOB_OBJECT_LIMIT_PROCESS_MEMORY),
           (has_flag _ JOB_OBJECT_LIMIT_WORKINGSET);
    simpl; intros E; try discriminate E. lia.
Qed.

(** Inside a readable job the code reaches [exit] with the smallest limit
    clamped to the total physical memory. *)
Lemma before_exit_in_job b info ms st :
  exists st1,
    before_exit b (job_machine info ms) st
    = Ok (mkLocals (to_size_t b (Z.min (smallest_job_limit b info) (ullTotalPhys ms)))
            (ullTotalVirtual ms) (ullAvailPhys ms) true, st1)
    /\ g_RestrictedPhysicalMemoryLimit st1 = g_RestrictedPhysicalMemoryLimit st
    /\ g_UseRestrictedVirtualMemory st1 = g_UseRestrictedVirtualMemory st.
Proof. eexists. split; [reflexivity|]. split; reflexivity. Qed.

(** A limit that is neither 0 nor the sentinel and that the virtual
    address space can hold is published as it is. *)
Lemma after_exit_keeps_limit b os limit tv tp st :
  0 < limit < UINTPTR_MAX b ->
  limit <= tv ->
  exists st',
    after_exit b os (mkLocals limit tv tp true) st = Ok (limit, st')
    /\ g_RestrictedPhysicalMemoryLimit st' = limit
    /\ g_UseRestrictedVirtualMemory st' = g_UseRestrictedVirtualMemory st.
Proof.
  intros Hl Hv. unfold after_exit. simpl.
  destruct (Z.eqb_spec limit (UINTPTR_MAX b)) as [E|_]; [lia|].
  simpl. destruct (Z.eqb_spec tv 0) as [E|_]; [lia|]. simpl.
  destruct (Z.eqb_spec limit 0) as [E|_]; [lia|]. simpl.
  destruct (Z.ltb_spec tv limit) as [E|_]; [lia|]. simpl.
  eexists. split; [reflexivity|]. split; reflexivity.
Qed.

(** The published limit of a process in a readable job, when the limit of
    the job is in force and the virtual address space is not smaller. *)
Lemma published_job_limit b info ms st limit :
  g_RestrictedPhysicalMemoryLimit st = UINTPTR_MAX b ->
  to_size_t b (Z.min (smallest_job_limit b info) (ullTotalPhys ms)) = limit ->
  0 < limit < UINTPTR_MAX b ->
  limit <= ullTotalVirtual ms ->
  exists st',
    GetPhysicalMemoryLimit b (job_machine info ms) true st
    = Ok (limit, Some true, st')
    /\ g_RestrictedPhysicalMemoryLimit st' = limit
    /\ g_UseRestrictedVirtualMemory st' = g_UseRestrictedVirtualMemory st.
Proof.
  intros Hs Hl Hr Hv.
  destruct (before_exit_in_job b info ms st) as (st1 & Hb & _ & Hu1).
  rewrite Hl in Hb.
  destruct (after_exit_keeps_limit b (job_machine info ms) limit
              (ullTotalVirtual ms) (ullAvailPhys ms) st1 Hr Hv)
    as (st' & Ha & Hg & Hu).
  exists st'. split; [|split; [exact Hg | congruence]].
  unfold GetPhysicalMemoryLimit, GetRestrictedPhysicalMemoryLimit.
  rewrite Hs, Z.eqb_refl. simpl negb. cbv iota.
  rewrite Hb. simpl bind. rewrite Ha. simpl.
  destruct (Z.eqb_spec limit 0) as [E|_]; [lia|]. reflexivity.
Qed.

(** C2.  For a process in a job whose extended limit information is
    readable, with at least one of the three quotas set: the limit the
    code reaches [exit] with is the minimum of the quotas that are set,
    clamped to the total physical memory; when that limit is in force
    (neither 0 nor the sentinel) and the virtual address space is not
    smaller, [GetPhysicalMemoryLimit] returns it with [*is_restricted]
    true; in particular a job memory limit of 100 MB with the other quotas
    unset and 1 GB of physical memory gives 100 MB and [true]. *)
Theorem job_limit_is_clamped_minimum b info ms m st :
  minimum (quotas_set info) = Some m ->
  Forall (fun q => 0 <= q <= UINTPTR_MAX b) (quotas_set info) ->
  0 <= ullTotalPhys ms ->
  g_RestrictedPhysicalMemoryLimit st = UINTPTR_MAX b ->
  let limit := Z.min m (ullTotalPhys ms) in
  (exists st1,
     before_exit b (job_machine info ms) st
     = Ok (mkLocals limit (ullTotalVirtual ms) (ullAvailPhys ms) true, st1))
  /\ (0 < limit < UINTPTR_MAX b ->
      limit <= ullTotalVirtual ms ->
      exists st',
        GetPhysicalMemoryLimit b (job_machine info ms) true st
        = Ok (limit, Some true, st')
        /\ g_RestrictedPhysicalMemoryLimit st' = limit)
  /\ (quotas_set info = [100 * MB] ->
      ullTotalPhys ms = 1 * GB ->
      100 * MB <= ullTotalVirtual ms ->
      exists st',
        GetPhysicalMemoryLimit b (job_machine info ms) true st
        = Ok (100 * MB, Some true, st')).
Proof.
  intros Hm Hr Hp Hs limit.
  destruct (smallest_is_minimum b info m Hm Hr) as (Hsm & Hmr).
  assert (Hl : to_size_t b (Z.min (smallest_job_limit b info) (ullTotalPhys ms))
               = limit).
  { rewrite Hsm. apply to_size_t_small. subst limit. lia. }
  split; [|split].
  - destruct (before_exit_in_job b info ms st) as (st1 & Hb & _).
    exists st1. rewrite Hl in Hb. exact Hb.
  - intros Hin Hv.
    destruct (published_job_limit b info ms st limit Hs Hl Hin Hv)
      as (st' & H1 & H2 & _).
    exists st'. split; assumption.
  - intros Hq Htp Hv. rewrite Hq in Hm. simpl in Hm. inversion Hm; subst m.
    assert (E : limit = 100 * MB).
    { subst limit. rewrite Htp. unfold GB, MB. lia. }
    rewrite E in Hl.
    destruct (published_job_limit b info ms st (100 * MB) Hs Hl) as (st' & H1 & _).
    + pose proof (UINTPTR_MAX_ge b). unfold MB in *. lia.
    + exact Hv.
    + exists st'. exact H1.
Qed.

Lemma job_limit_is_clamped_minimum_witness :
  exists st',
    GetPhysicalMemoryLimit amd64
      (job_machine job_100MB (memory (1 * GB) (GB / 2) (128 * 1024 * GB)))
      true (initial amd64)
    = Ok (100 * MB, Some true, st').
Proof.
  destruct (job_limit_is_clamped_minimum amd64 job_100MB
              (memory (1 * GB) (GB / 2) (128 * 1024 * GB)) (100 * MB)
              (initial amd64))
    as (_ & _ & H).
  - reflexivity.
  - repeat constructor; vm_compute; discriminate.
  - vm_compute; discriminate.
  - reflexivity.
  - apply H.
    + reflexivity.
    + reflexivity.
    + vm_compute; discriminate.
Defined.

End MemoryBudgetFacts.

Section MemoryBudgetClaims.
Import MemoryBudget.

(** C9 (amended).  For a process in a job whose extended limit information
    is readable and sets none of the three quotas, when the total physical
    memory is not 0, is below [UINTPTR_MAX] and is not above the total
    virtual address space: the first call publishes the total physical
    memory as the restricted limit and [GetPhysicalMemoryLimit] returns it
    with [*is_restricted] true. *)
Theorem unset_quotas_publish_total_physical b info ms st :
  quotas_set info = [] ->
  g_RestrictedPhysicalMemoryLimit st = UINTPTR_MAX b ->
  0 < ullTotalPhys ms < UINTPTR_MAX b ->
  ullTotalPhys ms <= ullTotalVirtual ms ->
  exists st',
    GetPhysicalMemoryLimit b (job_machine info ms) true st
    = Ok (ullTotalPhys ms, Some true, st')
    /\ g_RestrictedPhysicalMemoryLimit st' = ullTotalPhys ms.
Proof.
  intros Hq Hs Hp Hv.
  destruct (published_job_limit b info ms st (ullTotalPhys ms) Hs) as (st' & H1 & H2 & _).
  - rewrite (smallest_without_quota b info Hq).
    rewrite Z.min_r by lia. apply to_size_t_small. lia.
  - exact Hp.
  - exact Hv.
  - exists st'. split; assumption.
Qed.

Lemma unset_quotas_publish_total_physical_witness :
  exists st',
    GetPhysicalMemoryLimit amd64
      (job_machine job_without_quota (memory (8 * GB) (1 * GB) (128 * 1024 * GB)))
      true (initial amd64)
    = Ok (8 * GB, Some true, st')
    /\ g_RestrictedPhysicalMemoryLimit st' = 8 * GB.
Proof.
  apply (unset_quotas_publish_total_physical amd64 job_without_quota
           (memory (8 * GB) (1 * GB) (128 * 1024 * GB)) (initial amd64)).
  - reflexivity.
  - reflexivity.
  - vm_compute. split; reflexivity.
  - vm_compute. discriminate.
Defined.

(** C9 as stated fails in a 32-bit process on a machine with 8 GB: the
    clamp leaves the sentinel, the code takes it for "no limit", publishes
    0 and [GetPhysicalMemoryLimit] leaves [*is_restricted] false. *)
Lemma unset_quotas_counterexample :
  quotas_set job_without_quota = []
  /\ exists st',
       GetPhysicalMemoryLimit x86 (job_machine job_without_quota memory_8GB_32bit)
         true (initial x86)
       = Ok (8 * GB, Some false, st')
       /\ g_RestrictedPhysicalMemoryLimit st' = 0.
Proof.
  split; [reflexivity|]. eexists. split; [vm_compute; reflexivity | reflexivity].
Qed.

(** C3 holds where the process is in no job: a virtual address space
    smaller than the physical memory becomes the published limit and sets
    the flag. *)
Lemma virtual_limit_without_job b ms st :
  g_RestrictedPhysicalMemoryLimit st = UINTPTR_MAX b ->
  0 < ullTotalVirtual ms < ullTotalPhys ms ->
  ullTotalVirtual ms <= UINTPTR_MAX b ->
  exists st',
    GetPhysicalMemoryLimit b (machine_without_job ms) true st
    = Ok (ullTotalVirtual ms, Some true, st')
    /\ g_RestrictedPhysicalMemoryLimit st' = ullTotalVirtual ms
    /\ g_UseRestrictedVirtualMemory st' = true.
Proof.
  intros Hs Hv Hr.
  unfold GetPhysicalMemoryLimit, GetRestrictedPhysicalMemoryLimit.
  rewrite Hs, Z.eqb_refl. simpl negb. cbv iota.
  unfold before_exit, after_exit, GetProcessMemoryLoad. simpl.
  rewrite Z.eqb_refl. simpl.
  destruct (Z.ltb_spec (ullTotalVirtual ms) (ullTotalPhys ms)) as [_|E]; [|lia].
  simpl. rewrite to_size_t_small by lia.
  destruct (Z.eqb_spec (ullTotalVirtual ms) 0) as [E|_]; [lia|]. simpl.
  eexists. split; [reflexivity|]. split; reflexivity.
Qed.

(** C3, the failing input.  A 32-bit process in a job without memory
    quota, on a machine with 8 GB of physical memory (1 GB of it
    available) and 2 GB of virtual address space: no job limit is in
    force and the virtual address space is smaller than the physical
    memory, yet the code compares it with the available physical memory
    of line 295, publishes 0 and leaves the flag unset.  The same machine
    outside a job publishes 2 GB and sets the flag. *)
Theorem virtual_limit_missed_in_job :
  (exists st',
     GetRestrictedPhysicalMemoryLimit x86
       (job_machine job_without_quota memory_8GB_32bit) (initial x86)
     = Ok (0, st')
     /\ g_UseRestrictedVirtualMemory st' = false)
  /\ (exists st',
        GetRestrictedPhysicalMemoryLimit x86
          (machine_without_job memory_8GB_32bit) (initial x86)
        = Ok (2 * GB, st')
        /\ g_UseRestrictedVirtualMemory st' = true).
Proof.
  split; eexists; (split; [vm_compute; reflexivity | reflexivity]).
Qed.

Lemma publications_emit st e :
  match e with Publish _ => False | _ => True end ->
  publications (events (emit st e)) = publications (events st).
Proof. destruct e; simpl; intros H; [reflexivity .. | contradiction]. Qed.

(** A call that finds the sentinel stores the value it returns, once, as
    its last step. *)
Lemma computing_call_publishes b os st v st' :
  g_RestrictedPhysicalMemoryLimit st = UINTPTR_MAX b ->
  GetRestrictedPhysicalMemoryLimit b os st = Ok (v, st') ->
  g_RestrictedPhysicalMemoryLimit st' = v
  /\ hd_error (events st') = Some (Publish v)
  /\ publications (events st') = S (publications (events st))
  /\ In CallLoadLibraryEx (events st').
Proof.
  intros Hs. unfold GetRestrictedPhysicalMemoryLimit.
  rewrite Hs, Z.eqb_refl. simpl negb. cbv iota.
  unfold before_exit, after_exit, GetProcessMemoryLoad.
  destruct os as [ll gp1 ij gp2 gp3 qi gm].
  destruct ll, gp1, ij as [[|]|], gp2, gp3, qi as [info|], gm as [ms|];
    simpl; try discriminate;
    repeat match goal with
           | |- context [if ?c then _ else _] => destruct c; simpl
           end;
    intros E; try discriminate E; inversion E; subst; simpl;
    (split; [reflexivity|]; split; [reflexivity|]; split; [reflexivity|]);
    simpl; tauto.
Qed.

(** C5.  The sentinel [UINTPTR_MAX] is the start-up value of
    [g_RestrictedPhysicalMemoryLimit]; a call that finds it computes, and
    stores the value it returns with one [VolatileStore] as its last step;
    a call that finds another value returns it and does nothing else; so
    after a publish of a value other than the sentinel every call returns
    that value, whatever the operating system would answer, with no call
    to it and no further store. *)
Theorem limit_is_cached_after_publish b os st v st' :
  GetRestrictedPhysicalMemoryLimit b os st = Ok (v, st') ->
  g_RestrictedPhysicalMemoryLimit (initial b) = UINTPTR_MAX b
  /\ (g_RestrictedPhysicalMemoryLimit st = UINTPTR_MAX b ->
      g_RestrictedPhysicalMemoryLimit st' = v
      /\ hd_error (events st') = Some (Publish v)
      /\ publications (events st') = S (publications (events st))
      /\ In CallLoadLibraryEx (events st'))
  /\ (g_RestrictedPhysicalMemoryLimit st <> UINTPTR_MAX b ->
      v = g_RestrictedPhysicalMemoryLimit st /\ st' = st)
  /\ (v <> UINTPTR_MAX b ->
      forall os',
        GetRestrictedPhysicalMemoryLimit b os' st' = Ok (v, st')).
Proof.
  intros H. split; [reflexivity|]. split; [|split].
  - intros Hs. eapply computing_call_publishes; eassumption.
  - intros Hs. unfold GetRestrictedPhysicalMemoryLimit in H.
    destruct (Z.eqb_spec (g_RestrictedPhysicalMemoryLimit st) (UINTPTR_MAX b));
      [contradiction|]. simpl in H. inversion H; subst. split; reflexivity.
  - intros Hv os'.
    assert (Hg : g_RestrictedPhysicalMemoryLimit st' = v).
    { destruct (Z.eq_dec (g_RestrictedPhysicalMemoryLimit st) (UINTPTR_MAX b)) as [Hs|Hs].
      - eapply computing_call_publishes; eassumption.
      - unfold GetRestrictedPhysicalMemoryLimit in H.
        destruct (Z.eqb_spec (g_RestrictedPhysicalMemoryLimit st) (UINTPTR_MAX b));
          [contradiction|]. simpl in H. inversion H; subst. reflexivity. }
    unfold GetRestrictedPhysicalMemoryLimit. rewrite Hg.
    destruct (Z.eqb_spec v (UINTPTR_MAX b)); [contradiction|]. reflexivity.
Qed.

Lemma limit_is_cached_after_publish_witness :
  GetRestrictedPhysicalMemoryLimit amd64
    (machine_without_job (memory (8 * GB) (1 * GB) (128 * 1024 * GB)))
    state_100MB_published
  = Ok (100 * MB, state_100MB_published).
Proof.
  apply (limit_is_cached_after_publish amd64
           (job_machine job_100MB (memory (1 * GB) (GB / 2) (128 * 1024 * GB)))
           (initial amd64)).
  - vm_compute. reflexivity.
  - vm_compute. discriminate.
Defined.

End MemoryBudgetClaims.

(** ** Write watch *)

Section WriteWatchClaims.
Import WriteWatch.

(** C6.  A call of [GetWriteWatch] that returns [true] has seen the
    operating system report the platform page size as granularity; when
    the query succeeds with another granularity the call does not return
    at all, neither [true] nor [false]: the assertion ends the run; and
    [false] is returned exactly when the query itself fails. *)
Theorem write_watch_granularity (OS_PAGE_SIZE : Z)
    (os : Z -> Z -> Z -> Z -> Answer) (resetState : bool)
    (address size count : Z) :
  let a := os (if resetState then 1 else 0) address size count in
  (forall pages,
     GetWriteWatch OS_PAGE_SIZE os resetState address size count = Ok (true, pages) ->
     granularity a = OS_PAGE_SIZE)
  /\ (ret a = 0 -> granularity a <> OS_PAGE_SIZE ->
      GetWriteWatch OS_PAGE_SIZE os resetState address size count
      = Fault AssertionFailed)
  /\ (forall pages,
        GetWriteWatch OS_PAGE_SIZE os resetState address size count = Ok (false, pages) ->
        ret a <> 0).
Proof.
  intros a. unfold GetWriteWatch. fold a.
  destruct (Z.eqb_spec (ret a) 0) as [Hr|Hr]; simpl;
    destruct (Z.eqb_spec (granularity a) OS_PAGE_SIZE) as [Hg|Hg]; simpl;
    (split; [|split]); intros; try congruence; try discriminate; try lia.
Qed.

Lemma write_watch_granularity_witness :
  granularity (write_watch_4096 1 65536 8192 16) = 4096.
Proof.
  destruct (write_watch_granularity 4096 write_watch_4096 true 65536 8192 16)
    as (H & _).
  apply (H [65536]). reflexivity.
Defined.

End WriteWatchClaims.

(** ** The number of processors of the process *)

Section CpuCountClaims.
Import CpuCount.

Lemma land_le_l a b : 0 <= a -> 0 <= Z.land a b <= a.
Proof.
  intros Ha.
  assert (Hd : Z.ldiff (Z.land a b) a = 0).
  { apply Z.bits_inj'; intros n _.
    rewrite Z.ldiff_spec, Z.land_spec, Z.bits_0.
    destruct (Z.testbit a n), (Z.testbit b n); reflexivity. }
  apply Z.ldiff_le in Hd; lia.
Qed.

Lemma land_even_odd a b : Z.land (2 * a) (2 * b + 1) = 2 * Z.land a b.
Proof.
  apply Z.bits_inj'; intros n Hn. rewrite Z.land_spec.
  destruct (Z.eq_dec n 0) as [->|Hnz].
  - rewrite Z.testbit_even_0, Z.testbit_even_0. reflexivity.
  - replace n with (Z.succ (n - 1)) by lia.
    rewrite !Z.testbit_even_succ, Z.testbit_odd_succ by lia.
    apply eq_sym, Z.land_spec.
Qed.

Lemma land_odd_even a b : Z.land (2 * a + 1) (2 * b) = 2 * Z.land a b.
Proof. rewrite Z.land_comm, land_even_odd, Z.land_comm. reflexivity. Qed.

Lemma popcount_pos_positive p : 1 <= popcount_pos p.
Proof. induction p; cbn [popcount_pos]; lia. Qed.

Lemma popcount_nonneg m : 0 <= popcount m.
Proof.
  destruct m; cbn [popcount]; try lia. pose proof (popcount_pos_positive p). lia.
Qed.

Lemma popcount_double m : 0 <= m -> popcount (2 * m) = popcount m.
Proof. destruct m; simpl; intros; try reflexivity; lia. Qed.

(** Clearing the lowest set bit takes one from the population count. *)
Lemma popcount_clear_lowest p :
  popcount (Z.land (Zpos p) (Zpos p - 1)) = popcount_pos p - 1.
Proof.
  induction p as [q IH|q IH|].
  - replace (Zpos q~1) with (2 * Zpos q + 1) by lia.
    replace (2 * Zpos q + 1 - 1) with (2 * Zpos q) by lia.
    rewrite land_odd_even, Z.land_diag, popcount_double by lia.
    cbn [popcount popcount_pos]. lia.
  - replace (Zpos q~0) with (2 * Zpos q) by lia.
    replace (2 * Zpos q - 1) with (2 * (Zpos q - 1) + 1) by lia.
    rewrite land_even_odd, popcount_double.
    + rewrite IH. cbn [popcount_pos]. reflexivity.
    + apply land_le_l. lia.
  - reflexivity.
Qed.

Lemma popcount_pos_le_bits p : forall k : nat,
  Zpos p < 2 ^ Z.of_nat k -> popcount_pos p <= Z.of_nat k.
Proof.
  induction p as [q IH|q IH|]; intros k Hk;
    (destruct k as [|k]; [simpl in Hk; lia|]);
    rewrite Nat2Z.inj_succ in *; rewrite Z.pow_succ_r in Hk by lia;
    cbn [popcount_pos].
  - specialize (IH k). rewrite Pos2Z.inj_xI in Hk. lia.
  - specialize (IH k). rewrite Pos2Z.inj_xO in Hk. lia.
  - lia.
Qed.

Lemma popcount_le_64 m : 0 <= m < 2 ^ 64 -> popcount m <= 64.
Proof.
  intros Hm. destruct m as [|p|p].
  - cbn [popcount]. lia.
  - cbn [popcount]. pose proof (popcount_pos_le_bits p 64) as H.
    change (Z.of_nat 64) with 64 in H. apply H. apply Hm.
  - lia.
Qed.

(** With fuel for every set bit the loop ends, having counted the bits. *)
Lemma count_bits_popcount fuel : forall pmask count,
  0 <= pmask ->
  popcount pmask <= Z.of_nat fuel ->
  count_bits fuel pmask count = Ok (count + popcount pmask).
Proof.
  induction fuel as [|fuel IH]; intros pmask count Hp Hf.
  - destruct pmask as [|p|p]; simpl in *; try lia.
    + f_equal; lia.
    + pose proof (popcount_pos_positive p). lia.
  - destruct pmask as [|p|p]; try lia.
    + simpl. f_equal; lia.
    + change (count_bits (S fuel) (Z.pos p) count)
        with (count_bits fuel (Z.land (Zpos p) (Zpos p - 1)) (count + 1)).
      rewrite IH.
      * rewrite popcount_clear_lowest. simpl popcount. f_equal. lia.
      * apply land_le_l. lia.
      * rewrite popcount_clear_lowest. simpl popcount in Hf. lia.
Qed.

(** C10.  The first call of [GetCurrentProcessCpuCount] (the static
    [cCPUs] still 0), with affinity masks that are DWORD_PTRs, returns a
    number between 1 and 64: 1 when the query of the affinity masks
    fails, the number of bits set in process mask AND system mask when
    that is between 1 and 64, and 64 when it is 0 or above 64; it stores
    the number in [cCPUs], and every later call returns it whatever the
    query would answer. *)
Theorem cpu_count_between_1_and_64 q st :
  cCPUs st = 0 ->
  (forall p s, q = Some (p, s) -> 0 <= p < 2 ^ 64 /\ 0 <= s < 2 ^ 64) ->
  exists n,
    GetCurrentProcessCpuCount q st = Ok (n, mkState n)
    /\ 1 <= n <= 64
    /\ (q = None -> n = 1)
    /\ (forall p s, q = Some (p, s) ->
          let c := popcount (Z.land p s) in
          (1 <= c <= 64 -> n = c) /\ (c = 0 \/ 64 < c -> n = 64))
    /\ (forall q', GetCurrentProcessCpuCount q' (mkState n) = Ok (n, mkState n)).
Proof.
  intros Hz Hq. unfold GetCurrentProcessCpuCount at 1. rewrite Hz.
  cbn [negb Z.eqb].
  assert (Hlater : forall n, 1 <= n ->
            forall q', GetCurrentProcessCpuCount q' (mkState n) = Ok (n, mkState n)).
  { intros n Hn q'. unfold GetCurrentProcessCpuCount. cbn [cCPUs].
    destruct (Z.eqb_spec n 0); [lia | reflexivity]. }
  destruct q as [[p s]|].
  - destruct (Hq p s eq_refl) as (Hp & Hs).
    pose proof (land_le_l p s ltac:(lia)) as Hl.
    pose proof (popcount_le_64 (Z.land p s) ltac:(lia)) as H64.
    pose proof (popcount_nonneg (Z.land p s)) as H0.
    rewrite count_bits_popcount by (unfold DWORD_PTR_BITS; lia).
    cbn [bind Z.add].
    set (c := popcount (Z.land p s)) in *.
    destruct (Z.eqb_spec c 0) as [Hc|Hc]; cbn [orb].
    + exists 64. split; [reflexivity|]. split; [lia|]. split; [discriminate|].
      split; [|apply Hlater; lia].
      intros p' s' E. inversion E; subst p' s'. fold c. simpl. lia.
    + destruct (Z.ltb_spec 64 c) as [Hgt|Hle]; [lia|].
      exists c. split; [reflexivity|]. split; [lia|]. split; [discriminate|].
      split; [|apply Hlater; lia].
      intros p' s' E. inversion E; subst p' s'. fold c. simpl. lia.
  - exists 1. split; [reflexivity|]. split; [lia|]. split; [reflexivity|].
    split; [discriminate | apply Hlater; lia].
Qed.

Lemma cpu_count_between_1_and_64_witness :
  exists n,
    GetCurrentProcessCpuCount (Some (255, 15)) initial = Ok (n, mkState n)
    /\ 1 <= n <= 64
    /\ (Some (255, 15) = None -> n = 1)
    /\ (forall p s, Some (255, 15) = Some (p, s) ->
          let c := popcount (Z.land p s) in
          (1 <= c <= 64 -> n = c) /\ (c = 0 \/ 64 < c -> n = 64))
    /\ (forall q', GetCurrentProcessCpuCount q' (mkState n) = Ok (n, mkState n)).
Proof.
  apply (cpu_count_between_1_and_64 (Some (255, 15)) initial).
  - reflexivity.
  - intros p s E. inversion E; subst. lia.
Defined.

End CpuCountClaims.

(** ** The cache size per logical processor *)

Section CacheProbeClaims.
Import CacheProbe.

Lemma largest_cache_range l :
  Forall (fun e => 0 <= Cache_Size e < 2 ^ 32) l ->
  0 <= largest_cache l < 2 ^ 32.
Proof.
  unfold largest_cache.
  assert (H : forall acc, 0 <= acc < 2 ^ 32 ->
            Forall (fun e => 0 <= Cache_Size e < 2 ^ 32) l ->
            0 <= fold_left
                   (fun last_cache_size e =>
                      if is_RelationCache (Relationship e)
                      then Z.max last_cache_size (Cache_Size e)
                      else last_cache_size) l acc < 2 ^ 32).
  { induction l as [|e l IH]; simpl; intros acc Ha Hl; [exact Ha|].
    inversion Hl; subst. apply IH; [|assumption].
    destruct (is_RelationCache (Relationship e)); lia. }
  apply H. lia.
Qed.

Lemma cache_size_from_OS_range os v :
  (forall l, filling os = Some l ->
             Forall (fun e => 0 <= Cache_Size e < 2 ^ 32) l) ->
  GetLogicalProcessorCacheSizeFromOS os = Ok v ->
  0 <= v < 2 ^ 32.
Proof.
  intros Hl. unfold GetLogicalProcessorCacheSizeFromOS, GetLPI.
  destruct (_ && _); simpl; [intros E; inversion E; lia|].
  destruct (assert _); simpl; [|discriminate].
  destruct (alloc_pslpi os); simpl; [|intros E; inversion E; lia].
  destruct (filling os) as [l|]; simpl; intros E; inversion E; [|lia].
  apply largest_cache_range. apply Hl. reflexivity.
Qed.

(** The AuthenticAMD block either leaves the statics alone or sets both
    to the same size; it leaves them alone on a GenuineIntel processor. *)
Lemma amd_block_spec b os dwBuffer st st' :
  amd_block b os dwBuffer st = Ok st' ->
  (st' = st \/ maxSize st' = maxTrueSize st')
  /\ (is_GenuineIntel dwBuffer = true -> st' = st).
Proof.
  unfold amd_block, is_GenuineIntel.
  destruct dwBuffer as [[[b0 b1] b2] b3].
  destruct (Z.eqb_spec (to_DWORD b1) c_htuA) as [E1|E1]; cbn [andb].
  2:{ intros E; inversion E. split; [left; reflexivity | reflexivity]. }
  assert (Hni : (to_DWORD b1 =? c_uneG) = false).
  { rewrite E1. reflexivity. }
  rewrite Hni. cbn [andb].
  destruct ((to_DWORD b3 =? c_itne) && (to_DWORD b2 =? c_DMAc)).
  2:{ intros E; inversion E. split; [left; reflexivity | discriminate]. }
  destruct (cpuid os 2147483648) as [[[e0 ?] ?] ?].
  destruct (2147483654 <=? to_DWORD e0).
  2:{ intros E; inversion E. split; [left; reflexivity | discriminate]. }
  destruct (cpuid os 2147483654) as [[[? ?] c2] c3].
  destruct (cpuid os 1) as [[[f0 ?] ?] ?].
  intros E. bind_inv E as t _.
  inversion E; subst. cbn [maxSize maxTrueSize].
  split; [right; reflexivity | discriminate].
Qed.

Lemma shiftr_land_field x lo n :
  0 <= lo -> 0 <= n ->
  Z.shiftr (Z.land x (Z.shiftl (Z.ones n) lo)) lo = bit_field x lo n.
Proof.
  intros Hlo Hn. unfold bit_field.
  rewrite Z.shiftr_land, Z.shiftr_shiftl_l by exact Hlo.
  rewrite Z.sub_diag, Z.shiftl_0_r, Z.land_ones by exact Hn.
  rewrite Z.shiftr_div_pow2 by exact Hlo. reflexivity.
Qed.

Lemma bit_field_range x lo n : 0 <= n -> 0 <= bit_field x lo n < 2 ^ n.
Proof.
  intros Hn. unfold bit_field. apply Z.mod_pos_bound.
  apply Z.pow_pos_nonneg; lia.
Qed.

Lemma shiftr_top_field x lo n :
  0 <= lo -> 0 <= n -> 0 <= x < 2 ^ (lo + n) ->
  Z.shiftr x lo = bit_field x lo n.
Proof.
  intros Hlo Hn Hx. unfold bit_field.
  rewrite Z.shiftr_div_pow2 by exact Hlo.
  symmetry. apply Z.mod_small. split.
  - apply Z.div_pos; [lia|apply Z.pow_pos_nonneg; lia].
  - apply Z.div_lt_upper_bound; [apply Z.pow_pos_nonneg; lia|].
    rewrite <- Z.pow_add_r by lia. lia.
Qed.

Lemma to_DWORD_range x : 0 <= to_DWORD x < 2 ^ 32.
Proof. apply (wrap_range 32 x). lia. Qed.

Lemma to_size_t_DWORD b x : 0 <= x < 2 ^ 32 -> to_size_t b x = x.
Proof.
  intros H. apply to_size_t_small. pose proof (UINTPTR_MAX_ge b). lia.
Qed.

(** What the AuthenticAMD block leaves in the statics. *)
Lemma amd_block_deduces b os st st' :
  maxTrueSize st = 0 ->
  amd_block b os (cpuid os 0) st = Ok st' ->
  maxTrueSize st' = cpuid_deduced_size b os.
Proof.
  unfold amd_block, cpuid_deduced_size, is_AuthenticAMD.
  intros Hz.
  destruct (cpuid os 0) as [[[b0 b1] b2] b3].
  destruct (cpuid os 2147483648) as [[[e0 ?] ?] ?].
  destruct ((to_DWORD b1 =? c_htuA) && (to_DWORD b3 =? c_itne)
            && (to_DWORD b2 =? c_DMAc)); cbn [andb].
  2:{ intros E; inversion E; subst. exact Hz. }
  destruct (2147483654 <=? to_DWORD e0).
  2:{ intros E; inversion E; subst. exact Hz. }
  destruct (cpuid os 2147483654) as [[[? ?] c2] c3].
  destruct (cpuid os 1) as [[[f0 ?] ?] ?].
  destruct (cpuid os 2147483656) as [[[? ?] g2] ?].
  pose proof (to_DWORD_range c2) as Hc2.
  pose proof (to_DWORD_range c3) as Hc3.
  pose proof (to_DWORD_range g2) as Hg2.
  set (f := to_DWORD f0).
  (* the fields of leaf 1 *)
  change 15 with (Z.ones 4). change 255 with (Z.ones 8).
  rewrite !shiftr_land_field by lia.
  change (Z.ones 4) with 15. 
  pose proof (bit_field_range f 8 4 ltac:(lia)) as Hbf.
  pose proof (bit_field_range f 20 8 ltac:(lia)) as Hef.
  pose proof (bit_field_range f 4 4 ltac:(lia)) as Hbm.
  pose proof (bit_field_range f 16 4 ltac:(lia)) as Hem.
  (* the sizes *)
  rewrite (shiftr_top_field (to_DWORD c2) 16 16) by lia.
  rewrite (shiftr_top_field (to_DWORD c3) 18 14) by lia.
  pose proof (bit_field_range (to_DWORD c2) 16 16 ltac:(lia)) as HL2.
  pose proof (bit_field_range (to_DWORD c3) 18 14 ltac:(lia)) as HL3.
  rewrite (to_DWORD_small (bit_field (to_DWORD c2) 16 16 * 1024)) by lia.
  rewrite (to_size_t_DWORD b (bit_field (to_DWORD c2) 16 16 * 1024)) by lia.
  rewrite (to_DWORD_small (bit_field (to_DWORD c3) 18 14 * 512)) by lia.
  set (L3 := to_DWORD (bit_field (to_DWORD c3) 18 14 * 512 * 1024)).
  assert (HL3r : 0 <= L3 < 2 ^ 32) by apply to_DWORD_range.
  rewrite (to_size_t_DWORD b L3) by exact HL3r.
  rewrite (to_DWORD_small L3) by exact HL3r.
  assert (EL3 : L3 = (512 * 1024 * bit_field (to_DWORD c3) 18 14) mod 2 ^ 32).
  { unfold L3, to_DWORD, wrap, DWORD_BITS. f_equal. lia. }
  (* the cores *)
  rewrite Z.land_ones by lia.
  assert (Ecores : to_DWORD (to_DWORD g2 mod 2 ^ 8 + 1)
                   = bit_field (to_DWORD g2) 0 8 + 1).
  { unfold bit_field. rewrite Z.pow_0_r, Z.div_1_r.
    pose proof (Z.mod_pos_bound (to_DWORD g2) (2 ^ 8) ltac:(lia)).
    apply to_DWORD_small. lia. }
  rewrite Ecores.
  set (cores := bit_field (to_DWORD g2) 0 8 + 1).
  assert (Hcores : cores <> 0).
  { pose proof (bit_field_range (to_DWORD g2) 0 8 ltac:(lia)). unfold cores. lia. }
  (* the family and the model *)
  unfold amd_counts_L3, amd_family, amd_model. fold f.
  assert (Efam : (if 15 <=? bit_field f 8 4
                  then to_DWORD (bit_field f 8 4 + bit_field f 20 8)
                  else bit_field f 8 4)
                 = (if bit_field f 8 4 =? 15 then 15 + bit_field f 20 8
                    else bit_field f 8 4)).
  { destruct (Z.leb_spec 15 (bit_field f 8 4));
      destruct (Z.eqb_spec (bit_field f 8 4) 15); try lia.
    rewrite to_DWORD_small by lia. lia. }
  rewrite Efam.
  assert (Emod : (if 15 <=? bit_field f 8 4
                  then Z.lor (to_DWORD (Z.shiftl (bit_field f 16 4) 4))
                         (bit_field f 4 4)
                  else bit_field f 4 4)
                 = (if bit_field f 8 4 =? 15
                    then 16 * bit_field f 16 4 + bit_field f 4 4
                    else bit_field f 4 4)).
  { destruct (Z.leb_spec 15 (bit_field f 8 4));
      destruct (Z.eqb_spec (bit_field f 8 4) 15); try lia.
    rewrite Z.shiftl_mul_pow2 by lia.
    rewrite to_DWORD_small by lia.
    assert (Hland : Z.land (bit_field f 16 4 * 2 ^ 4) (bit_field f 4 4) = 0).
    { rewrite <- Z.shiftl_mul_pow2 by lia.
      apply Z.bits_inj'. intros n Hn.
      rewrite Z.land_spec, Z.bits_0.
      destruct (Z.ltb_spec n 4).
      - rewrite Z.shiftl_spec_low by lia. reflexivity.
      - rewrite andb_comm.
        assert (Z.testbit (bit_field f 4 4) n = false) as ->; [|reflexivity].
        unfold bit_field. rewrite Z.mod_pow2_bits_high by lia. reflexivity. }
    pose proof (Z.add_lor_land (bit_field f 16 4 * 2 ^ 4) (bit_field f 4 4)) as Ha.
    rewrite Hland in Ha. change (2 ^ 4) with 16 in *. lia. }
  rewrite Emod.
  set (family := if bit_field f 8 4 =? 15 then 15 + bit_field f 20 8
                 else bit_field f 8 4).
  set (model := if bit_field f 8 4 =? 15
                then 16 * bit_field f 16 4 + bit_field f 4 4
                else bit_field f 4 4).
  destruct (16 <=? family); cbn [andb].
  - destruct (family =? 16); cbn [andb negb].
    + destruct (model =? 2); cbn [negb].
      * cbn [bind]. intros E; inversion E; subst. cbn [maxTrueSize].
        rewrite Z.add_0_r, to_size_t_DWORD by lia. lia.
      * unfold udiv. apply Z.eqb_neq in Hcores. rewrite Hcores. cbn [bind].
        intros E; inversion E; subst. cbn [maxTrueSize].
        rewrite EL3. f_equal. lia.
    + unfold udiv. apply Z.eqb_neq in Hcores. rewrite Hcores. cbn [bind].
      intros E; inversion E; subst. cbn [maxTrueSize].
      rewrite EL3. f_equal. lia.
  - cbn [bind]. intros E; inversion E; subst. cbn [maxTrueSize].
    rewrite Z.add_0_r, to_size_t_DWORD by lia. lia.
Qed.

(** C8 (amended).  A call of [GetCacheSizePerLogicalCpu] that finds the
    statics at 0 computes the sizes: it returns the true size for
    [trueSize = true] and the scaled size otherwise; the scaled size is
    three times the true size on the builds and processors that scale it
    and equal to it elsewhere; where the caches are enumerated the true
    size is the largest cache the operating system reports; elsewhere it
    is the size deduced from CPUID: on an AuthenticAMD processor with
    extended leaf 0x80000006 the L2 size plus, from family 10h on and
    except for family 10h model 2, the L3 size per core, and 0 on every
    other processor.  Once a call has left a scaled size other than 0,
    every later call returns the same pair of sizes without computing; a
    size of 0 is not cached. *)
Theorem cache_size_cached_when_known b os trueSize st v st' :
  maxSize st = 0 ->
  maxTrueSize st = 0 ->
  (forall l, filling os = Some l ->
             Forall (fun e => 0 <= Cache_Size e < 2 ^ 32) l) ->
  GetCacheSizePerLogicalCpu b os trueSize st = Ok (v, st') ->
  v = (if trueSize then maxTrueSize st' else maxSize st')
  /\ maxSize st' = (if scales_cache_size b os then 3 * maxTrueSize st'
                    else maxTrueSize st')
  /\ (enumerates_caches b os = true ->
      GetLogicalProcessorCacheSizeFromOS os = Ok (maxTrueSize st'))
  /\ (enumerates_caches b os = false ->
      maxTrueSize st' = cpuid_deduced_size b os)
  /\ (maxSize st' <> 0 ->
      forall os' trueSize',
        GetCacheSizePerLogicalCpu b os' trueSize' st'
        = Ok (if trueSize' then maxTrueSize st' else maxSize st', st')).
Proof.
  intros Hz Hzt Hl. unfold GetCacheSizePerLogicalCpu at 1. rewrite Hz. simpl negb.
  cbv iota. intros H.
  assert (Hcached : maxSize st' <> 0 ->
            forall os' trueSize',
              GetCacheSizePerLogicalCpu b os' trueSize' st'
              = Ok (if trueSize' then maxTrueSize st' else maxSize st', st')).
  { intros Hnz os' ts'. unfold GetCacheSizePerLogicalCpu.
    destruct (Z.eqb_spec (maxSize st') 0); [contradiction | reflexivity]. }
  assert (Hx86 : forall s1,
            (dwBuffer <- Ok (cpuid os 0) ;;
             s <- intel_block b os dwBuffer st ;; amd_block b os dwBuffer s) = Ok s1 ->
            (is_GenuineIntel (cpuid os 0) = true ->
             exists t, GetLogicalProcessorCacheSizeFromOS os = Ok t
                       /\ 0 <= t < 2 ^ 32
                       /\ s1 = if BIT64 b && (2 <=? to_int (let '(b0, _, _, _) := cpuid os 0 in b0))
                               then mkState (to_size_t b (t * 3)) t
                               else mkState t t)
            /\ (is_GenuineIntel (cpuid os 0) = false ->
                maxSize s1 = maxTrueSize s1
                /\ maxTrueSize s1 = cpuid_deduced_size b os)).
  { intros s1. simpl. intros E. apply bind_Ok in E. destruct E as (s0 & Hi & Ha).
    destruct (amd_block_spec _ _ _ _ _ Ha) as (Hor & Hint).
    assert (Hded : s0 = st -> maxTrueSize s1 = cpuid_deduced_size b os).
    { intros ->. apply (amd_block_deduces b os st s1 Hzt Ha). }
    unfold intel_block in Hi. unfold is_GenuineIntel in *.
    destruct (cpuid os 0) as [[[b0 b1] b2] b3].
    destruct ((to_DWORD b1 =? c_uneG) && (to_DWORD b3 =? c_Ieni)
              && (to_DWORD b2 =? c_letn)).
    - split; [intros _|discriminate].
      bind_inv Hi as t Ht.
      exists t. split; [exact Ht|].
      split; [eapply cache_size_from_OS_range; eassumption|].
      rewrite (Hint eq_refl).
      destruct (BIT64 b && (2 <=? to_int b0)); inversion Hi; reflexivity.
    - split; [discriminate|intros _].
      inversion Hi; subst s0. split; [|apply Hded; reflexivity].
      destruct Hor as [->| ->]; [lia | reflexivity]. }
  unfold scales_cache_size, enumerates_caches.
  remember (cpuid_deduced_size b os) as deduced eqn:Hdeduced in *.
  clear Hdeduced.
  destruct b as [arch rh]. unfold BIT64, TARGET_64 in Hx86. simpl in *.
  destruct arch; simpl in *.
  - (* X86 *)
    bind_inv H as s1 Hs. inversion H; subst; clear H.
    destruct (Hx86 _ Hs) as (Hi & Hn).
    destruct (is_GenuineIntel (cpuid os 0)).
    + destruct (Hi eq_refl) as (t & Ht & _ & ->). simpl.
      repeat split; auto; discriminate.
    + destruct (Hn eq_refl) as (Hn1 & Hn2). repeat split; auto; discriminate.
  - (* AMD64 *)
    bind_inv H as s1 Hs. inversion H; subst; clear H.
    destruct (Hx86 _ Hs) as (Hi & Hn).
    destruct (is_GenuineIntel (cpuid os 0)).
    + destruct (Hi eq_refl) as (t & Ht & Hr & ->). simpl in *.
      destruct (2 <=? to_int _); simpl in *.
      * assert (E : to_size_t (mkBuild AMD64 rh) (t * 3) = 3 * t).
        { unfold to_size_t, PTR_BITS, BIT64, TARGET_64. simpl target. cbv iota.
          rewrite wrap_small; lia. }
        rewrite E in *. repeat split; auto; discriminate.
      * repeat split; auto; discriminate.
    + destruct (Hn eq_refl) as (Hn1 & Hn2). simpl.
      repeat split; auto; discriminate.
  - (* ARM *)
    bind_inv H as s1 Hs. inversion H; subst; clear H.
    bind_inv Hs as t Ht. inversion Hs; subst.
    simpl in *. repeat split; auto; discriminate.
  - (* ARM64 *)
    bind_inv H as s1 Hs. inversion H; subst; clear H.
    bind_inv Hs as t Ht. inversion Hs; subst.
    pose proof (cache_size_from_OS_range _ _ Hl Ht) as Hr.
    assert (E : to_size_t (mkBuild ARM64 rh) (t * 3) = 3 * t).
    { unfold to_size_t, PTR_BITS, BIT64, TARGET_64. simpl target. cbv iota.
      rewrite wrap_small; lia. }
    simpl in *. rewrite E in *. repeat split; auto; discriminate.
Qed.

Lemma cache_size_cached_when_known_witness :
  GetCacheSizePerLogicalCpu amd64 intel_allocation_fails false
    (mkState (24 * MB) (8 * MB))
  = Ok (24 * MB, mkState (24 * MB) (8 * MB)).
Proof.
  apply (cache_size_cached_when_known amd64 intel_8MB true initial (8 * MB)
           (mkState (24 * MB) (8 * MB))).
  - reflexivity.
  - reflexivity.
  - intros l E. inversion E; subst. repeat constructor; vm_compute; discriminate.
  - vm_compute. reflexivity.
  - vm_compute. discriminate.
Defined.

(** C8 as stated fails when the first call cannot determine a size: with
    the allocation in [GetLPI] failing it returns 0 and leaves the statics
    at 0; the next call computes again and, the allocation now succeeding,
    returns 8 MB.  And on an AuthenticAMD processor the true size is not
    the largest cache (8 MB, as the operating system enumerates it) but
    the L2 cache plus the share of the L3 cache per core: 512 KB + 2 MB. *)
Lemma cache_size_counterexample :
  (GetCacheSizePerLogicalCpu amd64 intel_allocation_fails true initial
     = Ok (0, initial)
   /\ GetCacheSizePerLogicalCpu amd64 intel_8MB true initial
      = Ok (8 * MB, mkState (24 * MB) (8 * MB)))
  /\ (GetLogicalProcessorCacheSizeFromOS amd_8MB = Ok (8 * MB)
      /\ GetCacheSizePerLogicalCpu amd64 amd_8MB true initial
         = Ok (512 * 1024 + 2 * MB,
               mkState (512 * 1024 + 2 * MB) (512 * 1024 + 2 * MB))).
Proof. repeat split; vm_compute; reflexivity. Qed.

(** The deduction on the processors of the scenarios: L2 and the L3 per
    core on family 17h; L2 alone on family 10h model 2, where the largest
    cache the operating system enumerates is 2 MB; nothing on a
    GenuineIntel processor. *)
Lemma cpuid_deduced_size_scenarios :
  cpuid_deduced_size amd64 amd_8MB = 512 * 1024 + 2 * MB
  /\ cpuid_deduced_size amd64 barcelona_2MB = 512 * 1024
  /\ GetCacheSizePerLogicalCpu amd64 barcelona_2MB true initial
     = Ok (512 * 1024, mkState (512 * 1024) (512 * 1024))
  /\ GetLogicalProcessorCacheSizeFromOS barcelona_2MB = Ok (2 * MB)
  /\ cpuid_deduced_size amd64 intel_8MB = 0.
Proof. repeat split; vm_compute; reflexivity. Qed.

End CacheProbeClaims.

(** * Further properties of the code *)

(** ** Processor groups: arithmetic, indices, start-up flags *)

Section GroupIndices.
Import Topology.

(** X1.  On DWORDs [GCD] is the greatest common divisor, and [LCM] returns
    the least common multiple reduced modulo [2^32]; the one exception is
    [LCM 0 0], which divides by zero. *)
Theorem LCM_is_lcm_modulo_DWORD u v :
  0 <= u < 2 ^ 32 -> 0 <= v < 2 ^ 32 ->
  GCD u v = Z.gcd u v
  /\ (u = 0 /\ v = 0 -> LCM u v = Fault DivideByZero)
  /\ (u <> 0 \/ v <> 0 -> LCM u v = Ok (Z.lcm u v mod 2 ^ 32)).
Proof.
  intros Hu Hv. split; [apply GCD_gcd; lia|]. split.
  - intros (-> & ->). reflexivity.
  - intros Hnz. unfold LCM, udiv. rewrite GCD_gcd by lia.
    assert (Hg : Z.gcd u v <> 0).
    { intros E. destruct Hnz as [H|H]; [apply Z.gcd_eq_0_l in E | apply Z.gcd_eq_0_r in E];
        contradiction. }
    destruct (Z.eqb_spec (Z.gcd u v) 0) as [E|_]; [contradiction|].
    cbn [bind]. rewrite Z.gcd_div_swap. unfold to_DWORD, wrap, DWORD_BITS.
    do 2 f_equal. unfold Z.lcm. symmetry. apply Z.abs_eq.
    apply Z.mul_nonneg_nonneg; [lia|].
    apply Z.div_pos; [lia|]. pose proof (Z.gcd_nonneg u v). lia.
Qed.

Lemma LCM_is_lcm_modulo_DWORD_witness : LCM 4 6 = Ok (Z.lcm 4 6 mod 2 ^ 32).
Proof.
  destruct (LCM_is_lcm_modulo_DWORD 4 6) as (_ & _ & H); [lia | lia |].
  apply H. left. discriminate.
Defined.

(** Without wrap-around every range has as many indices as its group has
    active processors. *)
Lemma assign_ranges_sizes arr : forall s,
  Forall (fun c => 0 < c) (map nr_active arr) ->
  0 <= s ->
  s + sum_list (map nr_active arr) < 65536 ->
  Forall (fun g => end_ g = begin_ g + nr_active g - 1) (assign_ranges arr s s).
Proof.
  induction arr as [|g rest IH]; intros s Hpos Hs Hlt; [constructor|].
  cbn [assign_ranges map sum_list fold_right] in *.
  inversion Hpos as [|c cs Hc Hcs]; subst.
  assert (0 <= sum_list (map nr_active rest)).
  { apply sum_list_nonneg. eapply Forall_impl; [|exact Hcs]. simpl; intros; lia. }
  unfold sum_list in *.
  rewrite !(to_WORD_small (s + nr_active g)) by lia.
  rewrite (to_WORD_small (s + nr_active g - 1)) by lia.
  constructor; [reflexivity|]. apply IH; [assumption | lia | lia].
Qed.

(** Past the last range the scan finds nothing. *)
Lemma scan_groups_beyond arr : forall k0 s d i,
  Forall (fun c => 0 < c) (map nr_active arr) ->
  0 <= s ->
  s + sum_list (map nr_active arr) <= i ->
  i < 65536 ->
  scan_groups arr k0 s d i = None.
Proof.
  induction arr as [|g rest IH]; intros k0 s d i Hpos Hs Hi Hlt; [reflexivity|].
  cbn [scan_groups map sum_list fold_right] in *.
  inversion Hpos as [|c cs Hc Hcs]; subst.
  assert (0 <= sum_list (map nr_active rest)).
  { apply sum_list_nonneg. eapply Forall_impl; [|exact Hcs]. simpl; intros; lia. }
  unfold sum_list in *.
  rewrite (to_WORD_small (s + nr_active g)) by lia.
  destruct (Z.ltb_spec i (s + nr_active g)) as [E|_]; [lia|].
  apply IH; [assumption | lia | lia | lia].
Qed.

(** What an enabled topology whose processor count fits 16 bits looks
    like. *)
Lemma enabled_layout b os st :
  Initialize b os initial = Ok (true, st) ->
  CanEnableGCCPUGroups st = true ->
  GetTotalProcessorCount st < 65536 ->
  exists arr2,
    g_CPUGroupInfoArray st = assign_ranges arr2 0 0
    /\ Forall (fun c => 0 < c) (map nr_active arr2)
    /\ sum_list (map nr_active arr2) = g_nProcessors st
    /\ g_nGroups st = Z.of_nat (length arr2)
    /\ 1 < g_nGroups st < 65536
    /\ TARGET_64 b = true.
Proof.
  intros HI Hen Hfit.
  apply Initialize_Ok in HI. destruct HI as (st1 & Hn0 & HI).
  destruct (InitCPUGroupInfo_enabled _ _ _ _ HI Hen)
    as (infos & arr1 & arr2 & w & Hrec & Hw & Harr & Hng & Hrange & Ht).
  destruct (enabled_counts_positive _ _ _ _ _ _ Hrec Hw) as (Hmap & Hpos).
  unfold GetTotalProcessorCount, CanEnableGCCPUGroups in *. rewrite Hen in Hfit.
  rewrite Hn0 in Hrec. cbn [g_nProcessors initial] in Hrec.
  assert (Hlen : length arr1 = length arr2).
  { apply (f_equal (@length Z)) in Hmap. rewrite !length_map in Hmap. lia. }
  assert (Hsum : g_nProcessors st = sum_list (map nr_active arr1)).
  { rewrite (record_groups_sum _ _ _ _ _ _ Hrec); [lia | lia |].
    pose proof (sum_list_bound _ Hpos) as Hb. rewrite length_map in Hb. nia. }
  exists arr2. rewrite Hmap.
  split; [exact Harr|]. split.
  { eapply Forall_impl; [|exact Hpos]. simpl; intros; lia. }
  split; [symmetry; exact Hsum|]. split; [exact Hng|]. split; assumption.
Qed.

Lemma GetGroupForProcessor_scan b st arr2 i :
  FEATURE_REDHAWK b = false ->
  TARGET_64 b = true ->
  g_fEnableGCCPUGroups st = true ->
  g_CPUGroupInfoArray st = assign_ranges arr2 0 0 ->
  g_nGroups st = Z.of_nat (length arr2) ->
  g_nGroups st < 65536 ->
  GetGroupForProcessor b st i
  = match scan_groups (assign_ranges arr2 0 0) 0 0 (to_WORD (i - 0)) i with
    | Some r => Ok (Some r)
    | None => Ok None
    end.
Proof.
  intros Hrh Ht Hen Harr Hng Hlt.
  unfold GetGroupForProcessor. rewrite Hen, Hrh, Ht. cbn [assert bind negb andb].
  rewrite Harr. unfold WORD_BITS.
  rewrite Z.min_l by (change (2 ^ 16) with 65536; lia).
  rewrite Hng, Nat2Z.id.
  rewrite <- (assign_ranges_nr_active_length arr2 0 0) at 1.
  rewrite firstn_all.
  destruct (scan_groups _ _ _ _ _); [reflexivity|].
  rewrite assign_ranges_nr_active_length, Z.ltb_irrefl.
  destruct (Z.leb_spec (2 ^ 16) (Z.of_nat (length arr2))) as [E|_];
    [change (2 ^ 16) with 65536 in E; lia | reflexivity].
Qed.

(** X2.  In an enabled topology whose processor count is below 65536 (build
    without FEATURE_REDHAWK), the answer [(k, j)] of [GetGroupForProcessor]
    to a processor index [i] below the total gives the index back: group
    [k] exists, [j] is below its number of active processors, and
    [i = begin(k) + j]; the range of the group has exactly [nr_active]
    indices. *)
Theorem group_and_offset_give_index_back b os st i k j :
  FEATURE_REDHAWK b = false ->
  Initialize b os initial = Ok (true, st) ->
  CanEnableGCCPUGroups st = true ->
  GetTotalProcessorCount st < 65536 ->
  0 <= i < GetTotalProcessorCount st ->
  GetGroupForProcessor b st i = Ok (Some (k, j)) ->
  exists g,
    nth_error (g_CPUGroupInfoArray st) (Z.to_nat k) = Some g
    /\ 0 <= k < g_nGroups st
    /\ 0 <= j < nr_active g
    /\ i = begin_ g + j
    /\ end_ g = begin_ g + nr_active g - 1.
Proof.
  intros Hrh HI Hen Hfit Hi Hget.
  destruct (enabled_layout _ _ _ HI Hen Hfit)
    as (arr2 & Harr & Hpos & Hsum & Hng & Hrange & Ht).
  unfold GetTotalProcessorCount, CanEnableGCCPUGroups in *. rewrite Hen in *.
  rewrite (GetGroupForProcessor_scan b st arr2 i Hrh Ht Hen Harr Hng) in Hget by lia.
  destruct (scan_assign_ranges arr2 0 0 i Hpos ltac:(lia) ltac:(lia) ltac:(lia))
    as (k' & g & Hs & Hnth & Hr).
  rewrite Hs in Hget. inversion Hget; subst k j. clear Hget.
  pose proof (assign_ranges_sizes arr2 0 Hpos ltac:(lia) ltac:(lia)) as Hsz.
  rewrite Forall_forall in Hsz. specialize (Hsz g (nth_error_In _ _ Hnth)).
  exists g. rewrite Harr. cbn [Z.add]. rewrite Nat2Z.id.
  split; [exact Hnth|].
  assert (Hk : (k' < length (assign_ranges arr2 0 0))%nat).
  { apply nth_error_Some. rewrite Hnth. discriminate. }
  rewrite assign_ranges_nr_active_length in Hk.
  unfold in_range in Hr. repeat split; lia.
Qed.

Lemma group_and_offset_give_index_back_witness :
  exists g,
    nth_error (g_CPUGroupInfoArray state_4_6) (Z.to_nat 1) = Some g
    /\ 0 <= 1 < g_nGroups state_4_6
    /\ 0 <= 3 < nr_active g
    /\ 7 = begin_ g + 3
    /\ end_ g = begin_ g + nr_active g - 1.
Proof.
  apply (group_and_offset_give_index_back amd64 (machine_with_groups [4; 6])
           state_4_6 7 1 3); try reflexivity.
  vm_compute. split; [discriminate | reflexivity].
Defined.

(** X3.  In such a topology a processor index at or past the total (and
    still a uint16_t) belongs to no group: the loop of
    [GetGroupForProcessor] ends without a [break] and the call returns
    with its out-parameters not written. *)
Theorem no_group_past_the_total b os st i :
  FEATURE_REDHAWK b = false ->
  Initialize b os initial = Ok (true, st) ->
  CanEnableGCCPUGroups st = true ->
  GetTotalProcessorCount st < 65536 ->
  GetTotalProcessorCount st <= i < 65536 ->
  GetGroupForProcessor b st i = Ok None.
Proof.
  intros Hrh HI Hen Hfit Hi.
  destruct (enabled_layout _ _ _ HI Hen Hfit)
    as (arr2 & Harr & Hpos & Hsum & Hng & Hrange & Ht).
  unfold GetTotalProcessorCount, CanEnableGCCPUGroups in *. rewrite Hen in *.
  rewrite (GetGroupForProcessor_scan b st arr2 i Hrh Ht Hen Harr Hng) by lia.
  assert (Hpos' : Forall (fun c => 0 < c) (map nr_active (assign_ranges arr2 0 0))).
  { rewrite assign_ranges_nr_active. exact Hpos. }
  rewrite (scan_groups_beyond (assign_ranges arr2 0 0) 0 0 _ i Hpos');
    [reflexivity | lia | | lia].
  rewrite assign_ranges_nr_active. lia.
Qed.

Lemma no_group_past_the_total_witness :
  GetGroupForProcessor amd64 state_4_6 10 = Ok None.
Proof.
  apply (no_group_past_the_total amd64 (machine_with_groups [4; 6]) state_4_6 10);
    try reflexivity.
  vm_compute. split; [discriminate | reflexivity].
Defined.

End GroupIndices.

Section StartupFlags.
Import Topology.

Lemma record_groups_sum_mod infos : forall n w arr n' w',
  record_groups infos n w = Ok (arr, n', w') ->
  0 <= n < 2 ^ 32 ->
  n' = (n + sum_list (map nr_active arr)) mod 2 ^ 32.
Proof.
  induction infos as [|gi rest IH]; intros n w arr n' w' H Hn.
  - cbn [record_groups] in H. inversion H; subst. cbn [map sum_list fold_right].
    rewrite Z.add_0_r, Z.mod_small; lia.
  - cbn [record_groups] in H.
    bind_inv H as w1 HL. bind_inv H as [[arr0 n0] w0] Hrec.
    inversion H; subst. clear H. cbn [map sum_list fold_right nr_active].
    rewrite (IH _ _ _ _ _ Hrec).
    + unfold to_DWORD, wrap, DWORD_BITS. fold (sum_list (map nr_active arr0)).
      rewrite Zplus_mod_idemp_l. f_equal. lia.
    + apply (wrap_range 32). lia.
Qed.

(** X4.  The group discovery adds to [g_nProcessors], it does not set it:
    after an [Initialize] that enables the groups, [g_nProcessors] is the
    value it had before plus the sum of the groups' numbers of active
    processors, modulo [2^32].  A second [Initialize] in the same process
    therefore counts every processor twice. *)
Theorem processors_accumulate b os st0 st :
  0 <= g_nProcessors st0 < 2 ^ 32 ->
  Initialize b os st0 = Ok (true, st) ->
  CanEnableGCCPUGroups st = true ->
  GetTotalProcessorCount st
  = (g_nProcessors st0 + sum_list (map nr_active (g_CPUGroupInfoArray st)))
    mod 2 ^ 32.
Proof.
  intros Hn HI Hen.
  apply Initialize_Ok in HI. destruct HI as (st1 & Hn0 & HI).
  destruct (InitCPUGroupInfo_enabled _ _ _ _ HI Hen)
    as (infos & arr1 & arr2 & w & Hrec & Hw & Harr & _).
  destruct (enabled_counts_positive _ _ _ _ _ _ Hrec Hw) as (Hmap & _).
  unfold GetTotalProcessorCount. rewrite Hen.
  rewrite Harr, assign_ranges_nr_active, Hmap, <- Hn0.
  eapply record_groups_sum_mod; [eassumption | lia].
Qed.

Lemma processors_accumulate_witness :
  Initialize amd64 (machine_with_groups [4; 6]) state_4_6
  = Ok (true,
        mkState (64, 4096, 65536) false true false 2 20
          [mkGroup 4 0 3 15 3 0; mkGroup 6 4 9 63 2 0])
  /\ GetTotalProcessorCount
       (mkState (64, 4096, 65536) false true false 2 20
          [mkGroup 4 0 3 15 3 0; mkGroup 6 4 9 63 2 0])
     = (10 + 10) mod 2 ^ 32.
Proof.
  split; [reflexivity|].
  apply (processors_accumulate amd64 (machine_with_groups [4; 6]) state_4_6).
  - vm_compute. split; [discriminate | reflexivity].
  - reflexivity.
  - reflexivity.
Defined.

(** The test [m != 0 && (m & (m - 1)) == 0] holds of the masks with
    exactly one bit. *)
Lemma one_bit_test m :
  0 <= m ->
  negb (m =? 0) && (Z.land m (m - 1) =? 0) = (popcount m =? 1).
Proof.
  intros Hm. destruct m as [|p|p]; [reflexivity | | lia].
  cbn [Z.eqb negb andb popcount].
  pose proof (popcount_clear_lowest p) as Hc.
  pose proof (land_le_l (Zpos p) (Zpos p - 1) ltac:(lia)) as Hl.
  destruct (Z.eqb_spec (Z.land (Zpos p) (Zpos p - 1)) 0) as [E|E].
  - rewrite E in Hc. cbn [popcount] in Hc.
    symmetry. apply Z.eqb_eq. lia.
  - destruct (Z.land (Zpos p) (Zpos p - 1)) as [|q|q]; [contradiction | | lia].
    cbn [popcount] in Hc. pose proof (popcount_pos_positive q).
    symmetry. apply Z.eqb_neq. lia.
Qed.

Lemma detect_single_processor_flag os st :
  (forall p s, GetProcessAffinityMask os = Some (p, s) -> 0 <= p /\ 0 <= s) ->
  g_fHadSingleProcessorAtStartup (detect_single_processor os st)
  = g_fHadSingleProcessorAtStartup st
    || affinitized_to_one (GetProcessAffinityMask os).
Proof.
  intros Hm. unfold detect_single_processor, affinitized_to_one.
  destruct (GetProcessAffinityMask os) as [[p s]|]; [|rewrite orb_false_r; reflexivity].
  destruct (Hm p s eq_refl) as (Hp & Hs).
  rewrite one_bit_test by (apply land_le_l; lia).
  destruct (popcount (Z.land p s) =? 1).
  - cbn [set_fHadSingleProcessorAtStartup g_fHadSingleProcessorAtStartup].
    rewrite orb_true_r. reflexivity.
  - rewrite orb_false_r. reflexivity.
Qed.

Lemma InitCPUGroupInfoArray_flag b os st ok st' :
  InitCPUGroupInfoArray b os st = Ok (ok, st') ->
  g_fHadSingleProcessorAtStartup st' = g_fHadSingleProcessorAtStartup st
  /\ g_fEnableGCNumaAware st' = g_fEnableGCNumaAware st.
Proof.
  unfold InitCPUGroupInfoArray.
  destruct (TARGET_64 b); [|intros E; inversion E; auto].
  destruct (_ && _); [intros E; inversion E; auto|].
  intros E. bind_inv E as u Hu.
  destruct (alloc_bBuffer os); cbn [negb] in E; [|inversion E; auto].
  destruct (filling os) as [records|]; [|inversion E; auto].
  destruct (alloc_CPUGroupInfoArray os); cbn [negb] in E.
  - bind_inv E as infos Hi. bind_inv E as [[arr n] w] Hr. bind_inv E as arr' Ha.
    inversion E; subst. destruct (find _ records); auto.
  - inversion E; subst. destruct (find _ records); auto.
Qed.

(** X5.  [g_fHadSingleProcessorAtStartup] is never cleared.  In a 32-bit
    build, and in a 64-bit build whose group discovery ran to its end,
    [InitCPUGroupInfo] sets it exactly when process mask AND system mask
    has one bit.  In a 64-bit build with GCCpuGroup configured off, or
    whose discovery reported failure, the early [return] skips the test
    and the flag keeps its value even on a single processor. *)
Theorem startup_single_processor_flag b os st st' :
  (forall p s, GetProcessAffinityMask os = Some (p, s) -> 0 <= p /\ 0 <= s) ->
  InitCPUGroupInfo b os st = Ok st' ->
  let old := g_fHadSingleProcessorAtStartup st in
  let detected := old || affinitized_to_one (GetProcessAffinityMask os) in
  (old = true -> g_fHadSingleProcessorAtStartup st' = true)
  /\ (TARGET_64 b = false -> g_fHadSingleProcessorAtStartup st' = detected)
  /\ (TARGET_64 b = true -> GetGCCpuGroup os = false ->
      g_fHadSingleProcessorAtStartup st' = old)
  /\ (forall ok st1,
        TARGET_64 b = true -> GetGCCpuGroup os = true ->
        InitCPUGroupInfoArray b os (set_fEnableGCCPUGroups st false) = Ok (ok, st1) ->
        g_fHadSingleProcessorAtStartup st' = if ok then detected else old).
Proof.
  intros Hm H. cbn zeta.
  assert (Hcases :
    (TARGET_64 b = false
     /\ g_fHadSingleProcessorAtStartup st'
        = g_fHadSingleProcessorAtStartup st
          || affinitized_to_one (GetProcessAffinityMask os))
    \/ (TARGET_64 b = true /\ GetGCCpuGroup os = false
        /\ g_fHadSingleProcessorAtStartup st' = g_fHadSingleProcessorAtStartup st)
    \/ (TARGET_64 b = true /\ GetGCCpuGroup os = true
        /\ exists ok st1,
             InitCPUGroupInfoArray b os (set_fEnableGCCPUGroups st false) = Ok (ok, st1)
             /\ g_fHadSingleProcessorAtStartup st'
                = if ok then g_fHadSingleProcessorAtStartup st
                             || affinitized_to_one (GetProcessAffinityMask os)
                  else g_fHadSingleProcessorAtStartup st)).
  { unfold InitCPUGroupInfo in H.
    destruct (TARGET_64 b) eqn:Ht.
    2:{ left. split; [reflexivity|]. inversion H.
        rewrite detect_single_processor_flag by assumption. reflexivity. }
    right. destruct (GetGCCpuGroup os) eqn:Hc; cbn [negb] in H.
    2:{ left. inversion H. auto. }
    right. split; [reflexivity|]. split; [reflexivity|].
    bind_inv H as [ok st1] HA. exists ok, st1. split; [exact HA|].
    apply InitCPUGroupInfoArray_flag in HA. destruct HA as (HA & _).
    cbn [set_fEnableGCCPUGroups g_fHadSingleProcessorAtStartup] in HA.
    destruct ok; cbn [negb] in H; [|inversion H; subst; exact HA].
    bind_inv H as [ok2 st2] HR.
    unfold InitCPUGroupInfoRange in HR. rewrite Ht in HR.
    destruct (_ <=? _); [discriminate|].
    bind_inv HR as arr Harr. inversion HR; subst ok2 st2. cbn [negb] in H.
    inversion H. rewrite detect_single_processor_flag by assumption.
    cbn [set_fEnableGCCPUGroups set_CPUGroupInfoArray g_fHadSingleProcessorAtStartup].
    rewrite HA. reflexivity. }
  split; [|split; [|split]].
  - intros Ho.
    destruct Hcases as [(_ & E)|[(_ & _ & E)|(_ & _ & ok & st1 & _ & E)]];
      rewrite E, ?Ho; try reflexivity.
    destruct ok; rewrite ?Ho; reflexivity.
  - intros Ht.
    destruct Hcases as [(_ & E)|[(Ht' & _)|(Ht' & _)]]; [exact E | congruence ..].
  - intros Ht Hc.
    destruct Hcases as [(Ht' & _)|[(_ & _ & E)|(_ & Hc' & _)]];
      [congruence | exact E | congruence].
  - intros ok st1 Ht Hc HA.
    destruct Hcases as [(Ht' & _)|[(_ & Hc' & _)|(_ & _ & ok' & st1' & HA' & E)]];
      [congruence | congruence |].
    rewrite HA in HA'. inversion HA'; subst. exact E.
Qed.

Lemma startup_single_processor_flag_witness :
  g_fHadSingleProcessorAtStartup (mkState (0, 0, 0) false false true 0 0 [])
  = false || affinitized_to_one (Some (4, 15)).
Proof.
  destruct (startup_single_processor_flag x86 machine_affinitized_to_one initial
              (mkState (0, 0, 0) false false true 0 0 []))
    as (_ & H & _).
  - intros p s E. inversion E; subst. lia.
  - reflexivity.
  - apply H. reflexivity.
Defined.

End StartupFlags.

(** ** Virtual memory and NUMA *)

Section VirtualMemoryFacts.
Import VirtualMemory.

Lemma popcount_zero m : 0 <= m -> popcount m = 0 -> m = 0.
Proof.
  intros Hm H. destruct m as [|p|p]; [reflexivity | | lia].
  cbn [popcount] in H. pose proof (popcount_pos_positive p). lia.
Qed.

Lemma popcount_pow2 (k : nat) : popcount (2 ^ Z.of_nat k) = 1.
Proof.
  induction k as [|k IH]; [reflexivity|].
  rewrite Nat2Z.inj_succ, Z.pow_succ_r by lia.
  rewrite popcount_double; [exact IH|].
  apply Z.pow_nonneg. lia.
Qed.

Lemma popcount_one_pow2 p :
  popcount_pos p = 1 -> exists k : nat, Zpos p = 2 ^ Z.of_nat k.
Proof.
  induction p as [q IH|q IH|]; cbn [popcount_pos]; intros H.
  - pose proof (popcount_pos_positive q). lia.
  - destruct (IH H) as (k & Hk). exists (S k).
    rewrite Nat2Z.inj_succ, Z.pow_succ_r by lia. lia.
  - exists 0%nat. reflexivity.
Qed.

(** The alignments the first assertion of [VirtualReserve] lets pass. *)
Lemma alignment_test b alignment :
  0 <= alignment <= UINTPTR_MAX b ->
  (Z.land alignment (to_size_t b (alignment - 1)) =? 0) = true
  <-> alignment = 0 \/ exists k : nat, alignment = 2 ^ Z.of_nat k.
Proof.
  intros Ha. destruct (Z.eq_dec alignment 0) as [->|Hnz].
  - rewrite Z.land_0_l. split; [left; reflexivity | reflexivity].
  - rewrite to_size_t_small by lia.
    pose proof (one_bit_test alignment ltac:(lia)) as Ht.
    destruct (Z.eqb_spec alignment 0) as [|_]; [contradiction|].
    cbn [negb andb] in Ht. rewrite Ht. rewrite Z.eqb_eq.
    split.
    + intros H1. right. destruct alignment as [|p|p]; [contradiction | | lia].
      apply popcount_one_pow2. exact H1.
    + intros [E|(k & ->)]; [contradiction | apply popcount_pow2].
Qed.

(** X6.  [VirtualReserve] passes its two assertions exactly for an
    alignment of 0 or a power of two up to 65536 ([2^16]); then it makes
    one call, [VirtualAlloc] with a null address, and asks for write watch
    exactly when [flags] has the write-watch bit.  Every other alignment
    ends in the assertion, before any call. *)
Theorem reserve_accepts_powers_of_two WriteWatch b os size alignment flags :
  0 <= alignment <= UINTPTR_MAX b ->
  let memFlags :=
    if negb (Z.land flags WriteWatch =? 0)
    then Z.lor MEM_RESERVE MEM_WRITE_WATCH else MEM_RESERVE in
  (alignment = 0 \/ (exists k : nat, (k <= 16)%nat /\ alignment = 2 ^ Z.of_nat k) ->
   VirtualReserve WriteWatch b os size alignment flags
   = Ok (VirtualAlloc os 0 size memFlags PAGE_READWRITE,
         [CallVirtualAlloc 0 size memFlags PAGE_READWRITE]))
  /\ (~ (alignment = 0 \/ exists k : nat, (k <= 16)%nat /\ alignment = 2 ^ Z.of_nat k) ->
      VirtualReserve WriteWatch b os size alignment flags = Fault AssertionFailed).
Proof.
  intros Ha memFlags. unfold VirtualReserve. fold memFlags.
  pose proof (alignment_test b alignment Ha) as Ht.
  assert (Hpow : forall k : nat, 2 ^ Z.of_nat k <= 65536 <-> (k <= 16)%nat).
  { intros k. change 65536 with (2 ^ Z.of_nat 16). split; intros H.
    - apply Z.pow_le_mono_r_iff in H; lia.
    - apply Z.pow_le_mono_r; lia. }
  split.
  - intros Hok.
    assert (H1 : (Z.land alignment (to_size_t b (alignment - 1)) =? 0) = true).
    { apply Ht. destruct Hok as [E|(k & _ & E)]; [left; exact E | right; eauto]. }
    assert (H2 : (alignment <=? 65536) = true).
    { apply Z.leb_le. destruct Hok as [->|(k & Hk & ->)]; [lia | apply Hpow; exact Hk]. }
    rewrite H1, H2. reflexivity.
  - intros Hbad.
    destruct (Z.land alignment (to_size_t b (alignment - 1)) =? 0) eqn:H1;
      [|reflexivity].
    destruct (Z.leb_spec alignment 65536) as [H2|H2]; [|reflexivity].
    exfalso. apply Hbad.
    destruct (proj1 Ht eq_refl) as [E|(k & E)]; [left; exact E|].
    right. exists k. split; [|exact E]. apply Hpow. lia.
Qed.

Lemma reserve_accepts_powers_of_two_witness :
  VirtualReserve 1 amd64 (mkOS (fun _ _ _ _ => 65536) (fun _ _ _ _ _ => 0)
                            (fun _ _ _ => true) (fun _ _ => true) (fun _ => None))
    4096 4096 1
  = Ok (65536,
        [CallVirtualAlloc 0 4096 (Z.lor MEM_RESERVE MEM_WRITE_WATCH) PAGE_READWRITE]).
Proof.
  destruct (reserve_accepts_powers_of_two 1 amd64
              (mkOS (fun _ _ _ _ => 65536) (fun _ _ _ _ _ => 0)
                 (fun _ _ _ => true) (fun _ _ => true) (fun _ => None))
              4096 4096 1) as (H & _).
  - vm_compute. split; discriminate.
  - apply H. right. exists 12%nat. split; [lia | reflexivity].
Defined.

(** X7.  [SupportsWriteWatch] never ends in an assertion: it reserves one
    allocation granule with alignment 0, returns whether it got one, and
    releases the granule it got with [VirtualFree(mem, 0, MEM_RELEASE)];
    when it got none it makes no second call. *)
Theorem write_watch_probe_releases WriteWatch b st os :
  let '(_, _, granule) := Topology.g_SystemInfo st in
  let memFlags :=
    if negb (WriteWatch =? 0)
    then Z.lor MEM_RESERVE MEM_WRITE_WATCH else MEM_RESERVE in
  let mem := VirtualAlloc os 0 granule memFlags PAGE_READWRITE in
  SupportsWriteWatch WriteWatch b st os
  = Ok (negb (mem =? 0),
        CallVirtualAlloc 0 granule memFlags PAGE_READWRITE
        :: if negb (mem =? 0) then [CallVirtualFree mem 0 MEM_RELEASE] else []).
Proof.
  unfold SupportsWriteWatch, VirtualReserve, VirtualRelease.
  destruct (Topology.g_SystemInfo st) as [[n ps] granule].
  rewrite Z.land_0_l, Z.land_diag. cbn [Z.eqb assert bind Z.leb Z.compare].
  destruct (negb (VirtualAlloc os 0 granule _ PAGE_READWRITE =? 0)); reflexivity.
Qed.

(** X8.  The value [VirtualReset] returns is the outcome of the reset
    alone: it calls [VirtualUnlock] only after a successful reset with
    [unlock] set, and does not look at what [VirtualUnlock] answers, so a
    failed unlock is not reported. *)
Theorem reset_ignores_unlock_result os os' address size unlock :
  VirtualAlloc os' address size MEM_RESET PAGE_READWRITE
  = VirtualAlloc os address size MEM_RESET PAGE_READWRITE ->
  VirtualReset os' address size unlock = VirtualReset os address size unlock
  /\ fst (VirtualReset os address size unlock)
     = negb (VirtualAlloc os address size MEM_RESET PAGE_READWRITE =? 0)
  /\ (In (CallVirtualUnlock address size) (snd (VirtualReset os address size unlock))
      <-> fst (VirtualReset os address size unlock) = true /\ unlock = true).
Proof.
  intros E. unfold VirtualReset. rewrite E. cbn [fst snd].
  split; [reflexivity|]. split; [reflexivity|].
  destruct (negb (VirtualAlloc os address size MEM_RESET PAGE_READWRITE =? 0)),
    unlock; cbn [andb In]; split;
    try (intros [H|[H|[]]]; try discriminate H; auto; fail);
    try (intros [H|[]]; discriminate H);
    try (intros (H1 & H2); discriminate);
    try (intros _; right; left; reflexivity).
Qed.

Lemma reset_ignores_unlock_result_witness :
  VirtualReset (mkOS (fun _ _ _ _ => 65536) (fun _ _ _ _ _ => 0)
                  (fun _ _ _ => true) (fun _ _ => false) (fun _ => None))
    65536 4096 true
  = VirtualReset (mkOS (fun _ _ _ _ => 65536) (fun _ _ _ _ _ => 0)
                    (fun _ _ _ => true) (fun _ _ => true) (fun _ => None))
      65536 4096 true.
Proof.
  apply (reset_ignores_unlock_result
           (mkOS (fun _ _ _ _ => 65536) (fun _ _ _ _ _ => 0)
              (fun _ _ _ => true) (fun _ _ => true) (fun _ => None))
           (mkOS (fun _ _ _ _ => 65536) (fun _ _ _ _ _ => 0)
              (fun _ _ _ => true) (fun _ _ => false) (fun _ => None))
           65536 4096 true).
  reflexivity.
Defined.

Lemma InitCPUGroupInfo_numa b os st st' :
  Topology.InitCPUGroupInfo b os st = Ok st' ->
  Topology.g_fEnableGCNumaAware st' = Topology.g_fEnableGCNumaAware st.
Proof.
  unfold Topology.InitCPUGroupInfo. intros H.
  assert (Hd : forall s, Topology.g_fEnableGCNumaAware (Topology.detect_single_processor os s)
                         = Topology.g_fEnableGCNumaAware s).
  { intros s. unfold Topology.detect_single_processor.
    destruct (Topology.GetProcessAffinityMask os) as [[p m]|]; [|reflexivity].
    destruct (_ && _); reflexivity. }
  destruct (TARGET_64 b) eqn:Ht.
  2:{ inversion H. rewrite Hd. reflexivity. }
  destruct (Topology.GetGCCpuGroup os); cbn [negb] in H; [|inversion H; reflexivity].
  bind_inv H as [ok st1] HA.
  apply InitCPUGroupInfoArray_flag in HA. destruct HA as (_ & HA).
  destruct ok; cbn [negb] in H; [|inversion H; subst; exact HA].
  bind_inv H as [ok2 st2] HR.
  unfold Topology.InitCPUGroupInfoRange in HR. rewrite Ht in HR.
  destruct (_ <=? _); [discriminate|].
  bind_inv HR as arr Harr. inversion HR; subst ok2 st2. cbn [negb] in H.
  inversion H. rewrite Hd. exact HA.
Qed.

(** X9.  After [Initialize], NUMA awareness is on exactly when GCNumaAware
    is configured and the highest NUMA node number is read and is not 0;
    the group discovery does not touch it.  With NUMA awareness off, a
    commit for a given node and [GetNumaProcessorNode] end in the
    assertion before any call; a commit with [NUMA_NODE_UNDEFINED] is a
    plain [VirtualAlloc] either way. *)
Theorem numa_gates_node_commit b os st0 st :
  Topology.Initialize b os st0 = Ok (true, st) ->
  CanEnableGCNumaAware st
  = Topology.GetGCNumaAware os
    && match Topology.GetNumaHighestNodeNumber os with
       | Some highest => negb (highest =? 0)
       | None => false
       end
  /\ (CanEnableGCNumaAware st = false ->
      forall UNDEFINED vos address size node proc_no,
        node <> UNDEFINED ->
        VirtualCommit UNDEFINED st vos address size node = Fault AssertionFailed
        /\ GetNumaProcessorNode st vos proc_no = Fault AssertionFailed)
  /\ (forall UNDEFINED vos address size,
        VirtualCommit UNDEFINED st vos address size UNDEFINED
        = Ok (negb (VirtualAlloc vos address size MEM_COMMIT PAGE_READWRITE =? 0),
              [CallVirtualAlloc address size MEM_COMMIT PAGE_READWRITE])).
Proof.
  unfold Topology.Initialize. intros H.
  bind_inv H as u Hu. bind_inv H as st' HI. inversion H; subst st'. clear H.
  apply InitCPUGroupInfo_numa in HI.
  unfold CanEnableGCNumaAware. split; [|split].
  - rewrite HI. unfold Topology.InitNumaNodeInfo.
    destruct (Topology.GetGCNumaAware os); cbn [negb andb]; [|reflexivity].
    destruct (Topology.GetNumaHighestNodeNumber os) as [h|]; [|reflexivity].
    destruct (h =? 0); reflexivity.
  - intros Hoff U vos address size node proc_no Hn.
    unfold VirtualCommit, GetNumaProcessorNode. rewrite Hoff.
    destruct (Z.eqb_spec node U); [contradiction|]. split; reflexivity.
  - intros U vos address size. unfold VirtualCommit. rewrite Z.eqb_refl.
    reflexivity.
Qed.

Lemma numa_gates_node_commit_witness :
  CanEnableGCNumaAware state_4_6
  = false && match (None : option Z) with
             | Some highest => negb (highest =? 0)
             | None => false
             end.
Proof.
  apply (numa_gates_node_commit amd64 (machine_with_groups [4; 6])
           Topology.initial state_4_6).
  reflexivity.
Defined.

End VirtualMemoryFacts.

(** ** The memory limit and the memory status *)

Section MemoryLimitBounds.
Import MemoryBudget.

Lemma to_size_t_le b x : 0 <= x -> 0 <= to_size_t b x <= x.
Proof.
  intros Hx. unfold to_size_t, wrap.
  assert (0 < 2 ^ PTR_BITS b).
  { apply Z.pow_pos_nonneg; [lia|]. unfold PTR_BITS. destruct (BIT64 b); lia. }
  split; [apply Z.mod_pos_bound; lia | apply Z.mod_le; lia].
Qed.

Lemma smallest_job_limit_nonneg b info :
  Forall (fun q => 0 <= q) (quotas_set info) -> 0 <= smallest_job_limit b info.
Proof.
  pose proof (UINTPTR_MAX_ge b).
  unfold quotas_set, smallest_job_limit.
  destruct (has_flag _ JOB_OBJECT_LIMIT_JOB_MEMORY),
           (has_flag _ JOB_OBJECT_LIMIT_PROCESS_MEMORY),
           (has_flag _ JOB_OBJECT_LIMIT_WORKINGSET);
    cbn [app]; intros Hr;
    repeat match goal with
           | H : Forall _ (_ :: _) |- _ => inversion H; subst; clear H
           end; lia.
Qed.

(** Case analysis on the tests of a goal, keeping what each test says. *)
Ltac split_tests :=
  repeat match goal with
         | |- context [if negb (?a =? ?b) then _ else _] =>
             destruct (Z.eqb_spec a b); cbn [negb]
         | |- context [if ?a =? ?b then _ else _] => destruct (Z.eqb_spec a b)
         | |- context [if ?a <? ?b then _ else _] => destruct (Z.ltb_spec a b)
         | |- context [if ?c then _ else _] => destruct c eqn:?
         end.

(** The value a computing call publishes lies between 0 and the total
    physical memory. *)
Lemma restricted_limit_within_memory b os st ms v st' :
  g_RestrictedPhysicalMemoryLimit st = UINTPTR_MAX b ->
  GlobalMemoryStatusEx os = Some ms ->
  0 <= ullAvailPhys ms <= ullTotalPhys ms ->
  0 <= ullTotalVirtual ms ->
  (forall info, QueryInformationJobObject os = Some info ->
                Forall (fun q => 0 <= q) (quotas_set info)) ->
  GetRestrictedPhysicalMemoryLimit b os st = Ok (v, st') ->
  0 <= v <= ullTotalPhys ms.
Proof.
  intros Hs Hms Hp Hv Hq. unfold GetRestrictedPhysicalMemoryLimit.
  rewrite Hs, Z.eqb_refl. cbn [negb].
  pose proof (to_size_t_le b (ullTotalVirtual ms) Hv) as Htv.
  unfold before_exit, after_exit, GetProcessMemoryLoad.
  destruct os as [ll gp1 ij gp2 gp3 qi gm]. cbn in Hms, Hq. subst gm.
  assert (HL : forall info, qi = Some info ->
                 0 <= to_size_t b (Z.min (smallest_job_limit b info) (ullTotalPhys ms))
                   <= ullTotalPhys ms).
  { intros info E. pose proof (smallest_job_limit_nonneg b info (Hq info E)).
    pose proof (to_size_t_le b (Z.min (smallest_job_limit b info) (ullTotalPhys ms))
                  ltac:(lia)). lia. }
  destruct ll, gp1, ij as [[|]|], gp2, gp3, qi as [info|];
    try specialize (HL info eq_refl);
    cbn [LoadLibraryEx_kernel32 GetProcAddress_IsProcessInJob IsProcessInJob
         GetProcAddress_K32GetProcessMemoryInfo
         GetProcAddress_QueryInformationJobObject QueryInformationJobObject
         GlobalMemoryStatusEx negb bind GCGetProcessMemoryInfo
         set_GCGetProcessMemoryInfo emit
         job_physical_memory_limit total_virtual total_physical hinstKernel32];
    split_tests;
    cbn [bind job_physical_memory_limit total_virtual total_physical hinstKernel32
         negb];
    split_tests;
    cbn [bind job_physical_memory_limit total_virtual total_physical hinstKernel32
         negb VolatileStore g_RestrictedPhysicalMemoryLimit];
    split_tests;
    cbn [bind job_physical_memory_limit total_virtual total_physical hinstKernel32
         negb VolatileStore g_RestrictedPhysicalMemoryLimit];
    intros E; inversion E; subst;
    cbn [job_physical_memory_limit total_virtual total_physical hinstKernel32] in *;
    try discriminate; lia.
Qed.

End MemoryLimitBounds.

Section MemoryShapes.
Import MemoryBudget.

Lemma frees_emit st e :
  frees (events (emit st e))
  = match e with CallFreeLibrary => S (frees (events st)) | _ => frees (events st) end.
Proof. destruct e; reflexivity. Qed.

(** How the code reaches [exit]: with no limit computed, or with the limit
    of a readable job. *)
Lemma before_exit_shape b os st l st1 :
  before_exit b os st = Ok (l, st1) ->
  g_RestrictedPhysicalMemoryLimit st1 = g_RestrictedPhysicalMemoryLimit st
  /\ g_UseRestrictedVirtualMemory st1 = g_UseRestrictedVirtualMemory st
  /\ frees (events st1) = frees (events st)
  /\ hinstKernel32 l = LoadLibraryEx_kernel32 os
  /\ (hinstKernel32 l = false -> GCGetProcessMemoryInfo st1 = GCGetProcessMemoryInfo st)
  /\ ((job_physical_memory_limit l = UINTPTR_MAX b
       /\ total_virtual l = 0 /\ total_physical l = 0)
      \/ (exists info ms,
            QueryInformationJobObject os = Some info
            /\ GlobalMemoryStatusEx os = Some ms
            /\ l = mkLocals
                     (to_size_t b (Z.min (smallest_job_limit b info) (ullTotalPhys ms)))
                     (ullTotalVirtual ms) (ullAvailPhys ms) true
            /\ GCGetProcessMemoryInfo st1 = true)).
Proof.
  unfold before_exit, GetProcessMemoryLoad.
  destruct os as [ll gp1 ij gp2 gp3 qi gm].
  destruct ll, gp1, ij as [[|]|], gp2, gp3, qi as [info|], gm as [ms|];
    cbn; intros E; try discriminate E; inversion E; subst; cbn;
    repeat split; auto; try discriminate;
    right; eexists; eexists; repeat split; reflexivity.
Qed.

(** What happens from [exit] on. *)
Lemma after_exit_shape b os l st v st' :
  after_exit b os l st = Ok (v, st') ->
  let unset := job_physical_memory_limit l =? UINTPTR_MAX b in
  let limit := if unset then 0 else job_physical_memory_limit l in
  let handle := if unset then false else hinstKernel32 l in
  exists tv tp,
    ((total_virtual l <> 0 /\ tv = total_virtual l /\ tp = total_physical l)
     \/ (total_virtual l = 0
         /\ exists ms, GlobalMemoryStatusEx os = Some ms
                       /\ tv = ullTotalVirtual ms /\ tp = ullTotalPhys ms))
    /\ let by_virtual := tv <? (if limit =? 0 then tp else limit) in
       let freed := (unset && hinstKernel32 l) || (by_virtual && handle) in
       v = (if by_virtual then to_size_t b tv else limit)
       /\ g_RestrictedPhysicalMemoryLimit st' = v
       /\ g_UseRestrictedVirtualMemory st'
          = by_virtual || g_UseRestrictedVirtualMemory st
       /\ GCGetProcessMemoryInfo st'
          = (if freed then false else GCGetProcessMemoryInfo st)
       /\ frees (events st')
          = (frees (events st) + if freed then 1 else 0)%nat.
Proof.
  unfold after_exit, GetProcessMemoryLoad.
  destruct l as [j tv0 tp0 h]. cbn [job_physical_memory_limit total_virtual
    total_physical hinstKernel32].
  destruct (j =? UINTPTR_MAX b) eqn:Ej.
  - (* no limit: the library goes *)
    destruct h; cbn [job_physical_memory_limit total_virtual total_physical
                     hinstKernel32 andb orb];
      (destruct (Z.eqb_spec tv0 0) as [E0|E0];
       [ destruct (GlobalMemoryStatusEx os) as [ms|] eqn:Hms;
         [|cbn; intros E; discriminate E];
         cbn [bind job_physical_memory_limit total_virtual total_physical
              hinstKernel32 Z.eqb negb];
         intros E; exists (ullTotalVirtual ms), (ullTotalPhys ms);
         (split; [right; split; [exact E0|]; exists ms; auto|]);
         cbn zeta; destruct (ullTotalVirtual ms <? ullTotalPhys ms);
         cbn [andb orb] in *; inversion E; subst; cbn;
         repeat split; try reflexivity; lia
       | cbn [bind job_physical_memory_limit total_virtual total_physical
              hinstKernel32 Z.eqb negb];
         intros E; exists tv0, tp0;
         (split; [left; auto|]);
         cbn zeta; destruct (tv0 <? tp0);
         cbn [andb orb] in *; inversion E; subst; cbn;
         repeat split; try reflexivity; lia ]).
  - cbn [job_physical_memory_limit total_virtual total_physical hinstKernel32
         andb orb].
    destruct (Z.eqb_spec tv0 0) as [E0|E0];
      [ destruct (GlobalMemoryStatusEx os) as [ms|] eqn:Hms;
        [|cbn; intros E; discriminate E];
        cbn [bind job_physical_memory_limit total_virtual total_physical
             hinstKernel32];
        intros E; exists (ullTotalVirtual ms), (ullTotalPhys ms);
        (split; [right; split; [exact E0|]; exists ms; auto|])
      | cbn [bind job_physical_memory_limit total_virtual total_physical
             hinstKernel32];
        intros E; exists tv0, tp0; (split; [left; auto|]) ];
      cbn zeta; revert E;
      destruct (j =? 0);
      cbn [negb job_physical_memory_limit total_virtual total_physical
           hinstKernel32];
      match goal with
      | |- context [if ?a <? ?c then _ else _] => destruct (a <? c)
      end;
      destruct h; cbn [andb orb];
      intros E; inversion E; subst; cbn;
      repeat split; try reflexivity; lia.
Qed.

End MemoryShapes.

Section MemoryStatusFacts.
Import MemoryBudget MemoryStatus.

(** X10.  [GetPhysicalMemoryLimit] never returns 0 and never more than the
    machine's total physical memory: whatever the job quotas and the
    virtual address space are, the first call returns a value in
    [1 .. ullTotalPhys]. *)
Theorem physical_limit_within_memory b os is_restricted st ms r flag st' :
  g_RestrictedPhysicalMemoryLimit st = UINTPTR_MAX b ->
  GlobalMemoryStatusEx os = Some ms ->
  0 <= ullAvailPhys ms <= ullTotalPhys ms ->
  0 <= ullTotalVirtual ms ->
  (forall info, QueryInformationJobObject os = Some info ->
                Forall (fun q => 0 <= q) (quotas_set info)) ->
  GetPhysicalMemoryLimit b os is_restricted st = Ok (r, flag, st') ->
  0 < r <= ullTotalPhys ms.
Proof.
  intros Hs Hms Hp Hv Hq H. unfold GetPhysicalMemoryLimit in H.
  bind_inv H as [v st1] HG.
  pose proof (restricted_limit_within_memory _ _ _ _ _ _ Hs Hms Hp Hv Hq HG) as Hb.
  destruct (Z.eqb_spec v 0) as [E|E]; cbn [negb] in H.
  - unfold GetProcessMemoryLoad in H. rewrite Hms in H. cbn [bind] in H.
    destruct (Z.eqb_spec (ullTotalPhys ms) 0) as [E0|E0]; cbn [negb assert bind] in H;
      [discriminate|]. inversion H; subst. lia.
  - inversion H; subst. lia.
Qed.

Lemma physical_limit_within_memory_witness :
  0 < 100 * MB <= ullTotalPhys (memory (1 * GB) (GB / 2) (128 * 1024 * GB)).
Proof.
  apply (physical_limit_within_memory amd64
           (job_machine job_100MB (memory (1 * GB) (GB / 2) (128 * 1024 * GB)))
           true (initial amd64) _ (100 * MB) (Some true) state_100MB_published).
  - reflexivity.
  - reflexivity.
  - vm_compute. split; discriminate.
  - vm_compute. discriminate.
  - intros info E. inversion E; subst. repeat constructor. vm_compute. discriminate.
  - vm_compute. reflexivity.
Defined.

(** X11.  [FreeLibrary] is called at most once by a computing call, and
    only on a library that was loaded; and, starting with the null
    [GCGetProcessMemoryInfo] of start-up, the pointer is not null
    afterwards exactly when kernel32 was loaded and has not been freed:
    it never points into a freed library. *)
Theorem library_pointer_never_dangles b os st v st' :
  g_RestrictedPhysicalMemoryLimit st = UINTPTR_MAX b ->
  GCGetProcessMemoryInfo st = false ->
  GetRestrictedPhysicalMemoryLimit b os st = Ok (v, st') ->
  (LoadLibraryEx_kernel32 os = false ->
   frees (events st') = frees (events st) /\ GCGetProcessMemoryInfo st' = false)
  /\ (LoadLibraryEx_kernel32 os = true ->
      frees (events st')
      = (frees (events st) + if GCGetProcessMemoryInfo st' then 0 else 1)%nat).
Proof.
  intros Hs Hp. unfold GetRestrictedPhysicalMemoryLimit.
  rewrite Hs, Z.eqb_refl. cbn [negb]. intros H.
  bind_inv H as [l st1] Hb.
  destruct (before_exit_shape _ _ _ _ _ Hb) as (_ & _ & Hf1 & Hh & Hp1 & Hcase).
  destruct (after_exit_shape _ _ _ _ _ _ H) as (tv & tp & _ & Hshape).
  cbn zeta in Hshape. destruct Hshape as (_ & _ & _ & Hptr & Hfr).
  rewrite Hf1 in Hfr. rewrite Hh in *.
  destruct (LoadLibraryEx_kernel32 os).
  - split; [discriminate|intros _].
    destruct Hcase as [(Hj & _)|(info & ms & _ & _ & Hl & Hp1')].
    + rewrite Hj, Z.eqb_refl in *. cbn [andb orb] in *.
      rewrite Hptr, Hfr. reflexivity.
    + rewrite Hp1' in Hptr. rewrite Hfr, Hptr.
      destruct (_ || _); reflexivity.
  - split; [intros _|discriminate].
    rewrite (Hp1 eq_refl), Hp in Hptr.
    rewrite andb_false_r in *.
    destruct (job_physical_memory_limit l =? UINTPTR_MAX b);
      rewrite ?andb_false_r in *; cbn [orb] in *.
    + split; [lia | rewrite Hptr; reflexivity].
    + split; [lia | rewrite Hptr; reflexivity].
Qed.

Lemma library_pointer_never_dangles_witness :
  frees (events state_100MB_published)
  = (frees (events (initial amd64))
     + if GCGetProcessMemoryInfo state_100MB_published then 0 else 1)%nat.
Proof.
  destruct (library_pointer_never_dangles amd64
              (job_machine job_100MB (memory (1 * GB) (GB / 2) (128 * 1024 * GB)))
              (initial amd64) (100 * MB) state_100MB_published)
    as (_ & H).
  - reflexivity.
  - reflexivity.
  - vm_compute. reflexivity.
  - apply H. reflexivity.
Defined.

(** A call of the resolver keeps the pointer in place, and where it
    returns a limit in force that is not the virtual one the pointer is
    not null. *)
Lemma resolver_keeps_pointer_in_place b os st v st' :
  pointer_in_place b st ->
  GetRestrictedPhysicalMemoryLimit b os st = Ok (v, st') ->
  pointer_in_place b st'
  /\ (v <> 0 -> g_UseRestrictedVirtualMemory st' = false ->
      GCGetProcessMemoryInfo st' = true).
Proof.
  intros Hinv. unfold GetRestrictedPhysicalMemoryLimit.
  destruct (Z.eqb_spec (g_RestrictedPhysicalMemoryLimit st) (UINTPTR_MAX b))
    as [Hs|Hs]; cbn [negb].
  2:{ intros E. inversion E; subst. split; [exact Hinv|].
      intros Hv Hu. destruct Hinv as [H|[H|[H|H]]]; congruence. }
  intros H. bind_inv H as [l st1] Hb.
  destruct (before_exit_shape _ _ _ _ _ Hb) as (_ & Hu1 & _ & _ & _ & Hcase).
  destruct (after_exit_shape _ _ _ _ _ _ H) as (tv & tp & _ & Hshape).
  cbn zeta in Hshape. destruct Hshape as (Hv & Hc & Hu & Hptr & _).
  assert (Hgoal : v <> 0 -> g_UseRestrictedVirtualMemory st' = false ->
                  GCGetProcessMemoryInfo st' = true).
  { intros Hnz Hoff. rewrite Hoff in Hu. symmetry in Hu.
    apply orb_false_iff in Hu. destruct Hu as (Hbv & _).
    rewrite Hbv in *. cbn [andb] in *. rewrite orb_false_r in Hptr.
    destruct Hcase as [(Hj & _)|(info & ms & _ & _ & Hl & Hp1)].
    - rewrite Hj, Z.eqb_refl in Hv. congruence.
    - destruct (job_physical_memory_limit l =? UINTPTR_MAX b); [congruence|].
      cbn [andb] in Hptr. congruence. }
  split; [|exact Hgoal].
  unfold pointer_in_place. rewrite Hc.
  destruct (Z.eq_dec v 0) as [E0|E0]; [auto|].
  destruct (g_UseRestrictedVirtualMemory st') eqn:Eu; [auto|].
  right. right. right. apply Hgoal; [exact E0 | reflexivity].
Qed.

Lemma system_figures_state os limit ml ap pf st r st' :
  system_figures os limit ml ap pf st = Returned (r, st') ->
  g_RestrictedPhysicalMemoryLimit st' = g_RestrictedPhysicalMemoryLimit st
  /\ g_UseRestrictedVirtualMemory st' = g_UseRestrictedVirtualMemory st
  /\ GCGetProcessMemoryInfo st' = GCGetProcessMemoryInfo st.
Proof.
  unfold system_figures, GetProcessMemoryLoad.
  destruct (GlobalMemoryStatusEx os) as [ms|]; [|discriminate].
  unfold emit. cbn [g_UseRestrictedVirtualMemory].
  destruct (g_UseRestrictedVirtualMemory st) eqn:Eu.
  - destruct (negb _); [discriminate|].
    destruct (store_load _ _ _); [|discriminate].
    intros E. inversion E; subst.
    cbn [g_RestrictedPhysicalMemoryLimit g_UseRestrictedVirtualMemory
         GCGetProcessMemoryInfo]. auto.
  - intros E. inversion E; subst.
    cbn [g_RestrictedPhysicalMemoryLimit g_UseRestrictedVirtualMemory
         GCGetProcessMemoryInfo]. auto.
Qed.

(** X12.  [GetMemoryStatus] never calls through a null
    [GCGetProcessMemoryInfo]: the start-up state has the pointer in
    place, every call of the resolver and of [GetMemoryStatus] keeps it in
    place, and with the pointer in place [GetMemoryStatus] does not make
    the null call, whatever the operating system answers. *)
Theorem memory_status_never_calls_null b os working_set ml ap pf st :
  pointer_in_place b st ->
  pointer_in_place b (initial b)
  /\ GetMemoryStatus b os working_set ml ap pf st <> NullCall
  /\ (forall r st',
        GetMemoryStatus b os working_set ml ap pf st = Returned (r, st') ->
        pointer_in_place b st')
  /\ (forall v st',
        GetRestrictedPhysicalMemoryLimit b os st = Ok (v, st') ->
        pointer_in_place b st').
Proof.
  intros Hinv. split; [left; reflexivity|].
  assert (Hsys : forall limit st1 r st',
            pointer_in_place b st1 ->
            system_figures os limit ml ap pf st1 = Returned (r, st') ->
            pointer_in_place b st').
  { intros limit st1 r st' H1 E.
    destruct (system_figures_state _ _ _ _ _ _ _ _ E) as (Ec & Eu & Ep).
    unfold pointer_in_place. rewrite Ec, Eu, Ep. exact H1. }
  assert (Hnn : forall limit st1,
            system_figures os limit ml ap pf st1 <> NullCall).
  { intros limit st1. unfold system_figures.
    destruct (GetProcessMemoryLoad os st1) as [[ms s]|f]; [|discriminate].
    destruct (g_UseRestrictedVirtualMemory s); [|discriminate].
    destruct (negb _); [discriminate|].
    destruct (store_load _ _ _); discriminate. }
  unfold GetMemoryStatus.
  destruct (GetRestrictedPhysicalMemoryLimit b os st) as [[v st1]|f] eqn:HG.
  2:{ split; [discriminate|]. split; intros; discriminate. }
  destruct (resolver_keeps_pointer_in_place _ _ _ _ _ Hinv HG) as (Hinv1 & Hptr).
  split; [|split].
  - destruct (Z.eqb_spec v 0) as [E|E]; cbn [negb]; [apply Hnn|].
    destruct (g_UseRestrictedVirtualMemory st1) eqn:Eu; cbn [negb]; [apply Hnn|].
    rewrite (Hptr E eq_refl).
    destruct working_set as [ws|]; [|apply Hnn].
    destruct (store_load ml ws v); discriminate.
  - intros r st'.
    destruct (Z.eqb_spec v 0) as [E|E]; cbn [negb]; [apply Hsys; exact Hinv1|].
    destruct (g_UseRestrictedVirtualMemory st1) eqn:Eu; cbn [negb];
      [apply Hsys; exact Hinv1|].
    rewrite (Hptr E eq_refl).
    destruct working_set as [ws|]; [|apply Hsys; exact Hinv1].
    destruct (store_load ml ws v); [|discriminate].
    intros E'. inversion E'; subst. exact Hinv1.
  - intros v' st' E. inversion E; subst. exact Hinv1.
Qed.

Lemma memory_status_never_calls_null_witness :
  GetMemoryStatus amd64
    (job_machine job_100MB (memory (1 * GB) (GB / 2) (128 * 1024 * GB)))
    (Some (30 * MB)) true true true (initial amd64)
  <> NullCall.
Proof.
  apply (memory_status_never_calls_null amd64
           (job_machine job_100MB (memory (1 * GB) (GB / 2) (128 * 1024 * GB)))
           (Some (30 * MB)) true true true (initial amd64)).
  left. reflexivity.
Defined.

End MemoryStatusFacts.

(** ** Floating point: the load is a percentage *)

Section FloatingPoint.
Import SpecFloat MemoryStatus.

Lemma digits2_pos_size p : digits2_pos p = Pos.size p.
Proof. induction p; simpl; congruence. Qed.

Lemma Zdigits2_bounds m :
  0 < m -> 0 < Zdigits2 m /\ 2 ^ (Zdigits2 m - 1) <= m < 2 ^ Zdigits2 m.
Proof.
  destruct m as [|p|p]; try lia. intros _. cbn [Zdigits2].
  rewrite digits2_pos_size. split; [lia|]. split.
  - pose proof (Pos.size_le p) as H.
    assert (E : Z.pos (2 ^ Pos.size p) = 2 ^ Z.pos (Pos.size p))
      by (rewrite Pos2Z.inj_pow; reflexivity).
    assert (Hp : (2 ^ Pos.size p <= p~0)%positive) by exact H.
    apply Pos2Z.pos_le_pos in Hp. rewrite E in Hp.
    rewrite Pos2Z.inj_xO in Hp.
    assert (E2 : 2 ^ Z.pos (Pos.size p) = 2 * 2 ^ (Z.pos (Pos.size p) - 1)).
    { rewrite <- Z.pow_succ_r by lia. f_equal. lia. }
    lia.
  - pose proof (Pos.size_gt p) as H.
    apply Pos2Z.pos_lt_pos in H. rewrite Pos2Z.inj_pow in H. exact H.
Qed.

Lemma Zdigits2_unique m k :
  0 < k -> 2 ^ (k - 1) <= m < 2 ^ k -> Zdigits2 m = k.
Proof.
  intros Hk Hm.
  assert (Hpos : 0 < m).
  { assert (0 < 2 ^ (k - 1)) by (apply Z.pow_pos_nonneg; lia). lia. }
  destruct (Zdigits2_bounds m Hpos) as (Hd & Hb).
  destruct (Z.lt_trichotomy (Zdigits2 m) k) as [H|[H|H]]; [|exact H|].
  - assert (2 ^ Zdigits2 m <= 2 ^ (k - 1)) by (apply Z.pow_le_mono_r; lia). lia.
  - assert (2 ^ k <= 2 ^ (Zdigits2 m - 1)) by (apply Z.pow_le_mono_r; lia). lia.
Qed.

Lemma shr_1_loc m r D :
  0 <= m -> 0 <= r < D ->
  shr_1 (shr_record_of_loc m (loc_of r D))
  = shr_record_of_loc (m / 2) (loc_of (r + D * (m mod 2)) (2 * D)).
Proof.
  intros Hm Hr.
  assert (Hdm : m = 2 * (m / 2) + m mod 2) by (apply Z.div_mod; lia).
  assert (Hmod : 0 <= m mod 2 < 2) by (apply Z.mod_pos_bound; lia).
  assert (Hcase : (m mod 2 = 0 /\ Z.even m = true) \/ (m mod 2 = 1 /\ Z.even m = false)).
  { rewrite Zmod_even. destruct (Z.even m); auto. }
  assert (Hshape : forall rb sb,
            shr_1 (Build_shr_record m rb sb)
            = Build_shr_record (m / 2) (negb (Z.even m)) (rb || sb)).
  { intros rb sb. destruct m as [|p|p]; [reflexivity| |lia].
    destruct p as [p|p|]; cbn [shr_1 Z.even negb].
    - f_equal. apply (Z.div_unique _ _ _ 1); [lia|].
      rewrite Pos2Z.inj_xI. reflexivity.
    - f_equal. apply (Z.div_unique _ _ _ 0); [lia|].
      rewrite Pos2Z.inj_xO. lia.
    - reflexivity. }
  unfold loc_of.
  destruct (Z.eqb_spec r 0) as [E0|E0].
  - subst r. cbn [shr_record_of_loc]. rewrite Hshape. cbn [orb].
    destruct Hcase as [(Hm0 & He)|(Hm1 & He)]; rewrite He; cbn [negb].
    + rewrite Hm0. replace (0 + D * 0) with 0 by lia. reflexivity.
    + rewrite Hm1. replace (0 + D * 1) with D by lia.
      destruct (Z.eqb_spec D 0); [lia|].
      replace (2 * D ?= 2 * D) with Eq by (symmetry; apply Z.compare_refl).
      reflexivity.
  - assert (Hs : forall c, shr_1 (shr_record_of_loc m (loc_Inexact c))
                           = Build_shr_record (m / 2) (negb (Z.even m)) true).
    { intros c. destruct c; cbn [shr_record_of_loc]; rewrite Hshape;
        cbn [orb]; reflexivity. }
    rewrite Hs.
    destruct Hcase as [(Hm0 & He)|(Hm1 & He)]; rewrite He; cbn [negb].
    + rewrite Hm0. replace (r + D * 0) with r by lia.
      destruct (Z.eqb_spec r 0); [lia|].
      assert (Hc : (2 * r ?= 2 * D) = Lt) by (apply Z.compare_lt_iff; lia).
      rewrite Hc. reflexivity.
    + rewrite Hm1. replace (r + D * 1) with (r + D) by lia.
      destruct (Z.eqb_spec (r + D) 0); [lia|].
      assert (Hc : (2 * (r + D) ?= 2 * D) = Gt) by (apply Z.compare_gt_iff; lia).
      rewrite Hc. reflexivity.
Qed.

Lemma shifted_1 m r D :
  0 <= m -> 0 <= r < D ->
  shifted 1 m r D (shr_1 (shr_record_of_loc m (loc_of r D))).
Proof.
  intros Hm Hr. exists (r + D * (m mod 2)).
  rewrite shr_1_loc by assumption.
  assert (Hdm : m = 2 * (m / 2) + m mod 2) by (apply Z.div_mod; lia).
  assert (Hmod : 0 <= m mod 2 < 2) by (apply Z.mod_pos_bound; lia).
  change (2 ^ 1) with 2. split; [reflexivity|]. split; nia.
Qed.

Lemma shifted_compose f g n1 n2 m r D :
  0 <= n1 -> 0 <= n2 -> 0 <= m -> 0 <= r < D ->
  (forall m r D, 0 <= m -> 0 <= r < D ->
     shifted n1 m r D (f (shr_record_of_loc m (loc_of r D)))) ->
  (forall m r D, 0 <= m -> 0 <= r < D ->
     shifted n2 m r D (g (shr_record_of_loc m (loc_of r D)))) ->
  shifted (n1 + n2) m r D (g (f (shr_record_of_loc m (loc_of r D)))).
Proof.
  intros Hn1 Hn2 Hm Hr Hf Hg.
  destruct (Hf m r D Hm Hr) as (r1 & E1 & Hr1 & Hv1).
  assert (Hp1 : 0 < 2 ^ n1) by (apply Z.pow_pos_nonneg; lia).
  assert (Hp2 : 0 < 2 ^ n2) by (apply Z.pow_pos_nonneg; lia).
  assert (Hm1 : 0 <= m / 2 ^ n1) by (apply Z.div_pos; lia).
  rewrite E1.
  destruct (Hg (m / 2 ^ n1) r1 (2 ^ n1 * D) Hm1 Hr1) as (r2 & E2 & Hr2 & Hv2).
  exists r2. rewrite E2.
  rewrite Z.div_div in Hv2 by lia.
  rewrite Z.pow_add_r by lia. rewrite Z.div_div by lia.
  replace (2 ^ n1 * 2 ^ n2 * D) with (2 ^ n2 * (2 ^ n1 * D)) by ring.
  split; [reflexivity|]. split; [exact Hr2|]. lia.
Qed.

Lemma shifted_iter p : forall m r D,
  0 <= m -> 0 <= r < D ->
  shifted (Z.pos p) m r D (iter_pos shr_1 p (shr_record_of_loc m (loc_of r D))).
Proof.
  induction p as [p IH|p IH|]; intros m r D Hm Hr; cbn [iter_pos].
  - replace (Z.pos p~1) with (1 + Z.pos p + Z.pos p) by lia.
    apply (shifted_compose (fun x => iter_pos shr_1 p (shr_1 x)) (iter_pos shr_1 p));
      try lia; [|exact IH].
    intros m' r' D' Hm' Hr'.
    apply (shifted_compose shr_1 (iter_pos shr_1 p)); try lia;
      [apply shifted_1|exact IH].
  - replace (Z.pos p~0) with (Z.pos p + Z.pos p) by lia.
    apply (shifted_compose (iter_pos shr_1 p) (iter_pos shr_1 p)); try lia;
      exact IH.
  - apply shifted_1; assumption.
Qed.

Lemma shr_shifted m r D e n :
  0 <= n -> 0 <= m -> 0 <= r < D ->
  shifted n m r D (fst (shr (shr_record_of_loc m (loc_of r D)) e n))
  /\ snd (shr (shr_record_of_loc m (loc_of r D)) e n) = e + n.
Proof.
  intros Hn Hm Hr. destruct n as [|p|p]; [| |lia]; cbn [shr fst snd].
  - split; [|lia]. exists r. change (2 ^ 0) with 1.
    rewrite Z.div_1_r, Z.mul_1_l. split; [reflexivity|]. split; lia.
  - split; [apply shifted_iter; assumption|reflexivity].
Qed.

Lemma loc_of_shr_record_of_loc m l :
  loc_of_shr_record (shr_record_of_loc m l) = l
  /\ shr_m (shr_record_of_loc m l) = m.
Proof. destruct l as [|[]]; split; reflexivity. Qed.

Lemma round_nearest_even_spec m r D :
  0 <= r < D ->
  let mr := round_nearest_even m (loc_of r D) in
  m <= mr <= m + 1
  /\ 2 * Z.abs (mr * D - (m * D + r)) <= D
  /\ (r = 0 -> mr = m).
Proof.
  intros Hr. unfold loc_of.
  destruct (Z.eqb_spec r 0) as [E|E]; cbn [round_nearest_even].
  - subst r. cbn zeta. split; [lia|]. split; [|reflexivity].
    rewrite Z.add_0_r, Z.sub_diag. cbn. lia.
  - destruct (Z.compare_spec (2 * r) D) as [Hc|Hc|Hc]; cbn [round_nearest_even].
    + cbn zeta. destruct (Z.even m); (split; [lia|]); (split; [lia|lia]).
    + cbn zeta. split; [lia|]. split; [lia|lia].
    + cbn zeta. split; [lia|]. split; [lia|lia].
Qed.

(** [binary_round_aux] in the range of the normal numbers: the result is
    a normal number within half a unit in the last place of
    [(mx + r / D) * 2^ex], and it is that number where it is
    representable. *)
Lemma binary_round_aux_normal prec emax s mx ex r D :
  0 < prec -> 0 < mx -> 0 <= r < D ->
  let d := Zdigits2 mx in
  prec <= d ->
  3 - emax - prec <= d + ex - prec ->
  d + ex < emax ->
  exists m e,
    binary_round_aux prec emax s mx ex (loc_of r D) = S754_finite s m e
    /\ 2 ^ (prec - 1) <= Z.pos m < 2 ^ prec
    /\ ex + d - prec <= e <= ex + d - prec + 1
    /\ 2 * Z.abs (Z.pos m * 2 ^ (e - ex) * D - (mx * D + r)) <= 2 ^ (e - ex) * D
    /\ (mx mod 2 ^ (d - prec) = 0 -> r = 0 -> Z.pos m * 2 ^ (e - ex) = mx).
Proof.
  intros Hprec Hmx Hr d Hd Hemin Hemax.
  destruct (Zdigits2_bounds mx Hmx) as (Hdpos & Hdb). fold d in Hdpos, Hdb.
  set (n := d - prec).
  assert (Hn : 0 <= n) by (unfold n; lia).
  assert (Hfexp : forall k, 3 - emax - prec <= k - prec -> fexp prec emax k = k - prec).
  { intros k Hk. unfold fexp, emin. lia. }
  unfold binary_round_aux, shr_fexp. fold d.
  rewrite (Hfexp (d + ex)) by lia.
  replace (d + ex - prec - ex) with n by (unfold n; lia).
  destruct (shr_shifted mx r D ex n Hn ltac:(lia) Hr) as (Hsh & Hex).
  destruct (shr (shr_record_of_loc mx (loc_of r D)) ex n) as [mrs1 e1].
  cbn [fst snd] in Hsh, Hex. subst e1.
  destruct Hsh as (r1 & -> & Hr1 & Hv1).
  destruct (loc_of_shr_record_of_loc (mx / 2 ^ n) (loc_of r1 (2 ^ n * D)))
    as (-> & ->).
  set (m1 := mx / 2 ^ n) in *.
  set (D1 := 2 ^ n * D) in *.
  assert (Hpn : 0 < 2 ^ n) by (apply Z.pow_pos_nonneg; lia).
  assert (Hm1 : 2 ^ (prec - 1) <= m1 < 2 ^ prec).
  { unfold m1. split.
    - apply Z.div_le_lower_bound; [lia|].
      rewrite <- Z.pow_add_r by lia.
      replace (n + (prec - 1)) with (d - 1) by (unfold n; lia). lia.
    - apply Z.div_lt_upper_bound; [lia|].
      rewrite <- Z.pow_add_r by lia.
      replace (n + prec) with d by (unfold n; lia). lia. }
  destruct (round_nearest_even_spec m1 r1 D1 Hr1) as (Hmr & Hacc & Hexact).
  set (mr := round_nearest_even m1 (loc_of r1 D1)) in *.
  assert (Hpp : 0 < 2 ^ (prec - 1)) by (apply Z.pow_pos_nonneg; lia).
  assert (Hp2 : 2 ^ prec = 2 * 2 ^ (prec - 1)).
  { rewrite <- Z.pow_succ_r by lia. f_equal. lia. }
  assert (HD : 0 < D) by lia.
  assert (Hr1zero : mx mod 2 ^ n = 0 -> r = 0 -> r1 = 0).
  { intros Hmod Hr0.
    assert (Hdm : mx = 2 ^ n * m1 + mx mod 2 ^ n) by (apply Z.div_mod; lia).
    unfold D1 in Hv1. nia. }
  assert (Hloc : loc_Exact = loc_of 0 1) by reflexivity.
  rewrite Hloc.
  destruct (Z.eq_dec mr (2 ^ prec)) as [Ecarry|Ecarry].
  - (* the rounding carries into the next binade *)
    assert (Hdig : Zdigits2 mr = prec + 1).
    { apply Zdigits2_unique; [lia|]. replace (prec + 1 - 1) with prec by lia.
      rewrite Z.pow_add_r by lia. change (2 ^ 1) with 2. lia. }
    rewrite Hdig. rewrite (Hfexp (prec + 1 + (ex + n))) by (unfold n; lia).
    replace (prec + 1 + (ex + n) - prec - (ex + n)) with 1 by lia.
    destruct (shr_shifted mr 0 1 (ex + n) 1 ltac:(lia) ltac:(lia) ltac:(lia))
      as (Hsh2 & Hex2).
    destruct (shr (shr_record_of_loc mr (loc_of 0 1)) (ex + n) 1) as [mrs2 e2].
    cbn [fst snd] in Hsh2, Hex2. subst e2.
    destruct Hsh2 as (r2 & -> & Hr2 & Hv2).
    destruct (loc_of_shr_record_of_loc (mr / 2 ^ 1) (loc_of r2 (2 ^ 1 * 1)))
      as (_ & ->).
    assert (Ehalf : mr / 2 ^ 1 = 2 ^ (prec - 1)).
    { change (2 ^ 1) with 2. rewrite Ecarry, Hp2.
      rewrite Z.mul_comm, Z.div_mul by lia. reflexivity. }
    rewrite Ehalf.
    destruct (2 ^ (prec - 1)) as [|pm|pm] eqn:Epm; [lia| |lia].
    assert (Hle : (ex + n + 1 <=? emax - prec) = true)
      by (apply Z.leb_le; unfold n; lia).
    rewrite Hle. exists pm, (ex + n + 1).
    split; [reflexivity|]. split; [lia|]. split; [unfold n; lia|].
    replace (ex + n + 1 - ex) with (n + 1) by lia.
    rewrite Z.pow_add_r by lia. change (2 ^ 1) with 2.
    assert (Eval : Z.pos pm * (2 ^ n * 2) = mr * 2 ^ n) by (rewrite Ecarry, Hp2; ring).
    rewrite Eval. split.
    + unfold D1 in *.
      replace (mr * 2 ^ n * D - (mx * D + r))
        with (mr * (2 ^ n * D) - (m1 * (2 ^ n * D) + r1)) by lia.
      nia.
    + intros Hmod Hr0. specialize (Hexact (Hr1zero Hmod Hr0)). lia.
  - assert (Hdig : Zdigits2 mr = prec).
    { apply Zdigits2_unique; lia. }
    rewrite Hdig. rewrite (Hfexp (prec + (ex + n))) by (unfold n; lia).
    replace (prec + (ex + n) - prec - (ex + n)) with 0 by lia.
    cbn [shr fst snd].
    destruct (loc_of_shr_record_of_loc mr (loc_of 0 1)) as (_ & ->).
    destruct mr as [|pm|pm] eqn:Epm; [lia| |lia].
    assert (Hle : (ex + n <=? emax - prec) = true)
      by (apply Z.leb_le; unfold n; lia).
    rewrite Hle. exists pm, (ex + n).
    split; [reflexivity|]. split; [lia|]. split; [unfold n; lia|].
    replace (ex + n - ex) with n by lia. split.
    + unfold D1 in *.
      replace (Z.pos pm * 2 ^ n * D - (mx * D + r))
        with (Z.pos pm * (2 ^ n * D) - (m1 * (2 ^ n * D) + r1)) by lia.
      exact Hacc.
    + intros Hmod Hr0. specialize (Hexact (Hr1zero Hmod Hr0)).
      assert (Hdm : mx = 2 ^ n * m1 + mx mod 2 ^ n) by (apply Z.div_mod; lia).
      rewrite Hexact. lia.
Qed.

Lemma iter_xO m k : Z.pos (Pos.iter xO m k) = Z.pos m * 2 ^ Z.pos k.
Proof.
  induction k as [|k IH] using Pos.peano_ind.
  - cbn. lia.
  - rewrite Pos.iter_succ, Pos2Z.inj_xO, IH, Pos2Z.inj_succ.
    rewrite Z.pow_succ_r by lia. ring.
Qed.

(** A number that has [prec] digits is left as it is. *)
Lemma binary_round_aux_canonical prec emax s mx ex :
  0 < prec -> Zdigits2 (Z.pos mx) = prec ->
  3 - emax - prec <= ex -> ex + prec < emax ->
  binary_round_aux prec emax s (Z.pos mx) ex loc_Exact = S754_finite s mx ex.
Proof.
  intros Hprec Hd Hemin Hemax.
  destruct (Zdigits2_bounds (Z.pos mx) ltac:(lia)) as (_ & Hb). rewrite Hd in Hb.
  destruct (binary_round_aux_normal prec emax s (Z.pos mx) ex 0 1)
    as (m & e & E & Hm & He & _ & Hexact); try lia.
  change (loc_of 0 1) with loc_Exact in E. rewrite E.
  rewrite Hd in *. replace (prec - prec) with 0 in Hexact by lia.
  specialize (Hexact (Z.mod_1_r _) eq_refl).
  assert (Hp2 : 2 ^ prec = 2 * 2 ^ (prec - 1)).
  { rewrite <- Z.pow_succ_r by lia. f_equal. lia. }
  assert (e = ex \/ e = ex + 1) as [->| ->] by lia.
  - rewrite Z.sub_diag in Hexact. change (2 ^ 0) with 1 in Hexact.
    f_equal. lia.
  - replace (ex + 1 - ex) with 1 in Hexact by lia. change (2 ^ 1) with 2 in Hexact.
    lia.
Qed.

(** [(float)n]: a normal number within [2^-24] of [n], relatively; its
    value is scaled by [2^w] to keep to the integers. *)
Lemma to_float_spec n w :
  0 < n < 2 ^ 64 -> 23 <= w ->
  exists m e,
    to_float n = S754_finite false m e
    /\ 2 ^ 23 <= Z.pos m < 2 ^ 24
    /\ -23 <= e <= 41
    /\ 2 ^ 24 * Z.abs (Z.pos m * 2 ^ (e + w) - 2 ^ w * n) <= Z.pos m * 2 ^ (e + w).
Proof.
  intros Hn Hw. destruct n as [|p|p]; try lia.
  unfold to_float, binary_normalize, binary_round.
  destruct (Zdigits2_bounds (Z.pos p) ltac:(lia)) as (Hdpos & Hdb).
  cbn [Zdigits2] in Hdpos, Hdb.
  set (d := Z.pos (digits2_pos p)) in *.
  assert (Hd64 : d <= 64).
  { destruct (Z.le_gt_cases d 64) as [H|H]; [exact H|].
    assert (2 ^ 64 <= 2 ^ (d - 1)) by (apply Z.pow_le_mono_r; lia). lia. }
  assert (Hfexp : fexp 24 128 (d + 0) = d - 24) by (unfold fexp, emin; lia).
  rewrite Hfexp. unfold shl_align.
  assert (Hw0 : 0 < 2 ^ w) by (apply Z.pow_pos_nonneg; lia).
  destruct (d - 24 - 0) as [|k|k] eqn:Ek.
  - (* 24 digits *)
    rewrite binary_round_aux_canonical; try lia; [|cbn [Zdigits2]; fold d; lia].
    exists p, 0. split; [reflexivity|].
    assert (d = 24) by lia. subst d.
    replace (24 - 1) with 23 in Hdb by lia. rewrite H in Hdb.
    split; [lia|]. split; [lia|].
    rewrite Z.add_0_l.
    replace (Z.pos p * 2 ^ w - 2 ^ w * Z.pos p) with 0 by ring.
    cbn [Z.abs]. nia.
  - (* more than 24 digits: rounded *)
    destruct (binary_round_aux_normal 24 128 false (Z.pos p) 0 0 1)
      as (m & e & E & Hm & He & Hacc & _); try lia;
      cbn [Zdigits2]; fold d; try lia.
    change (loc_of 0 1) with loc_Exact in E. rewrite E.
    cbn [Zdigits2] in He, Hacc. fold d in He, Hacc.
    exists m, e. split; [reflexivity|]. split; [lia|]. split; [lia|].
    rewrite Z.sub_0_r, Z.mul_1_r, Z.mul_1_r, Z.add_0_r in Hacc.
    assert (He0 : 0 <= e) by lia.
    rewrite Z.pow_add_r by lia.
    assert (Hpe : 0 < 2 ^ e) by (apply Z.pow_pos_nonneg; lia).
    replace (Z.pos m * (2 ^ e * 2 ^ w) - 2 ^ w * Z.pos p)
      with ((Z.pos m * 2 ^ e - Z.pos p) * 2 ^ w) by ring.
    rewrite Z.abs_mul, (Z.abs_eq (2 ^ w)) by lia.
    assert (H24 : 2 ^ 24 * Z.abs (Z.pos m * 2 ^ e - Z.pos p) <= Z.pos m * 2 ^ e).
    { change (2 ^ (24 - 1)) with (2 ^ 23) in Hm.
      change (2 ^ 24) with (2 * 2 ^ 23). nia. }
    nia.
  - (* fewer than 24 digits: exact *)
    assert (Edig : Zdigits2 (Z.pos (Pos.iter xO p k)) = 24).
    { apply Zdigits2_unique; [lia|]. rewrite iter_xO.
      assert (Ek' : Z.pos k = 24 - d) by lia. rewrite Ek'.
      assert (Hpk : 0 < 2 ^ (24 - d)) by (apply Z.pow_pos_nonneg; lia).
      split.
      - replace (24 - 1) with ((d - 1) + (24 - d)) by lia.
        rewrite Z.pow_add_r by lia. nia.
      - replace 24 with (d + (24 - d)) at 2 by lia.
        rewrite Z.pow_add_r by lia. nia. }
    rewrite binary_round_aux_canonical; try lia.
    exists (Pos.iter xO p k), (d - 24). split; [reflexivity|].
    destruct (Zdigits2_bounds (Z.pos (Pos.iter xO p k)) ltac:(lia)) as (_ & Hb).
    rewrite Edig in Hb. split; [exact Hb|]. split; [lia|].
    rewrite iter_xO. assert (Ek' : Z.pos k = 24 - d) by lia. rewrite Ek'.
    rewrite <- Z.mul_assoc, <- Z.pow_add_r by lia.
    replace (24 - d + (d - 24 + w)) with w by lia.
    replace (Z.pos p * 2 ^ w - 2 ^ w * Z.pos p) with 0 by ring.
    cbn [Z.abs]. nia.
Qed.

(** The promotion to double is exact. *)
Lemma to_double_spec m e :
  2 ^ 23 <= Z.pos m < 2 ^ 24 -> -23 <= e <= 41 ->
  exists M,
    to_double (S754_finite false m e) = S754_finite false M (e - 29)
    /\ Z.pos M = Z.pos m * 2 ^ 29.
Proof.
  intros Hm He. unfold to_double, binary_normalize, binary_round.
  assert (Hd : Zdigits2 (Z.pos m) = 24) by (apply Zdigits2_unique; lia).
  cbn [Zdigits2] in Hd. rewrite Hd.
  assert (Hfexp : fexp 53 1024 (24 + e) = e - 29) by (unfold fexp, emin; lia).
  rewrite Hfexp. unfold shl_align.
  replace (e - 29 - e) with (-29) by lia.
  exists (Pos.iter xO m 29).
  split; [|rewrite iter_xO; reflexivity].
  apply binary_round_aux_canonical; try lia.
  apply Zdigits2_unique; [lia|]. rewrite iter_xO.
  change (2 ^ (53 - 1)) with (2 ^ 23 * 2 ^ 29).
  change (2 ^ 53) with (2 ^ 24 * 2 ^ 29). lia.
Qed.

Lemma new_location_loc_of D r :
  0 < D -> 0 <= r < D -> new_location D r = loc_of r D.
Proof.
  intros HD Hr. unfold new_location, new_location_even, new_location_odd, loc_of.
  destruct (Z.even D) eqn:Ev; [reflexivity|].
  destruct (Z.eqb_spec r 0); [reflexivity|]. f_equal.
  assert (Hodd : D mod 2 = 1).
  { rewrite Zmod_even, Ev. reflexivity. }
  assert (Hdm : D = 2 * (D / 2) + D mod 2) by (apply Z.div_mod; lia).
  destruct (Z.compare_spec (2 * r + 1) D);
    destruct (Z.compare_spec (2 * r) D); try reflexivity; lia.
Qed.

Lemma digits_between m lo hi :
  0 < lo -> 2 ^ (lo - 1) <= m < 2 ^ hi -> lo <= Zdigits2 m <= hi.
Proof.
  intros Hlo Hm.
  assert (Hpos : 0 < m).
  { assert (0 < 2 ^ (lo - 1)) by (apply Z.pow_pos_nonneg; lia). lia. }
  destruct (Zdigits2_bounds m Hpos) as (Hd & Hb). split.
  - destruct (Z.le_gt_cases lo (Zdigits2 m)) as [H|H]; [exact H|].
    assert (2 ^ Zdigits2 m <= 2 ^ (lo - 1)) by (apply Z.pow_le_mono_r; lia). lia.
  - destruct (Z.le_gt_cases (Zdigits2 m) hi) as [H|H]; [exact H|].
    assert (2 ^ hi <= 2 ^ (Zdigits2 m - 1)) by (apply Z.pow_le_mono_r; lia). lia.
Qed.

(** The product by [100.0] is exact: it has at most 31 significant bits. *)
Lemma mul_100_spec m M E :
  Z.pos M = Z.pos m * 2 ^ 29 -> 2 ^ 23 <= Z.pos m < 2 ^ 24 -> -52 <= E <= 12 ->
  exists Mp Ep,
    SFmul 53 1024 (S754_finite false M E) double_100 = S754_finite false Mp Ep
    /\ 2 ^ 52 <= Z.pos Mp < 2 ^ 53
    /\ E + 6 <= Ep <= E + 8
    /\ Z.pos Mp * 2 ^ (Ep - E + 46) = Z.pos M * (100 * 2 ^ 46).
Proof.
  intros HM Hm HE.
  assert (E100 : double_100 = S754_finite false 7036874417766400 (-46))
    by reflexivity.
  rewrite E100. cbn [SFmul xorb].
  set (mx := Z.pos (M * 7036874417766400)).
  assert (Emx : mx = Z.pos m * 25 * 2 ^ 77).
  { unfold mx. rewrite Pos2Z.inj_mul, HM.
    change (Z.pos 7036874417766400) with (25 * 2 ^ 48).
    change (2 ^ 77) with (2 ^ 29 * 2 ^ 48). ring. }
  assert (Hrange : 2 ^ (105 - 1) <= mx < 2 ^ 106).
  { rewrite Emx. change (2 ^ (105 - 1)) with (2 ^ 23 * 16 * 2 ^ 77) .
    change (2 ^ 106) with (2 ^ 24 * 32 * 2 ^ 77).
    assert (0 < 2 ^ 77) by (apply Z.pow_pos_nonneg; lia). nia. }
  pose proof (digits_between mx 105 106 ltac:(lia) Hrange) as Hd.
  destruct (binary_round_aux_normal 53 1024 false mx (E + -46) 0 1)
    as (Mp & Ep & Eq & HMp & HEp & _ & Hexact); try lia.
  change (loc_of 0 1) with loc_Exact in Eq.
  exists Mp, Ep. split; [exact Eq|]. split; [exact HMp|]. split; [lia|].
  assert (Hmod : mx mod 2 ^ (Zdigits2 mx - 53) = 0).
  { set (n := Zdigits2 mx - 53). assert (Hn : 0 <= n <= 53) by (unfold n; lia).
    clearbody n. rewrite Emx.
    replace (2 ^ 77) with (2 ^ (77 - n) * 2 ^ n).
    - rewrite Z.mul_assoc. apply Z.mod_mul.
      apply Z.pow_nonzero; lia.
    - rewrite <- Z.pow_add_r by lia. f_equal. lia. }
  specialize (Hexact Hmod eq_refl).
  replace (Ep - E + 46) with (Ep - (E + -46)) by lia.
  rewrite Hexact. unfold mx. rewrite Pos2Z.inj_mul. reflexivity.
Qed.

(** The quotient of two doubles is within [2^-53] of the quotient,
    relatively. *)
Lemma div_spec Mp Ep Mb Eb :
  2 ^ 52 <= Z.pos Mp < 2 ^ 53 -> 2 ^ 52 <= Z.pos Mb < 2 ^ 53 ->
  -200 <= Ep <= 200 -> -200 <= Eb <= 200 ->
  exists Mq Eq,
    SFdiv 53 1024 (S754_finite false Mp Ep) (S754_finite false Mb Eb)
    = S754_finite false Mq Eq
    /\ 2 ^ 52 <= Z.pos Mq < 2 ^ 53
    /\ 0 <= Eq - (Ep - Eb - 53) <= 2
    /\ 2 ^ 53 * Z.abs (Z.pos Mq * 2 ^ (Eq - (Ep - Eb - 53)) * Z.pos Mb
                       - Z.pos Mp * 2 ^ 53)
       <= Z.pos Mq * 2 ^ (Eq - (Ep - Eb - 53)) * Z.pos Mb.
Proof.
  intros HMp HMb HEp HEb.
  assert (Hdp : Zdigits2 (Z.pos Mp) = 53) by (apply Zdigits2_unique; lia).
  assert (Hdb : Zdigits2 (Z.pos Mb) = 53) by (apply Zdigits2_unique; lia).
  unfold SFdiv, SFdiv_core_binary. cbn [xorb]. rewrite Hdp, Hdb.
  assert (Ee : Z.min (fexp 53 1024 (53 + Ep - (53 + Eb))) (Ep - Eb) = Ep - Eb - 53).
  { unfold fexp, emin. lia. }
  rewrite Ee.
  replace (Ep - Eb - (Ep - Eb - 53)) with 53 by lia.
  rewrite Z.shiftl_mul_pow2 by lia.
  pose proof (Z_div_mod (Z.pos Mp * 2 ^ 53) (Z.pos Mb) ltac:(lia)) as Hdiv.
  destruct (Z.div_eucl (Z.pos Mp * 2 ^ 53) (Z.pos Mb)) as [q r].
  destruct Hdiv as (Hqr & Hr).
  rewrite new_location_loc_of by lia.
  assert (Hq : 2 ^ (53 - 1) <= q < 2 ^ 54).
  { change (2 ^ (53 - 1)) with (2 ^ 52). change (2 ^ 54) with (2 * 2 ^ 53).
    split; nia. }
  pose proof (digits_between q 53 54 ltac:(lia) Hq) as Hd.
  destruct (binary_round_aux_normal 53 1024 false q (Ep - Eb - 53) r (Z.pos Mb))
    as (Mq & Eq & E & HMq & HEq & Hacc & _); try lia.
  exists Mq, Eq. split; [exact E|]. split; [exact HMq|]. split; [lia|].
  set (k := Eq - (Ep - Eb - 53)) in *.
  assert (Hk : 0 < 2 ^ k) by (apply Z.pow_pos_nonneg; lia).
  replace (q * Z.pos Mb + r) with (Z.pos Mp * 2 ^ 53) in Hacc by lia.
  change (2 ^ (53 - 1)) with (2 ^ 52) in HMq.
  change (2 ^ 53) with (2 * 2 ^ 52) at 1.
  assert (Hprod : 2 ^ 52 * (2 ^ k * Z.pos Mb) <= Z.pos Mq * 2 ^ k * Z.pos Mb).
  { rewrite <- (Z.mul_assoc (Z.pos Mq)).
    apply Z.mul_le_mono_nonneg_r; [|lia].
    apply Z.mul_nonneg_nonneg; lia. }
  lia.
Qed.

(** [(uint32_t)x] is the integer part of [x]. *)
Lemma to_uint32_t_spec M E w :
  - w <= E -> 0 <= w ->
  Z.pos M * 2 ^ (E + w) / 2 ^ w < 2 ^ 32 ->
  to_uint32_t (S754_finite false M E) = Ok (Z.pos M * 2 ^ (E + w) / 2 ^ w).
Proof.
  intros HE Hw Hlt. unfold to_uint32_t.
  assert (Hpw : 0 < 2 ^ w) by (apply Z.pow_pos_nonneg; lia).
  assert (Ev : (if 0 <=? E then Z.pos M * 2 ^ E else Z.pos M / 2 ^ (- E))
               = Z.pos M * 2 ^ (E + w) / 2 ^ w).
  { destruct (Z.leb_spec 0 E).
    - rewrite Z.pow_add_r, Z.mul_assoc, Z.div_mul by lia. reflexivity.
    - replace (2 ^ w) with (2 ^ (- E) * 2 ^ (E + w)).
      + rewrite Z.div_mul_cancel_r; [reflexivity| |];
          apply Z.pow_nonzero; lia.
      + rewrite <- Z.pow_add_r by lia. f_equal. lia. }
  rewrite Ev.
  assert (H0 : 0 <= Z.pos M * 2 ^ (E + w) / 2 ^ w).
  { apply Z.div_pos; [|lia].
    assert (0 < 2 ^ (E + w)) by (apply Z.pow_pos_nonneg; lia). lia. }
  apply Z.leb_le in H0. apply Z.ltb_lt in Hlt. rewrite H0, Hlt. reflexivity.
Qed.

Lemma abs_le_split x y c : c * Z.abs (x - y) <= x -> 0 < c ->
  c * y <= (c + 1) * x /\ (c - 1) * x <= c * y.
Proof. intros H Hc. destruct (Z.abs_spec (x - y)) as [(_ & E)|(_ & E)]; rewrite E in H; lia. Qed.

(** From the three rounding errors to the integer part of the quotient:
    [VA], [VB] and [VQ] are [(float)a], [(float)b] and the double
    quotient, scaled by [W]. *)
Lemma load_within_one W VA VB VQ a b :
  0 < W -> 0 < a -> 0 < b -> 0 < VA -> 0 < VB -> 0 < VQ ->
  2 ^ 24 * Z.abs (VA - W * a) <= VA ->
  2 ^ 24 * Z.abs (VB - W * b) <= VB ->
  2 ^ 53 * Z.abs (VQ * VB - 100 * VA * W) <= VQ * VB ->
  100 * a <= 2 ^ 20 * b ->
  let load := VQ / W in
  0 <= load < 2 ^ 21
  /\ (load - 1) * b < 100 * a < (load + 2) * b.
Proof.
  intros HW Ha Hb HVA HVB HVQ H1 H2 H4 Hab load.
  destruct (abs_le_split _ _ _ H1 ltac:(lia)) as (H1u & H1l).
  destruct (abs_le_split _ _ _ H2 ltac:(lia)) as (H2u & H2l).
  destruct (abs_le_split _ _ _ H4 ltac:(lia)) as (H4u & H4l).
  change (2 ^ 24) with 16777216 in *.
  change (2 ^ 53) with 9007199254740992 in *.
  change (2 ^ 20) with 1048576 in *.
  change (2 ^ 21) with 2097152.
  assert (Hload : load * W <= VQ < (load + 1) * W).
  { unfold load. pose proof (Z.div_mod VQ W ltac:(lia)) as Hdm.
    pose proof (Z.mod_pos_bound VQ W HW). nia. }
  assert (Hl0 : 0 <= load) by (unfold load; apply Z.div_pos; lia).
  clearbody load.
  (* the lower chain *)
  assert (HWb : 0 < W * b) by (apply Z.mul_pos_pos; lia).
  assert (L1 : load * W * (W * b) <= VQ * (W * b))
    by (apply Z.mul_le_mono_nonneg_r; lia).
  assert (L2 : 16777216 * (W * b) * VQ <= (16777216 + 1) * VB * VQ)
    by (apply Z.mul_le_mono_nonneg_r; lia).
  assert (L3 : (16777216 - 1) * VA * W <= 16777216 * (W * a) * W)
    by (apply Z.mul_le_mono_nonneg_r; lia).
  assert (L : ((9007199254740992 - 1) * (16777216 - 1) * (load * b)) * (W * W)
              <= ((16777216 + 1) * 9007199254740992 * (100 * a)) * (W * W)) by lia.
  apply Z.mul_le_mono_pos_r in L; [|apply Z.mul_pos_pos; lia].
  assert (Lb : ((9007199254740992 - 1) * (16777216 - 1) * load) * b
               <= ((16777216 + 1) * 9007199254740992 * 1048576) * b) by lia.
  apply Z.mul_le_mono_pos_r in Lb; [|lia].
  assert (Hlt : load < 2097152) by lia.
  split; [lia|].
  (* the upper chain *)
  assert (U1 : VQ * (W * b) < (load + 1) * W * (W * b))
    by (apply Z.mul_lt_mono_pos_r; lia).
  assert (U2 : (16777216 - 1) * VB * VQ <= 16777216 * (W * b) * VQ)
    by (apply Z.mul_le_mono_nonneg_r; lia).
  assert (U3 : 16777216 * (W * a) * W <= (16777216 + 1) * VA * W)
    by (apply Z.mul_le_mono_nonneg_r; lia).
  assert (U : (9007199254740992 * (16777216 - 1) * (100 * a)) * (W * W)
              < ((16777216 + 1) * (9007199254740992 + 1) * ((load + 1) * b)) * (W * W))
    by lia.
  apply Z.mul_lt_mono_pos_r in U; [|apply Z.mul_pos_pos; lia].
  split.
  - destruct (Z.lt_ge_cases ((load - 1) * b) (100 * a)) as [Hc|Hc]; [exact Hc|].
    exfalso.
    assert (Lc : ((9007199254740992 - 1) * (16777216 - 1) * load) * b
                 <= ((16777216 + 1) * 9007199254740992 * (load - 1)) * b) by lia.
    apply Z.mul_le_mono_pos_r in Lc; lia.
  - destruct (Z.lt_ge_cases (100 * a) ((load + 2) * b)) as [Hc|Hc]; [exact Hc|].
    exfalso.
    assert (Uc : (9007199254740992 * (16777216 - 1) * (load + 2)) * b
                 < ((16777216 + 1) * (9007199254740992 + 1) * (load + 1)) * b) by lia.
    apply Z.mul_lt_mono_pos_r in Uc; lia.
Qed.

(** [(double)(float)n] and its scaled value. *)
Lemma to_double_to_float_spec n :
  0 < n < 2 ^ 64 ->
  exists m M e,
    to_double (to_float n) = S754_finite false M (e - 29)
    /\ Z.pos M = Z.pos m * 2 ^ 29
    /\ 2 ^ 23 <= Z.pos m < 2 ^ 24
    /\ -23 <= e <= 41
    /\ 2 ^ 24 * Z.abs (Z.pos m * 2 ^ (e + 200) - 2 ^ 200 * n)
       <= Z.pos m * 2 ^ (e + 200).
Proof.
  intros Hn.
  destruct (to_float_spec n 200 Hn ltac:(lia)) as (m & e & E & Hm & He & Hacc).
  destruct (to_double_spec m e Hm He) as (M & Ed & HM).
  exists m, M, e. rewrite E. auto.
Qed.

(** The load is within 1 of the percentage: for a quotient below
    [2^20] percent, [percent a b] is defined and differs from
    [100 * a / b] by at most 1. *)
Lemma percent_within_one a b :
  0 <= a < 2 ^ 64 -> 0 < b < 2 ^ 64 -> 100 * a <= 2 ^ 20 * b ->
  exists load,
    percent a b = Ok load
    /\ load - 1 <= 100 * a / b <= load + 1.
Proof.
  intros Ha Hb Hab. unfold percent.
  destruct (to_double_to_float_spec b Hb)
    as (mb & Mb & eb & Eb & HMb & Hmb & Heb & Haccb).
  rewrite Eb.
  destruct (Z.eq_dec a 0) as [->|Hnz].
  - exists 0. split; [reflexivity|].
    rewrite Z.mul_0_r, Z.div_0_l by lia. lia.
  - destruct (to_double_to_float_spec a ltac:(lia))
      as (ma & Ma & ea & Ea & HMa & Hma & Hea & Hacca).
    rewrite Ea.
    destruct (mul_100_spec ma Ma (ea - 29) HMa Hma ltac:(lia))
      as (Mp & Ep & Emul & HMp & HEp & Hprod).
    rewrite Emul.
    assert (HMb53 : 2 ^ 52 <= Z.pos Mb < 2 ^ 53).
    { rewrite HMb. change (2 ^ 52) with (2 ^ 23 * 2 ^ 29).
      change (2 ^ 53) with (2 ^ 24 * 2 ^ 29). lia. }
    destruct (div_spec Mp Ep Mb (eb - 29) HMp HMb53 ltac:(lia) ltac:(lia))
      as (Mq & Eq & Ediv & HMq & HEq & Haccq).
    rewrite Ediv.
    set (W := 2 ^ 200).
    set (VA := Z.pos ma * 2 ^ (ea + 200)) in *.
    set (VB := Z.pos mb * 2 ^ (eb + 200)) in *.
    set (VQ := Z.pos Mq * 2 ^ (Eq + 200)).
    assert (HW : 0 < W) by (apply Z.pow_pos_nonneg; lia).
    assert (HVA : 0 < VA).
    { unfold VA. assert (0 < 2 ^ (ea + 200)) by (apply Z.pow_pos_nonneg; lia). lia. }
    assert (HVB : 0 < VB).
    { unfold VB. assert (0 < 2 ^ (eb + 200)) by (apply Z.pow_pos_nonneg; lia). lia. }
    assert (HVQ : 0 < VQ).
    { unfold VQ. assert (0 < 2 ^ (Eq + 200)) by (apply Z.pow_pos_nonneg; lia). lia. }
    (* the exponents *)
    set (j := Ep - (ea - 29)) in *.
    set (k := Eq - (Ep - (eb - 29) - 53)) in *.
    assert (Hj : 6 <= j <= 8) by (unfold j; lia).
    assert (Hk : 0 <= k <= 2) by lia.
    set (t := 2 ^ (ea + 347)).
    assert (Ht : 0 < t) by (apply Z.pow_pos_nonneg; lia).
    assert (Hpj : 0 < 2 ^ j) by (apply Z.pow_pos_nonneg; lia).
    assert (Hpk : 0 < 2 ^ k) by (apply Z.pow_pos_nonneg; lia).
    (* the product, without its exponent *)
    assert (Hprod' : Z.pos Mp * 2 ^ j = 100 * Z.pos Ma).
    { replace (Ep - (ea - 29) + 46) with (j + 46) in Hprod by (unfold j; lia).
      rewrite Z.pow_add_r in Hprod by lia.
      apply (Z.mul_reg_r _ _ (2 ^ 46)); [lia|].
      rewrite <- Z.mul_assoc, Hprod. ring. }
    (* the quotient against the product of the scaled values *)
    assert (EQB : VQ * VB = (Z.pos Mq * 2 ^ k * Z.pos mb * 2 ^ j) * t).
    { assert (Ep1 : 2 ^ (Eq + 200) * 2 ^ (eb + 200) = 2 ^ k * 2 ^ j * t).
      { unfold t. rewrite <- !Z.pow_add_r by lia. f_equal. unfold k, j. lia. }
      unfold VQ, VB.
      replace (Z.pos Mq * 2 ^ (Eq + 200) * (Z.pos mb * 2 ^ (eb + 200)))
        with (Z.pos Mq * Z.pos mb * (2 ^ (Eq + 200) * 2 ^ (eb + 200))) by ring.
      rewrite Ep1. ring. }
    assert (EAW : 100 * VA * W = (100 * Z.pos ma * 2 ^ 53) * t).
    { assert (Ep2 : 2 ^ (ea + 200) * 2 ^ 200 = 2 ^ 53 * t).
      { unfold t. rewrite <- !Z.pow_add_r by lia. f_equal. lia. }
      unfold VA, W.
      replace (100 * (Z.pos ma * 2 ^ (ea + 200)) * 2 ^ 200)
        with (100 * Z.pos ma * (2 ^ (ea + 200) * 2 ^ 200)) by ring.
      rewrite Ep2. ring. }
    assert (H4 : 2 ^ 53 * Z.abs (VQ * VB - 100 * VA * W) <= VQ * VB).
    { rewrite EQB, EAW.
      rewrite <- Z.mul_sub_distr_r, Z.abs_mul, (Z.abs_eq t) by lia.
      rewrite Z.mul_assoc.
      apply Z.mul_le_mono_nonneg_r; [lia|].
      (* multiply the bound of the division by 2^j and divide by 2^29 *)
      assert (E1 : (Z.pos Mq * 2 ^ k * Z.pos Mb - Z.pos Mp * 2 ^ 53) * 2 ^ j
                   = (Z.pos Mq * 2 ^ k * Z.pos mb * 2 ^ j
                      - 100 * Z.pos ma * 2 ^ 53) * 2 ^ 29).
      { rewrite HMb. rewrite Z.mul_sub_distr_r.
        replace (Z.pos Mp * 2 ^ 53 * 2 ^ j) with (Z.pos Mp * 2 ^ j * 2 ^ 53) by ring.
        rewrite Hprod', HMa. ring. }
      assert (E2 : Z.pos Mq * 2 ^ k * Z.pos Mb * 2 ^ j
                   = (Z.pos Mq * 2 ^ k * Z.pos mb * 2 ^ j) * 2 ^ 29).
      { rewrite HMb. ring. }
      assert (Hs : 2 ^ 53 * Z.abs ((Z.pos Mq * 2 ^ k * Z.pos Mb
                                    - Z.pos Mp * 2 ^ 53) * 2 ^ j)
                   <= Z.pos Mq * 2 ^ k * Z.pos Mb * 2 ^ j).
      { rewrite Z.abs_mul, (Z.abs_eq (2 ^ j)) by lia.
        rewrite Z.mul_assoc. apply Z.mul_le_mono_nonneg_r; [lia|exact Haccq]. }
      rewrite E1, E2 in Hs.
      rewrite Z.abs_mul, (Z.abs_eq (2 ^ 29)) in Hs by lia.
      rewrite Z.mul_assoc in Hs.
      apply Z.mul_le_mono_pos_r in Hs; [exact Hs|lia]. }
    destruct (load_within_one W VA VB VQ a b HW ltac:(lia) ltac:(lia)
                HVA HVB HVQ Hacca Haccb H4 Hab) as (Hload & Hlo & Hhi).
    cbn zeta in Hload, Hlo, Hhi.
    exists (VQ / W). split.
    + apply (to_uint32_t_spec Mq Eq 200); [lia|lia|].
      fold VQ. fold W. change (2 ^ 32) with 4294967296.
      change (2 ^ 21) with 2097152 in Hload. lia.
    + split.
      * apply Z.div_le_lower_bound; [lia|]. lia.
      * assert (100 * a / b < VQ / W + 2); [|lia].
        apply Z.div_lt_upper_bound; [lia|]. lia.
Qed.

End FloatingPoint.

Section MemoryStatusRegimes.
Import MemoryBudget MemoryStatus.

Lemma UINTPTR_MAX_lt b : UINTPTR_MAX b < 2 ^ 64.
Proof. unfold UINTPTR_MAX, PTR_BITS. destruct (BIT64 b); reflexivity. Qed.

(** The load is computed in single precision: at one byte below a limit
    of 100 MB the working set rounds to the limit and the load is 100,
    where the quotient of the integers is 99; at 130 MB it is 130. *)
Lemma percent_rounds_the_working_set :
  percent (100 * MB - 1) (100 * MB) = Ok 100
  /\ (100 * MB - 1) * 100 / (100 * MB) = 99
  /\ percent (130 * MB) (100 * MB) = Ok 130
  /\ percent 1 3 = Ok 33
  /\ percent 1 0 = Fault OutOfBounds.
Proof. repeat split; vm_compute; reflexivity. Qed.

(** X13.  In a job whose memory limit is in force, [GetMemoryStatus]
    reports the process against the limit: the load is
    [(uint32_t)((float)workingSetSize * 100.0 / (float)limit)] as the
    floating-point arithmetic gives it, the available physical memory is
    the limit less the working set, 0 when the working set exceeds it,
    and the available page file is 0; where the conversion of the load to
    [uint32_t] is undefined the call ends there.  The load is a
    percentage: for a working set of up to [2^20] percent of the limit it
    is defined and within 1 of [100 * workingSetSize / limit].  When the
    query of the working set fails the call reports the figures of the
    machine instead. *)
Theorem memory_status_in_job b info ms st limit ml ap pf :
  g_RestrictedPhysicalMemoryLimit st = UINTPTR_MAX b ->
  g_UseRestrictedVirtualMemory st = false ->
  to_size_t b (Z.min (smallest_job_limit b info) (ullTotalPhys ms)) = limit ->
  0 < limit < UINTPTR_MAX b ->
  limit <= ullTotalVirtual ms ->
  (forall working_set load,
      percent working_set limit = Ok load ->
      exists st',
        GetMemoryStatus b (job_machine info ms) (Some working_set) ml ap pf st
        = Returned (out ml load,
                    out ap (Z.max 0 (limit - working_set)),
                    out pf 0, st')
        /\ g_RestrictedPhysicalMemoryLimit st' = limit)
  /\ (forall working_set f,
        ml = true ->
        percent working_set limit = Fault f ->
        GetMemoryStatus b (job_machine info ms) (Some working_set) ml ap pf st
        = Faulted f)
  /\ (forall working_set,
        0 <= working_set < 2 ^ 64 ->
        100 * working_set <= 2 ^ 20 * limit ->
        exists load,
          percent working_set limit = Ok load
          /\ load - 1 <= 100 * working_set / limit <= load + 1)
  /\ (exists st',
      GetMemoryStatus b (job_machine info ms) None ml ap pf st
      = Returned (out ml (dwMemoryLoad ms),
                  out ap (ullAvailPhys ms),
                  out pf (ullAvailPageFile ms), st')).
Proof.
  intros Hs Hu Hl Hr Hv.
  assert (HG : exists st1,
             GetRestrictedPhysicalMemoryLimit b (job_machine info ms) st = Ok (limit, st1)
             /\ g_RestrictedPhysicalMemoryLimit st1 = limit
             /\ g_UseRestrictedVirtualMemory st1 = false
             /\ GCGetProcessMemoryInfo st1 = true).
  { unfold GetRestrictedPhysicalMemoryLimit. rewrite Hs, Z.eqb_refl. cbn [negb].
    destruct (before_exit_in_job b info ms st) as (st1 & Hb & _ & Hu1).
    rewrite Hl in Hb.
    destruct (before_exit_shape _ _ _ _ _ Hb) as (_ & _ & _ & _ & _ & Hcase).
    assert (Hp1 : GCGetProcessMemoryInfo st1 = true).
    { destruct Hcase as [(Hj & _)|(i & m & _ & _ & _ & Hp)]; [|exact Hp].
      cbn [job_physical_memory_limit] in Hj. lia. }
    destruct (after_exit_keeps_limit b (job_machine info ms) limit
                (ullTotalVirtual ms) (ullAvailPhys ms) st1 Hr Hv)
      as (st2 & Ha & Hc2 & Hu2).
    rewrite Hb. cbn [bind]. rewrite Ha. exists st2.
    split; [reflexivity|]. split; [exact Hc2|]. split; [congruence|].
    destruct (after_exit_shape _ _ _ _ _ _ Ha) as (tv & tp & Htv & Hshape).
    cbn zeta in Hshape. cbn [job_physical_memory_limit hinstKernel32 total_virtual
                             total_physical] in *.
    destruct Hshape as (_ & _ & Hu' & Hptr & _).
    rewrite Hu2, Hu1, Hu in Hu'. symmetry in Hu'. apply orb_false_iff in Hu'.
    destruct Hu' as (Hbv & _). rewrite Hbv in Hptr.
    destruct (Z.eqb_spec limit (UINTPTR_MAX b)) as [E|E]; [lia|].
    cbn [andb orb] in Hptr. congruence. }
  destruct HG as (st1 & HG & Hc1 & Hu1 & Hp1).
  assert (Hnz : (limit =? 0) = false) by (apply Z.eqb_neq; lia).
  split; [|split; [|split]].
  - intros ws load Hload. exists st1. unfold GetMemoryStatus, store_load.
    rewrite HG, Hnz, Hu1, Hp1, Hload. cbn [negb bind]. split; [|exact Hc1].
    assert (Ea : (if limit <? ws then 0 else limit - ws) = Z.max 0 (limit - ws)).
    { destruct (Z.ltb_spec limit ws); lia. }
    rewrite Ea. destruct ml; reflexivity.
  - intros ws f -> Hload. unfold GetMemoryStatus, store_load.
    rewrite HG, Hnz, Hu1, Hp1, Hload. reflexivity.
  - intros ws Hws Hratio. apply percent_within_one; [exact Hws| |exact Hratio].
    pose proof (UINTPTR_MAX_lt b). lia.
  - unfold GetMemoryStatus. rewrite HG, Hnz, Hu1, Hp1. cbn [negb].
    unfold system_figures, GetProcessMemoryLoad.
    cbn [job_machine GlobalMemoryStatusEx]. unfold emit.
    cbn [g_UseRestrictedVirtualMemory]. rewrite Hu1. eexists. reflexivity.
Qed.

Lemma memory_status_in_job_witness :
  exists st',
    GetMemoryStatus amd64
      (job_machine job_100MB (memory (1 * GB) (GB / 2) (128 * 1024 * GB)))
      (Some (100 * MB - 1)) true true true (initial amd64)
    = Returned (out true 100,
                out true (Z.max 0 (100 * MB - (100 * MB - 1))),
                out true 0, st')
    /\ g_RestrictedPhysicalMemoryLimit st' = 100 * MB.
Proof.
  apply (memory_status_in_job amd64 job_100MB
           (memory (1 * GB) (GB / 2) (128 * 1024 * GB)) (initial amd64)
           (100 * MB) true true true).
  - reflexivity.
  - reflexivity.
  - vm_compute. reflexivity.
  - vm_compute. split; reflexivity.
  - vm_compute. discriminate.
  - vm_compute. reflexivity.
Defined.

(** X14.  Where the virtual address space is smaller than the physical
    memory (and no job limits the process), [GetMemoryStatus] reports the
    address space: the load is
    [(uint32_t)((float)(total - available) * 100.0 / (float)total)] of
    the virtual address space as the floating-point arithmetic gives it,
    the available physical memory is the TOTAL virtual address space,
    not what is left of it, and the available page file is 0; where the
    conversion of the load is undefined the call ends there.  The load is
    a percentage: where no more of the address space is available than
    there is, it is defined and within 1 of
    [100 * (total - available) / total]. *)
Theorem memory_status_by_address_space b ms st working_set ml ap pf :
  g_RestrictedPhysicalMemoryLimit st = UINTPTR_MAX b ->
  0 < ullTotalVirtual ms < ullTotalPhys ms ->
  ullTotalVirtual ms <= UINTPTR_MAX b ->
  let used := wrap 64 (ullTotalVirtual ms - ullAvailVirtual ms) in
  (forall load,
      percent used (ullTotalVirtual ms) = Ok load ->
      exists st',
        GetMemoryStatus b (machine_without_job ms) working_set ml ap pf st
        = Returned (out ml load,
                    out ap (ullTotalVirtual ms),
                    out pf 0, st')
        /\ g_RestrictedPhysicalMemoryLimit st' = ullTotalVirtual ms
        /\ g_UseRestrictedVirtualMemory st' = true)
  /\ (forall f,
        ml = true ->
        percent used (ullTotalVirtual ms) = Fault f ->
        GetMemoryStatus b (machine_without_job ms) working_set ml ap pf st
        = Faulted f)
  /\ (0 <= ullAvailVirtual ms <= ullTotalVirtual ms ->
      exists load,
        percent used (ullTotalVirtual ms) = Ok load
        /\ used = ullTotalVirtual ms - ullAvailVirtual ms
        /\ load - 1
           <= 100 * (ullTotalVirtual ms - ullAvailVirtual ms) / ullTotalVirtual ms
           <= load + 1).
Proof.
  intros Hs Hv Hm used.
  assert (HG : exists st1,
             GetRestrictedPhysicalMemoryLimit b (machine_without_job ms) st
             = Ok (ullTotalVirtual ms, st1)
             /\ g_RestrictedPhysicalMemoryLimit st1 = ullTotalVirtual ms
             /\ g_UseRestrictedVirtualMemory st1 = true).
  { destruct (GetRestrictedPhysicalMemoryLimit b (machine_without_job ms) st)
      as [[v st1]|f] eqn:HG.
    2:{ unfold GetRestrictedPhysicalMemoryLimit in HG.
        rewrite Hs, Z.eqb_refl in HG. cbn [negb] in HG.
        unfold before_exit, after_exit, GetProcessMemoryLoad in HG.
        cbn in HG. rewrite Z.eqb_refl in HG. cbn in HG.
        destruct (ullTotalVirtual ms <? ullTotalPhys ms); discriminate. }
    pose proof HG as HG'.
    unfold GetRestrictedPhysicalMemoryLimit in HG.
    rewrite Hs, Z.eqb_refl in HG. cbn [negb] in HG.
    bind_inv HG as [l st0] Hb.
    destruct (before_exit_shape _ _ _ _ _ Hb) as (_ & _ & _ & _ & _ & Hcase).
    destruct Hcase as [(Hj & Htv & Htp)|(i & m & Hq & _)]; [|discriminate Hq].
    destruct (after_exit_shape _ _ _ _ _ _ HG) as (tv & tp & Hfig & Hshape).
    cbn zeta in Hshape. rewrite Hj, Z.eqb_refl in Hshape.
    cbn [Z.eqb] in Hshape.
    destruct Hfig as [(Hne & _)|(_ & m & Hm' & -> & ->)]; [congruence|].
    cbn [machine_without_job GlobalMemoryStatusEx] in Hm'.
    inversion Hm'; subst m.
    destruct (Z.ltb_spec (ullTotalVirtual ms) (ullTotalPhys ms)); [|lia].
    destruct Hshape as (Hv' & Hc & Hu & _). cbn [orb] in Hu.
    rewrite to_size_t_small in Hv' by lia. subst v.
    exists st1. auto. }
  destruct HG as (st1 & HG & Hc1 & Hu1).
  assert (Hnz : (ullTotalVirtual ms =? 0) = false) by (apply Z.eqb_neq; lia).
  assert (Hcall : GetMemoryStatus b (machine_without_job ms) working_set ml ap pf st
                  = match store_load ml used (ullTotalVirtual ms) with
                    | Fault f => Faulted f
                    | Ok load =>
                        Returned (load, out ap (ullTotalVirtual ms), out pf 0,
                                  emit st1 CallGlobalMemoryStatusEx)
                    end).
  { unfold GetMemoryStatus. rewrite HG, Hnz, Hu1. cbn [negb].
    unfold system_figures, GetProcessMemoryLoad.
    cbn [machine_without_job GlobalMemoryStatusEx]. unfold emit.
    cbn [g_UseRestrictedVirtualMemory]. rewrite Hu1, Z.eqb_refl. cbn [negb].
    reflexivity. }
  split; [|split].
  - intros load Hload. rewrite Hcall. unfold store_load. rewrite Hload.
    cbn [bind]. eexists. split; [destruct ml; reflexivity|].
    unfold emit.
    cbn [g_RestrictedPhysicalMemoryLimit g_UseRestrictedVirtualMemory]. auto.
  - intros f -> Hload. rewrite Hcall. unfold store_load. rewrite Hload.
    reflexivity.
  - intros Hav. pose proof (UINTPTR_MAX_lt b) as Hmax.
    assert (Eused : used = ullTotalVirtual ms - ullAvailVirtual ms).
    { unfold used. apply wrap_small. lia. }
    rewrite Eused.
    destruct (percent_within_one (ullTotalVirtual ms - ullAvailVirtual ms)
                (ullTotalVirtual ms)) as (load & Hload & Hb); [lia|lia|lia|].
    exists load. auto.
Qed.

Lemma memory_status_by_address_space_witness :
  exists st',
    GetMemoryStatus x86 (machine_without_job memory_2GB_of_address_space)
      (Some (30 * MB)) true true true (initial x86)
    = Returned (out true 75,
                out true (ullTotalVirtual memory_2GB_of_address_space),
                out true 0, st')
    /\ g_RestrictedPhysicalMemoryLimit st'
       = ullTotalVirtual memory_2GB_of_address_space
    /\ g_UseRestrictedVirtualMemory st' = true.
Proof.
  apply (memory_status_by_address_space x86 memory_2GB_of_address_space
           (initial x86) (Some (30 * MB)) true true true).
  - reflexivity.
  - vm_compute. split; reflexivity.
  - vm_compute. discriminate.
  - vm_compute. reflexivity.
Defined.

End MemoryStatusRegimes.

(** ** The cache size: enumeration and CPUID *)

Section CacheProbeFacts.
Import CacheProbe.

Lemma fold_cache_maximum l : forall acc,
  let r := fold_left
             (fun last_cache_size e =>
                if is_RelationCache (Relationship e)
                then Z.max last_cache_size (Cache_Size e)
                else last_cache_size) l acc in
  acc <= r
  /\ (forall e, In e l -> is_RelationCache (Relationship e) = true ->
                Cache_Size e <= r)
  /\ (r = acc
      \/ exists e, In e l /\ is_RelationCache (Relationship e) = true
                   /\ Cache_Size e = r).
Proof.
  induction l as [|x l IH]; intros acc; cbn [fold_left].
  - cbn zeta. split; [lia|]. split; [intros e []|left; reflexivity].
  - cbn zeta.
    destruct (is_RelationCache (Relationship x)) eqn:Ex.
    + destruct (IH (Z.max acc (Cache_Size x))) as (H1 & H2 & H3).
      cbn zeta in H1, H2, H3. split; [lia|]. split.
      * intros e [->|He] Hc; [lia|apply H2; assumption].
      * destruct H3 as [H3|(e & He & Hc & Hs)].
        -- destruct (Z.max_spec acc (Cache_Size x)) as [(_ & Hm)|(_ & Hm)].
           ++ right. exists x. split; [left; reflexivity|].
              split; [exact Ex|]. rewrite H3. symmetry. exact Hm.
           ++ left. rewrite H3. exact Hm.
        -- right. exists e. split; [right; exact He|]. split; assumption.
    + destruct (IH acc) as (H1 & H2 & H3).
      cbn zeta in H1, H2, H3. split; [lia|]. split.
      * intros e [->|He] Hc; [congruence|apply H2; assumption].
      * destruct H3 as [H3|(e & He & Hc & Hs)]; [left; exact H3|].
        right. exists e. split; [right; exact He|]. split; assumption.
Qed.

(** X15.  [GetLogicalProcessorCacheSizeFromOS] returns the size of the
    largest cache the operating system enumerates: no entry of kind
    [RelationCache] is larger, and the result is the size of one of them,
    or 0 when there is none larger than 0; entries of other kinds do not
    count.  It returns 0 when the enumeration fails. *)
Theorem cache_size_from_OS_is_largest os v :
  GetLogicalProcessorCacheSizeFromOS os = Ok v ->
  0 <= v
  /\ (GetLPI os = Ok None -> v = 0)
  /\ (forall pslpi, GetLPI os = Ok (Some pslpi) ->
        (forall e, In e pslpi -> is_RelationCache (Relationship e) = true ->
                   Cache_Size e <= v)
        /\ (v = 0
            \/ exists e, In e pslpi /\ is_RelationCache (Relationship e) = true
                         /\ Cache_Size e = v)).
Proof.
  unfold GetLogicalProcessorCacheSizeFromOS.
  destruct (GetLPI os) as [[l|]|f]; cbn [bind]; [| |discriminate].
  - intros E. inversion E; subst. unfold largest_cache.
    destruct (fold_cache_maximum l 0) as (H1 & H2 & H3). cbn zeta in H1, H2, H3.
    split; [exact H1|]. split; [discriminate|].
    intros pslpi E'. inversion E'; subst pslpi. split; [exact H2|exact H3].
  - intros E. inversion E; subst. split; [lia|]. split; [reflexivity|].
    intros pslpi E'. discriminate.
Qed.

Lemma cache_size_from_OS_is_largest_witness :
  0 <= 8 * MB
  /\ (GetLPI intel_8MB = Ok None -> 8 * MB = 0)
  /\ (forall pslpi, GetLPI intel_8MB = Ok (Some pslpi) ->
        (forall e, In e pslpi -> is_RelationCache (Relationship e) = true ->
                   Cache_Size e <= 8 * MB)
        /\ (8 * MB = 0
            \/ exists e, In e pslpi /\ is_RelationCache (Relationship e) = true
                         /\ Cache_Size e = 8 * MB)).
Proof.
  apply (cache_size_from_OS_is_largest intel_8MB (8 * MB)).
  vm_compute. reflexivity.
Defined.

(** The AuthenticAMD block always returns: the number of cores it divides
    by is at least 1. *)
Lemma amd_block_returns b os dwBuffer st :
  exists st', amd_block b os dwBuffer st = Ok st'.
Proof.
  unfold amd_block.
  destruct dwBuffer as [[[b0 b1] b2] b3].
  destruct ((to_DWORD b1 =? c_htuA) && (to_DWORD b3 =? c_itne)
            && (to_DWORD b2 =? c_DMAc)); [|eexists; reflexivity].
  destruct (cpuid os 2147483648) as [[[e0 ?] ?] ?].
  destruct (2147483654 <=? to_DWORD e0); [|eexists; reflexivity].
  destruct (cpuid os 2147483654) as [[[? ?] c2] c3].
  destruct (cpuid os 1) as [[[f0 ?] ?] ?].
  match goal with
  | |- context [if ?c then _ else Ok ?t] => destruct c
  end; [|eexists; reflexivity].
  match goal with
  | |- context [if negb ?c then _ else _] => destruct c
  end; cbn [negb]; [eexists; reflexivity|].
  destruct (cpuid os 2147483656) as [[[? ?] g2] ?].
  assert (Hc : to_DWORD (Z.land (to_DWORD g2) 255 + 1) <> 0).
  { assert (Hl : 0 <= Z.land (to_DWORD g2) 255 <= 255).
    { rewrite Z.land_comm. apply land_le_l. lia. }
    rewrite to_DWORD_small by lia. lia. }
  unfold udiv. apply Z.eqb_neq in Hc. rewrite Hc. cbn [bind].
  eexists; reflexivity.
Qed.

Lemma amd_block_reads_cpuid_only b os os' dwBuffer st :
  (forall leaf, cpuid os' leaf = cpuid os leaf) ->
  amd_block b os' dwBuffer st = amd_block b os dwBuffer st.
Proof.
  intros H. unfold amd_block. rewrite !H. reflexivity.
Qed.

(** X16.  Where the caches are not enumerated (a 32-bit or 64-bit x86
    processor that is not GenuineIntel), a computing call of
    [GetCacheSizePerLogicalCpu] always returns: the division by the
    number of cores of the AuthenticAMD block never divides by 0.  And its
    result is made of the answers of CPUID alone: the enumeration of the
    operating system is not consulted. *)
Theorem probe_without_enumeration_returns b os trueSize st :
  maxSize st = 0 ->
  enumerates_caches b os = false ->
  exists v st',
    GetCacheSizePerLogicalCpu b os trueSize st = Ok (v, st')
    /\ forall os',
         (forall leaf, cpuid os' leaf = cpuid os leaf) ->
         GetCacheSizePerLogicalCpu b os' trueSize st = Ok (v, st').
Proof.
  intros Hz Hne.
  assert (Hi : forall o, cpuid o 0 = cpuid os 0 ->
                         intel_block b o (cpuid os 0) st = Ok st).
  { intros o _. unfold intel_block. unfold enumerates_caches, is_GenuineIntel in Hne.
    destruct (cpuid os 0) as [[[b0 b1] b2] b3].
    destruct (target b); try discriminate; rewrite Hne; reflexivity. }
  destruct (amd_block_returns b os (cpuid os 0) st) as (st1 & Ha).
  assert (Hcall : forall o, (forall leaf, cpuid o leaf = cpuid os leaf) ->
            GetCacheSizePerLogicalCpu b o trueSize st
            = Ok (if trueSize then maxTrueSize st1 else maxSize st1, st1)).
  { intros o Ho. unfold GetCacheSizePerLogicalCpu. rewrite Hz.
    cbn [Z.eqb negb]. unfold enumerates_caches in Hne.
    destruct (target b); try discriminate;
      rewrite (Ho 0), (Hi o (Ho 0)); cbn [bind];
      rewrite (amd_block_reads_cpuid_only b os o _ st Ho), Ha; reflexivity. }
  exists (if trueSize then maxTrueSize st1 else maxSize st1), st1.
  split; [apply Hcall; reflexivity|exact Hcall].
Qed.

Lemma probe_without_enumeration_returns_witness :
  exists v st',
    GetCacheSizePerLogicalCpu amd64 amd_8MB true initial = Ok (v, st')
    /\ forall os',
         (forall leaf, cpuid os' leaf = cpuid amd_8MB leaf) ->
         GetCacheSizePerLogicalCpu amd64 os' true initial = Ok (v, st').
Proof.
  apply (probe_without_enumeration_returns amd64 amd_8MB true initial).
  - reflexivity.
  - vm_compute. reflexivity.
Defined.

End CacheProbeFacts.

(** ** The processor count and the single-processor flag *)

Section CpuCountFacts.
Import CpuCount.

(** X17.  The first call of [GetCurrentProcessCpuCount] returns 1 exactly
    when the query of the affinity masks fails or the process is
    affinitized to one processor, the condition under which start-up sets
    [g_fHadSingleProcessorAtStartup] apart from the failed query: there
    the count is 1 and the flag stays unset. *)
Theorem count_of_one_means_single_processor q st :
  cCPUs st = 0 ->
  (forall p s, q = Some (p, s) -> 0 <= p < 2 ^ 64 /\ 0 <= s < 2 ^ 64) ->
  exists n,
    GetCurrentProcessCpuCount q st = Ok (n, mkState n)
    /\ (n = 1 <-> q = None \/ affinitized_to_one q = true).
Proof.
  intros Hz Hq. unfold GetCurrentProcessCpuCount. rewrite Hz.
  cbn [Z.eqb negb].
  destruct q as [[p s]|].
  - destruct (Hq p s eq_refl) as (Hp & Hs).
    assert (Hm : 0 <= Z.land p s < 2 ^ 64).
    { split; [apply Z.land_nonneg; left; lia|].
      pose proof (land_le_l p s (proj1 Hp)). lia. }
    pose proof (popcount_le_64 _ Hm) as H64.
    pose proof (popcount_nonneg (Z.land p s)) as H0.
    rewrite (count_bits_popcount DWORD_PTR_BITS (Z.land p s) 0 (proj1 Hm))
      by (unfold DWORD_PTR_BITS; change (Z.of_nat 64) with 64; exact H64).
    cbn [bind]. rewrite Z.add_0_l.
    eexists. split; [reflexivity|].
    unfold affinitized_to_one.
    destruct (Z.eqb_spec (popcount (Z.land p s)) 0) as [E0|E0]; cbn [orb].
    + rewrite E0. split; [discriminate|]. intros [H|H]; discriminate.
    + destruct (Z.ltb_spec 64 (popcount (Z.land p s))); [lia|].
      split.
      * intros E. right. apply Z.eqb_eq. exact E.
      * intros [H'|H']; [discriminate|]. apply Z.eqb_eq. exact H'.
  - cbn [bind]. exists 1. split; [reflexivity|].
    split; [intros _; left; reflexivity|reflexivity].
Qed.

Lemma count_of_one_means_single_processor_witness :
  exists n,
    GetCurrentProcessCpuCount (Some (4, 0xFF)) initial = Ok (n, mkState n)
    /\ (n = 1 <-> Some (4, 0xFF) = None
                  \/ affinitized_to_one (Some (4, 0xFF)) = true).
Proof.
  apply (count_of_one_means_single_processor (Some (4, 0xFF)) initial).
  - reflexivity.
  - intros p s E. inversion E; subst. lia.
Defined.

End CpuCountFacts.

(** ** The life of an event *)

Section EventFacts.
Import Events.

Lemma null_is_not_INVALID_HANDLE_VALUE b : 0 <> INVALID_HANDLE_VALUE b.
Proof.
  unfold INVALID_HANDLE_VALUE. pose proof (UINTPTR_MAX_ge b). lia.
Qed.

(** X18.  The creators test the handle of [CreateEvent] against
    [INVALID_HANDLE_VALUE] only: a null handle is taken for an event.
    They return [true] and keep the null handle, and the first [Set] of
    the event ends in the assertion on [SetEvent] wherever [SetEvent]
    rejects the null handle. *)
Theorem null_handle_is_taken_for_an_event b os manual initialState ev :
  m_impl ev = None ->
  new_Impl os = true ->
  CreateEvent os manual initialState = 0 ->
  let create :=
    if manual then CreateManualEventNoThrow else CreateAutoEventNoThrow in
  let ev' := mkGCEvent (Some (mkImpl 0)) in
  create b os initialState ev = Ok (true, ev')
  /\ (forall os', SetEvent os' 0 = false ->
                  GCEvent_Set b os' ev' = Fault AssertionFailed).
Proof.
  intros Hn Ha Hc create ev'.
  assert (Hv : IsValid b (mkImpl 0) = true).
  { unfold IsValid. cbn [m_hEvent].
    destruct (Z.eqb_spec 0 (INVALID_HANDLE_VALUE b)) as [E|E]; [|reflexivity].
    destruct (null_is_not_INVALID_HANDLE_VALUE b E). }
  split.
  - subst create.
    destruct manual;
      unfold CreateManualEventNoThrow, CreateOSManualEventNoThrow,
        CreateAutoEventNoThrow, CreateOSAutoEventNoThrow,
        Impl_CreateManualEvent, Impl_CreateAutoEvent;
      rewrite Hn, Ha, Hc; cbn [assert bind negb]; rewrite Hv; reflexivity.
  - intros os' Hs. unfold GCEvent_Set, with_impl, Impl_Set. subst ev'.
    cbn [m_impl]. rewrite Hv. cbn [m_hEvent assert bind]. rewrite Hs.
    reflexivity.
Qed.

Lemma null_handle_is_taken_for_an_event_witness :
  CreateAutoEventNoThrow amd64 events_machine_out_of_handles true new_GCEvent
  = Ok (true, mkGCEvent (Some (mkImpl 0)))
  /\ (forall os', SetEvent os' 0 = false ->
                  GCEvent_Set amd64 os' (mkGCEvent (Some (mkImpl 0)))
                  = Fault AssertionFailed).
Proof.
  apply (null_handle_is_taken_for_an_event amd64 events_machine_out_of_handles
           false true new_GCEvent); reflexivity.
Defined.

Lemma creator_shape b os (manual initialState : bool) ev ok ev' :
  (if manual then CreateManualEventNoThrow else CreateAutoEventNoThrow)
    b os initialState ev = Ok (ok, ev') ->
  m_impl ev = None
  /\ (ok = false -> ev' = ev)
  /\ (ok = true ->
      ev' = mkGCEvent (Some (mkImpl (CreateEvent os manual initialState)))
      /\ CreateEvent os manual initialState <> INVALID_HANDLE_VALUE b).
Proof.
  assert (Hgen : forall h,
            (assert (match m_impl ev with None => true | Some _ => false end) ;;;
             if negb (new_Impl os) then Ok (false, ev)
             else
               let '(ok, event) := (IsValid b (mkImpl h), mkImpl h) in
               if negb ok then Ok (false, ev)
               else Ok (true, mkGCEvent (Some event))) = Ok (ok, ev') ->
            m_impl ev = None
            /\ (ok = false -> ev' = ev)
            /\ (ok = true ->
                ev' = mkGCEvent (Some (mkImpl h)) /\ h <> INVALID_HANDLE_VALUE b)).
  { intros h. unfold IsValid. cbn [m_hEvent].
    destruct (m_impl ev); cbn [assert bind]; [discriminate|].
    destruct (new_Impl os); cbn [negb].
    - destruct (Z.eqb_spec h (INVALID_HANDLE_VALUE b)) as [Eh|Eh]; cbn [negb];
        intros E; inversion E; subst; (split; [reflexivity|]); split;
        try reflexivity; try discriminate.
      intros _. split; [reflexivity|exact Eh].
    - intros E; inversion E; subst. split; [reflexivity|].
      split; [reflexivity|discriminate]. }
  destruct manual; intros H; apply Hgen; exact H.
Qed.

(** X19.  An event one of the creators reports as created can be used:
    [Set], [Reset], [Wait] and [CloseEvent] pass their assertions on the
    event and fail only where the call of the operating system fails;
    [Wait] returns what [WaitForSingleObject] answers.  A second creation
    on the event ends in an assertion failure.  A creator that reports
    failure leaves the event as it was, so creation can be tried
    again. *)
Theorem created_event_is_usable b os (manual initialState : bool) ev ok ev' :
  (if manual then CreateManualEventNoThrow else CreateAutoEventNoThrow)
    b os initialState ev = Ok (ok, ev') ->
  let h := CreateEvent os manual initialState in
  (ok = false -> ev' = ev)
  /\ (ok = true ->
      forall os',
        (SetEvent os' h = true -> GCEvent_Set b os' ev' = Ok tt)
        /\ (ResetEvent os' h = true -> GCEvent_Reset b os' ev' = Ok tt)
        /\ (forall timeout,
              GCEvent_Wait b os' ev' timeout
              = Ok (WaitForSingleObject os' h timeout))
        /\ (CloseHandle os' h = true ->
            exists ev'', GCEvent_CloseEvent b os' ev' = Ok ev'')
        /\ (forall manual' initialState' : bool,
              (if manual' then CreateManualEventNoThrow
               else CreateAutoEventNoThrow) b os' initialState' ev'
              = Fault AssertionFailed)).
Proof.
  intros H h.
  destruct (creator_shape _ _ _ _ _ _ _ H) as (_ & Hf & Ht).
  split; [exact Hf|]. intros Hok os'.
  destruct (Ht Hok) as (-> & Hh). fold h in Hh |- *.
  assert (Hv : IsValid b (mkImpl h) = true).
  { unfold IsValid. cbn [m_hEvent]. apply Z.eqb_neq in Hh. rewrite Hh.
    reflexivity. }
  unfold GCEvent_Set, GCEvent_Reset, GCEvent_Wait, GCEvent_CloseEvent,
    with_impl, Impl_Set, Impl_Reset, Impl_Wait, Impl_CloseEvent.
  cbn [m_impl]. rewrite Hv. cbn [m_hEvent assert bind].
  split; [intros ->; reflexivity|].
  split; [intros ->; reflexivity|].
  split; [reflexivity|].
  split; [intros ->; cbn [bind]; eexists; reflexivity|].
  intros [] i; reflexivity.
Qed.

Lemma created_event_is_usable_witness :
  exists ev'',
    GCEvent_CloseEvent amd64 events_machine event_0x1A4 = Ok ev''.
Proof.
  destruct (created_event_is_usable amd64 events_machine false true
              new_GCEvent true event_0x1A4) as (_ & H).
  - reflexivity.
  - destruct (H eq_refl events_machine) as (_ & _ & _ & Hc & _).
    apply Hc. reflexivity.
Defined.

(** X20.  A closed event is dead: once [CloseEvent] has returned, [Set],
    [Reset], [Wait] and a second [CloseEvent] end in an assertion failure
    whatever the operating system would answer, so the closed handle is
    never passed to the operating system again; and so do the creators,
    because [m_impl] is not reset: the object cannot be created anew. *)
Theorem closed_event_is_dead b os ev ev' :
  GCEvent_CloseEvent b os ev = Ok ev' ->
  forall os',
    GCEvent_Set b os' ev' = Fault AssertionFailed
    /\ GCEvent_Reset b os' ev' = Fault AssertionFailed
    /\ (forall timeout, GCEvent_Wait b os' ev' timeout = Fault AssertionFailed)
    /\ GCEvent_CloseEvent b os' ev' = Fault AssertionFailed
    /\ (forall manual initialState : bool,
          (if manual then CreateManualEventNoThrow else CreateAutoEventNoThrow)
            b os' initialState ev'
          = Fault AssertionFailed).
Proof.
  unfold GCEvent_CloseEvent at 1. unfold with_impl.
  destruct (m_impl ev) as [i|]; [|discriminate].
  intros H. bind_inv H as i' Hi. inversion H; subst ev'.
  unfold Impl_CloseEvent in Hi.
  destruct (assert (IsValid b i)); [|discriminate]. cbn [bind] in Hi.
  destruct (assert (CloseHandle os (m_hEvent i))); [|discriminate].
  cbn [bind] in Hi. inversion Hi; subst i'.
  intros os'.
  unfold GCEvent_Set, GCEvent_Reset, GCEvent_Wait, GCEvent_CloseEvent,
    with_impl, Impl_Set, Impl_Reset, Impl_Wait, Impl_CloseEvent, IsValid.
  cbn [m_impl m_hEvent]. rewrite Z.eqb_refl. cbn [negb assert bind].
  repeat (split; [reflexivity|]).
  intros [] i0; reflexivity.
Qed.

Lemma closed_event_is_dead_witness :
  GCEvent_Set amd64 events_machine
    (mkGCEvent (Some (mkImpl (INVALID_HANDLE_VALUE amd64))))
  = Fault AssertionFailed.
Proof.
  apply (closed_event_is_dead amd64 events_machine event_0x1A4
           (mkGCEvent (Some (mkImpl (INVALID_HANDLE_VALUE amd64))))).
  reflexivity.
Defined.

End EventFacts.
